(** * WCAG contrast calculator: a shallow embedding of [calculate_contrast.py]

    The script defines four functions, [hex_to_rgb], [rgb_to_luminance],
    [contrast_ratio] and [blend_rgba_on_rgb], and a report that prints their
    results for a fixed colour table.  This development embeds the four
    functions and the values that the report computes, and proves the
    properties the specification states about them (C1 to C10) and further
    properties that the code itself shows (X1 to X20).

    Modelling choices.
    - A Python [str] is a Rocq [string], a sequence of code points below 256,
      where the strings at hand are ASCII.  The hex parser is also given on
      lists of arbitrary code points ([Uni]), where [int] reads Unicode
      digits and white space through the interpreter's Unicode database, a
      [Variable] like [pow] below; on ASCII strings the two parsers agree
      ([UniFacts.hex_to_rgb_of_string]).
    - A Python [int] is a [Z]; a colour triple is [Z * Z * Z].
    - A Python [float] is a kernel binary64 float ([PrimFloat.float]); [+],
      [-], [*], [/] and the comparisons are the IEEE 754 operations with
      round-to-nearest-even, as in CPython.
    - An exception is a value [Raise e] of the error monad [result]; the
      first exception raised in evaluation order wins.
    - The C library function [pow], which CPython calls for [x ** y], is not
      part of the repository: it is a [Variable] of the section that defines
      the luminance code, and each theorem states what it needs of it.

    Plan.  The model comes first, then what the specification says in its
    own terms, then the properties: those of the hex parser, those that hold
    by evaluation, and those that hold for every Color or every alpha, which
    rest on the monotonicity of binary64 rounding proved in between.  The
    further properties follow in the same order: the hex parser, the blend,
    the luminance and the contrast ratio, and the report. *)

From Stdlib Require Import ZArith List Bool Lia Ascii String Floats QArith Qround.
Import ListNotations.

Set Warnings "-inexact-float".

(** ** Exceptions and the error monad *)

Inductive exn : Type :=
| ValueError
| OverflowError
| ZeroDivisionError
| TypeError.

Inductive result (A : Type) : Type :=
| Ok (a : A)
| Raise (e : exn).

Arguments Ok {A} a.
Arguments Raise {A} e.

Definition bind {A B : Type} (r : result A) (k : A -> result B) : result B :=
  match r with
  | Ok a => k a
  | Raise e => Raise e
  end.

Notation "x <- r ;; k" := (bind r (fun x => k))
  (at level 61, r at next level, right associativity).

Definition raises {A : Type} (r : result A) : Prop := exists e, r = Raise e.

Definition is_ok {A : Type} (r : result A) : bool :=
  match r with Ok _ => true | Raise _ => false end.

(** ** Strings *)

Module Str.

Local Open Scope string_scope.
Local Open Scope char_scope.

(** [s.lstrip('#')]: every leading ['#'] is removed. *)
Fixpoint lstrip_hash (s : string) : string :=
  match s with
  | String c s' => if Ascii.eqb c "#" then lstrip_hash s' else s
  | EmptyString => s
  end.

(** [s[i:j]] for [0 <= i <= j]: the slice is clipped to the string. *)
Definition slice (s : string) (i j : nat) : string := substring i (j - i) s.

(** [c * n] for a one-character string [c]. *)
Fixpoint repeat_char (c : ascii) (n : nat) : string :=
  match n with
  | O => EmptyString
  | S n' => String c (repeat_char c n')
  end.

Definition code (c : ascii) : N := N_of_ascii c.

(** The value of a digit in base 16 ([_PyLong_DigitValue] below 16). *)
Definition digit_value (c : ascii) : option Z :=
  let n := code c in
  if ((48 <=? n) && (n <=? 57))%N then Some (Z.of_N (n - 48))
  else if ((97 <=? n) && (n <=? 102))%N then Some (Z.of_N (n - 87))
  else if ((65 <=? n) && (n <=? 70))%N then Some (Z.of_N (n - 55))
  else None.

Definition is_hex_digit (c : ascii) : bool :=
  match digit_value c with Some _ => true | None => false end.

(** [Py_ISSPACE]: the ASCII white space. *)
Definition is_ascii_space (c : ascii) : bool :=
  let n := code c in (((9 <=? n) && (n <=? 13)) || (n =? 32))%N.

(** [int(str, base)] first rewrites the string to ASCII: a code point from
    127 on becomes a blank when it is Unicode white space (below 256: U+0085
    and U+00A0) and ['?'] otherwise (no code point below 256 other than the
    ASCII digits is a decimal digit). *)
Definition to_ascii (c : ascii) : ascii :=
  let n := code c in
  if (n <? 127)%N then c
  else if ((n =? 133) || (n =? 160))%N then " " else "?".

Fixpoint transform (s : string) : string :=
  match s with
  | EmptyString => EmptyString
  | String c s' => String (to_ascii c) (transform s')
  end.

Fixpoint skip_spaces (s : string) : string :=
  match s with
  | String c s' => if is_ascii_space c then skip_spaces s' else s
  | EmptyString => s
  end.

(** The digit loop of [PyLong_FromString]: digits with single underscores
    between them.  [prev_us] says that the previous character was an
    underscore, [n] counts the digits read, [acc] is their value.  The loop
    stops at the first character that is neither; it fails on a doubled or a
    trailing underscore and when there is no digit. *)
Fixpoint scan_digits (s : string) (prev_us : bool) (n : nat) (acc : Z)
  : option (Z * string) :=
  match s with
  | String c s' =>
      if Ascii.eqb c "_" then
        if prev_us then None else scan_digits s' true n acc
      else
        match digit_value c with
        | Some d => scan_digits s' false (S n) (16 * acc + d)
        | None =>
            if prev_us then None
            else match n with O => None | S _ => Some (acc, s) end
        end
  | EmptyString =>
      if prev_us then None
      else match n with O => None | S _ => Some (acc, s) end
  end.

(** The sign: [(negative, rest)]. *)
Definition take_sign (s : string) : bool * string :=
  match s with
  | String c s' =>
      if Ascii.eqb c "+" then (false, s')
      else if Ascii.eqb c "-" then (true, s')
      else (false, s)
  | EmptyString => (false, s)
  end.

(** The base prefix [0x] or [0X], and the one underscore allowed after it. *)
Definition take_prefix (s : string) : string :=
  match s with
  | String c0 (String c1 s') =>
      if Ascii.eqb c0 "0" && (Ascii.eqb c1 "x" || Ascii.eqb c1 "X") then
        match s' with
        | String c2 s'' => if Ascii.eqb c2 "_" then s'' else s'
        | EmptyString => s'
        end
      else s
  | _ => s
  end.

Definition starts_with_underscore (s : string) : bool :=
  match s with
  | String c _ => Ascii.eqb c "_"
  | EmptyString => false
  end.

(** [int(s, 16)]. *)
Definition int16 (s : string) : result Z :=
  let s1 := skip_spaces (transform s) in
  let '(neg, s2) := take_sign s1 in
  let s3 := take_prefix s2 in
  if starts_with_underscore s3 then Raise ValueError
  else
    match scan_digits s3 false 0 0 with
    | None => Raise ValueError
    | Some (v, rest) =>
        match skip_spaces rest with
        | EmptyString => Ok (if neg then (- v)%Z else v)
        | String _ _ => Raise ValueError
        end
    end.

(** [PyLong_FromString(buffer, 16)]: what [int(s, 16)] does once the string
    is rewritten to an ASCII buffer. *)
Definition long_from_string (buffer : string) : result Z :=
  let s1 := skip_spaces buffer in
  let '(neg, s2) := take_sign s1 in
  let s3 := take_prefix s2 in
  if starts_with_underscore s3 then Raise ValueError
  else
    match scan_digits s3 false 0 0 with
    | None => Raise ValueError
    | Some (v, rest) =>
        match skip_spaces rest with
        | EmptyString => Ok (if neg then (- v)%Z else v)
        | String _ _ => Raise ValueError
        end
    end.

End Str.

(** ** The hex parser *)

Definition color : Type := (Z * Z * Z)%type.

(** [hex_to_rgb]: strip the leading ['#'] characters, then parse the slices
    [0:2], [2:4] and [4:6] in base 16, in this order. *)
Definition hex_to_rgb (hex_color : string) : result color :=
  let hex_color := Str.lstrip_hash hex_color in
  r <- Str.int16 (Str.slice hex_color 0 2) ;;
  g <- Str.int16 (Str.slice hex_color 2 4) ;;
  b <- Str.int16 (Str.slice hex_color 4 6) ;;
  Ok (r, g, b).

(** ** The hex parser on strings of any code points

    A Python [str] holds Unicode code points of any size, and [int(s, 16)]
    reads more than ASCII: before parsing it rewrites a Unicode decimal
    digit to its ASCII digit and Unicode white space to a blank
    ([_PyUnicode_TransformDecimalAndSpaceToASCII]).  [Uni] is the hex parser
    on such strings.  The interpreter's Unicode database is not part of the
    repository: [Py_UNICODE_ISSPACE] and [Py_UNICODE_TODECIMAL] are
    [Variable]s, and what is proved holds for every database. *)

Module Uni.

(** A string as a list of code points. *)
Definition ustring : Type := list N.

Definition of_string (s : string) : ustring :=
  map Str.code (list_ascii_of_string s).

(** [s.lstrip('#')]. *)
Fixpoint lstrip_hash (s : ustring) : ustring :=
  match s with
  | ch :: s' => if (ch =? 35)%N then lstrip_hash s' else s
  | [] => s
  end.

(** [s[i:j]] for [0 <= i <= j]. *)
Definition slice (s : ustring) (i j : nat) : ustring :=
  firstn (j - i) (skipn i s).

(** [PyUnicode_IS_ASCII]. *)
Definition is_ascii (s : ustring) : bool :=
  forallb (fun ch => (ch <? 128)%N) s.

(** The bytes of a string of code points below 256. *)
Fixpoint buffer_of (s : ustring) : string :=
  match s with
  | [] => EmptyString
  | ch :: s' => String (ascii_of_N ch) (buffer_of s')
  end.

Section Database.

(** [Py_UNICODE_ISSPACE(ch)], and [Py_UNICODE_TODECIMAL(ch)]: the value of a
    decimal digit, from 0 to 9, or nothing. *)
Variable is_space : N -> bool.
Variable to_decimal : N -> option N.

(** The loop of [_PyUnicode_TransformDecimalAndSpaceToASCII]: it stops with
    a ['?'] at the first code point from 127 on that is neither white space
    nor a decimal digit. *)
Fixpoint rewrite_to_ascii (s : ustring) : string :=
  match s with
  | [] => EmptyString
  | ch :: s' =>
      if (ch <? 127)%N then String (ascii_of_N ch) (rewrite_to_ascii s')
      else if is_space ch then String " " (rewrite_to_ascii s')
      else
        match to_decimal ch with
        | None => String "?" EmptyString
        | Some d => String (ascii_of_N (48 + d)) (rewrite_to_ascii s')
        end
  end.

(** An ASCII string is returned as it is. *)
Definition transform (s : ustring) : string :=
  if is_ascii s then buffer_of s else rewrite_to_ascii s.

(** [int(s, 16)] ([PyLong_FromUnicodeObject]). *)
Definition int16 (s : ustring) : result Z :=
  Str.long_from_string (transform s).

(** [hex_to_rgb]. *)
Definition hex_to_rgb (hex_color : ustring) : result color :=
  let hex_color := lstrip_hash hex_color in
  r <- int16 (slice hex_color 0 2) ;;
  g <- int16 (slice hex_color 2 4) ;;
  b <- int16 (slice hex_color 4 6) ;;
  Ok (r, g, b).

End Database.

End Uni.

(** ** Python's float operations *)

Module Py.

Local Open Scope float_scope.

(** Conversion of an [int] operand to [float] in mixed arithmetic
    ([PyLong_AsDouble]): the nearest float, ties to even; [OverflowError]
    when the rounded value is out of range. *)
Definition nearest_float (z : Z) : float :=
  SF2Prim (binary_normalize prec emax z 0 false).

Definition float_of_int (z : Z) : result float :=
  let f := nearest_float z in
  if is_infinity f then Raise OverflowError else Ok f.

(** [int(x)]: truncation toward zero; [ValueError] on a NaN and
    [OverflowError] on an infinity. *)
Definition int_of_float (x : float) : result Z :=
  match Prim2SF x with
  | S754_nan => Raise ValueError
  | S754_infinity _ => Raise OverflowError
  | S754_zero _ => Ok 0%Z
  | S754_finite s m e => Ok (cond_Zopp s (Z.shiftl (Zpos m) e))
  end.

(** [x / y] on floats: [ZeroDivisionError] when [y == 0]. *)
Definition truediv (x y : float) : result float :=
  if y =? 0 then Raise ZeroDivisionError else Ok (x / y).

(** [max(a, b)] and [min(a, b)]: the first argument is kept unless the
    second is strictly greater (smaller). *)
Definition max (a b : float) : float := if a <? b then b else a.
Definition min (a b : float) : float := if b <? a then b else a.

(** Whether a float is an integer, and an odd one. *)
Definition is_integer (x : float) : bool :=
  match Prim2SF x with
  | S754_zero _ => true
  | S754_finite _ m e =>
      (0 <=? e)%Z || (Z.land (Zpos m) (Z.ones (- e)) =? 0)%Z
  | _ => false
  end.

Definition is_odd_integer (x : float) : bool :=
  match Prim2SF x with
  | S754_finite _ m e =>
      ((e =? 0)%Z && Z.odd (Zpos m))
      || ((e <? 0)%Z && (Z.land (Zpos m) (Z.ones (- e)) =? 0)%Z
          && Z.odd (Z.shiftr (Zpos m) (- e)))
  | _ => false
  end.

Section Pow.

(** The C library's [pow], called on a finite positive base other than 1
    and a finite non-zero exponent. *)
Variable libm_pow : float -> float -> float.

(** [x ** y] on floats ([float_pow]): the special cases CPython settles
    itself, then the call of [pow], whose overflow is an [OverflowError].
    A negative base with a fractional exponent gives a complex number in
    Python; no complex numbers are modelled and this case is a [TypeError]
    here (the luminance code only raises positive bases). *)
Definition float_pow (x y : float) : result float :=
  if y =? 0 then Ok 1
  else if is_nan x then Ok x
  else if is_nan y then Ok (if x =? 1 then 1 else y)
  else if is_infinity y then
    let ax := abs x in
    if ax =? 1 then Ok 1
    else if Bool.eqb (0 <? y) (1 <? ax) then Ok (abs y)
    else Ok 0
  else if is_infinity x then
    let odd := is_odd_integer y in
    if 0 <? y then Ok (if odd then x else abs x)
    else Ok (if odd then (if x <? 0 then neg_zero else 0) else 0)
  else if x =? 0 then
    if y <? 0 then Raise ZeroDivisionError
    else Ok (if is_odd_integer y then x else 0)
  else if (x <? 0) && negb (is_integer y) then Raise TypeError
  else
    let neg := (x <? 0) && is_odd_integer y in
    let ax := if x <? 0 then - x else x in
    if ax =? 1 then Ok (if neg then -1 else 1)
    else
      let ix := libm_pow ax y in
      if is_infinity ix then Raise OverflowError
      else Ok (if neg then - ix else ix).

End Pow.

End Py.

(** ** Relative luminance, contrast ratio and alpha blending *)

Section ColorMath.

Local Open Scope float_scope.

Variable libm_pow : float -> float -> float.

(** The inner function [adjust] of [rgb_to_luminance]. *)
Definition adjust (channel : Z) : result float :=
  c <- Py.float_of_int channel ;;
  let channel := c / 255.0 in
  if channel <=? 0.03928 then
    Ok (channel / 12.92)
  else
    Py.float_pow libm_pow ((channel + 0.055) / 1.055) 2.4.

Definition rgb_to_luminance (r g b : Z) : result float :=
  r_adj <- adjust r ;;
  g_adj <- adjust g ;;
  b_adj <- adjust b ;;
  Ok (0.2126 * r_adj + 0.7152 * g_adj + 0.0722 * b_adj).

(** An argument of [contrast_ratio]: a hex string or a triple. *)
Inductive color_arg : Type :=
| HexStr (s : string)
| Triple (c : color).

(** [if isinstance(color, str): color = hex_to_rgb(color)]. *)
Definition resolve (a : color_arg) : result color :=
  match a with
  | HexStr s => hex_to_rgb s
  | Triple c => Ok c
  end.

Definition contrast_ratio (color1 color2 : color_arg) : result float :=
  color1 <- resolve color1 ;;
  color2 <- resolve color2 ;;
  lum1 <- (let '(r, g, b) := color1 in rgb_to_luminance r g b) ;;
  lum2 <- (let '(r, g, b) := color2 in rgb_to_luminance r g b) ;;
  let lighter := Py.max lum1 lum2 in
  let darker := Py.min lum1 lum2 in
  Py.truediv (lighter + 0.05) (darker + 0.05).

End ColorMath.

Local Open Scope float_scope.

(** One channel of [blend_rgba_on_rgb]. *)
Definition blend_channel (fg bg : Z) (alpha : float) : result Z :=
  f <- Py.float_of_int fg ;;
  b <- Py.float_of_int bg ;;
  Py.int_of_float (f * alpha + b * (1 - alpha)).

Definition blend_rgba_on_rgb (fg_rgb bg_rgb : color) (alpha : float)
  : result color :=
  let '(fr, fg, fb) := fg_rgb in
  let '(br, bg, bb) := bg_rgb in
  r <- blend_channel fr br alpha ;;
  g <- blend_channel fg bg alpha ;;
  b <- blend_channel fb bb alpha ;;
  Ok (r, g, b).

Local Close Scope float_scope.

(** ** The report

    The rest of the script prints four tables.  Each loop body is modelled
    by the values it computes and then prints; the text that [print] writes
    is not modelled.  An exception in a body ends the loop and the script. *)

Module Report.

Local Open Scope string_scope.
Local Open Scope float_scope.

(** [white], [white_rgb], and the list that the four loops go through, with
    the look-ups in [colors] done. *)
Definition white : string := "#ffffff".

Definition white_rgb : color := (255, 255, 255)%Z.

Definition status_backgrounds : list (string * string) :=
  [ ("Normal (Green)", "#27ae60");
    ("Degraded (Orange)", "#e67e22");
    ("Fucked (Red)", "#c0392b");
    ("Unknown (Gray)", "#7f8c8d") ].

(** The two texts of a check: ["PASS" if ratio >= threshold else "FAIL"]. *)
Inductive verdict : Type :=
| PASS
| FAIL.

Definition verdict_at (threshold ratio : float) : verdict :=
  if threshold <=? ratio then PASS else FAIL.

(** The three texts of a card row:
    ["PASS (4.5:1)" if ratio >= 4.5 else "FAIL (4.5:1)" if ratio < 4.5
     else "PASS (3:1)"]. *)
Inductive card_verdict : Type :=
| PASS_4_5
| FAIL_4_5
| PASS_3.

Definition card_verdict_of (ratio : float) : card_verdict :=
  if 4.5 <=? ratio then PASS_4_5
  else if ratio <? 4.5 then FAIL_4_5
  else PASS_3.

Record text_row : Type := {
  text_ratio : float;
  aa_large : verdict;
  aa_normal : verdict
}.

Record card_row : Type := {
  card_bg : color;
  white_ratio : float;
  white_verdict : card_verdict;
  muted_ratio : float;
  muted_verdict : card_verdict
}.

Record focus_row : Type := {
  focus_ratio : float;
  aa_ui : verdict
}.

(** A [for] loop whose body may raise. *)
Fixpoint for_each {A B : Type} (body : A -> result B) (l : list A)
  : result (list B) :=
  match l with
  | [] => Ok []
  | a :: l' =>
      b <- body a ;;
      bs <- for_each body l' ;;
      Ok (b :: bs)
  end.

Section Rows.

Variable libm_pow : float -> float -> float.

(** White text on a status background. *)
Definition white_text_row (bg_color : string) : result text_row :=
  ratio <- contrast_ratio libm_pow (HexStr white) (HexStr bg_color) ;;
  Ok {| text_ratio := ratio;
        aa_large := verdict_at 3.0 ratio;
        aa_normal := verdict_at 4.5 ratio |}.

(** Muted text: white at 75% over the background. *)
Definition muted_text_row (bg_hex : string) : result text_row :=
  bg_rgb <- hex_to_rgb bg_hex ;;
  effective_text <- blend_rgba_on_rgb white_rgb bg_rgb 0.75 ;;
  ratio <- contrast_ratio libm_pow (Triple effective_text) (Triple bg_rgb) ;;
  Ok {| text_ratio := ratio;
        aa_large := verdict_at 3.0 ratio;
        aa_normal := verdict_at 4.5 ratio |}.

(** White and muted text on a card: white at 15% over the background. *)
Definition card_row_of (bg_hex : string) : result card_row :=
  bg_rgb <- hex_to_rgb bg_hex ;;
  card_bg <- blend_rgba_on_rgb white_rgb bg_rgb 0.15 ;;
  white_ratio <- contrast_ratio libm_pow (Triple white_rgb) (Triple card_bg) ;;
  effective_muted <- blend_rgba_on_rgb white_rgb card_bg 0.75 ;;
  muted_ratio <-
    contrast_ratio libm_pow (Triple effective_muted) (Triple card_bg) ;;
  Ok {| card_bg := card_bg;
        white_ratio := white_ratio;
        white_verdict := card_verdict_of white_ratio;
        muted_ratio := muted_ratio;
        muted_verdict := card_verdict_of muted_ratio |}.

(** The focus outline: white at 60% over the background. *)
Definition focus_row_of (bg_hex : string) : result focus_row :=
  bg_rgb <- hex_to_rgb bg_hex ;;
  outline_color <- blend_rgba_on_rgb white_rgb bg_rgb 0.6 ;;
  ratio <- contrast_ratio libm_pow (Triple outline_color) (Triple bg_rgb) ;;
  Ok {| focus_ratio := ratio; aa_ui := verdict_at 3.0 ratio |}.

(** The four tables over a list of labelled backgrounds, in the order of
    the script. *)
Definition report_on (table : list (string * string))
  : result (list text_row * list text_row * list card_row * list focus_row) :=
  white_rows <- for_each (fun entry => white_text_row (snd entry)) table ;;
  muted_rows <- for_each (fun entry => muted_text_row (snd entry)) table ;;
  card_rows <- for_each (fun entry => card_row_of (snd entry)) table ;;
  focus_rows <- for_each (fun entry => focus_row_of (snd entry)) table ;;
  Ok (white_rows, muted_rows, card_rows, focus_rows).

Definition report
  : result (list text_row * list text_row * list card_row * list focus_row) :=
  report_on status_backgrounds.

End Rows.

End Report.

(** ** What the specification says of a hex string *)

Module HexSpec.

Local Open Scope string_scope.
Local Open Scope char_scope.

(** The specification's "stripping an optional leading [#]": one at most. *)
Definition strip_optional_hash (s : string) : string :=
  match s with
  | String c s' => if Ascii.eqb c "#" then s' else s
  | EmptyString => s
  end.

Fixpoint all_hex (s : string) : bool :=
  match s with
  | EmptyString => true
  | String c s' => Str.is_hex_digit c && all_hex s'
  end.

(** "Exactly 6 hexadecimal digits". *)
Definition is_hex6 (s : string) : bool :=
  (String.length s =? 6)%nat && all_hex s.

(** The base-16 value of a string of hex digits. *)
Fixpoint hex_value_from (acc : Z) (s : string) : Z :=
  match s with
  | EmptyString => acc
  | String c s' =>
      hex_value_from
        (16 * acc + match Str.digit_value c with Some d => d | None => 0 end)
        s'
  end.

Definition hex_value (s : string) : Z := hex_value_from 0 s.

Definition is_sign (c : ascii) : bool := Ascii.eqb c "+" || Ascii.eqb c "-".

(** The ASCII buffers of at most two characters that [int(., 16)] accepts:
    one hex digit; two hex digits; a hex digit before ASCII white space; a
    hex digit after a sign or after ASCII white space. *)
Definition group_accepted (g : string) : bool :=
  match g with
  | String a EmptyString => Str.is_hex_digit a
  | String a (String b EmptyString) =>
      (Str.is_hex_digit a && (Str.is_hex_digit b || Str.is_ascii_space b))
      || ((Str.is_ascii_space a || is_sign a) && Str.is_hex_digit b)
  | _ => false
  end.

Definition digit_of (c : ascii) : Z :=
  match Str.digit_value c with Some d => d | None => 0%Z end.

(** The number that an accepted buffer stands for. *)
Definition group_value (g : string) : Z :=
  match g with
  | String a EmptyString => digit_of a
  | String a (String b EmptyString) =>
      if Str.is_hex_digit a then
        if Str.is_hex_digit b then (16 * digit_of a + digit_of b)%Z
        else digit_of a
      else if Ascii.eqb a "-" then (- digit_of b)%Z
      else digit_of b
  | _ => 0%Z
  end.

End HexSpec.

(** ** Notions used to state further properties of the hex parser *)

Module HexCase.

Local Open Scope string_scope.
Local Open Scope char_scope.

(** The lower-case form of the letters [A] to [F]; every other character
    is left alone. *)
Definition lower_hex (c : ascii) : ascii :=
  let n := Str.code c in
  if ((65 <=? n) && (n <=? 70))%N then ascii_of_N (n + 32) else c.

Fixpoint lower_hex_string (s : string) : string :=
  match s with
  | EmptyString => EmptyString
  | String c s' => String (lower_hex c) (lower_hex_string s')
  end.

(** Whether the character [c] occurs in [s]. *)
Fixpoint mentions (c : ascii) (s : string) : bool :=
  match s with
  | EmptyString => false
  | String d s' => Ascii.eqb d c || mentions c s'
  end.

End HexCase.

(** ** What the specification says of colours and numbers *)

(** A Color of the specification: each channel an integer in [0, 255]. *)
Definition is_channel (z : Z) : Prop := (0 <= z <= 255)%Z.

Definition is_color (c : color) : Prop :=
  let '(r, g, b) := c in is_channel r /\ is_channel g /\ is_channel b.

(** One triple is at most another, channel by channel. *)
Definition channels_le (a b : color) : Prop :=
  let '(r, g, b0) := a in
  let '(r', g', b') := b in
  (r <= r')%Z /\ (g <= g')%Z /\ (b0 <= b')%Z.

(** A contrast ratio within the range of the specification. *)
Definition in_range (ratio : float) : Prop :=
  ((1 <=? ratio) = true /\ (ratio <=? 21) = true)%float.

(** An entry of the report's table whose background is 6 hex digits after
    an optional ['#']. *)
Definition well_formed (entry : string * string) : Prop :=
  HexSpec.is_hex6 (HexSpec.strip_optional_hash (snd entry)) = true.

(** The exact value of a finite float, as a rational. *)
Definition F2Q (x : float) : Q :=
  match Prim2SF x with
  | S754_finite s m e =>
      if (0 <=? e)%Z then inject_Z (cond_Zopp s (Z.pos m) * 2 ^ e)
      else cond_Zopp s (Z.pos m) # Pos.pow 2 (Z.to_pos (- e))
  | _ => 0%Q
  end.

(** Rounding toward zero. *)
Definition Qtruncate (q : Q) : Z :=
  if Qle_bool 0 q then Qfloor q else Qceiling q.

(** The channel that the specification describes for the blend: the
    truncation of the floating computation [fg * alpha + bg * (1 - alpha)]. *)
Definition blend_exact (f b : Z) (alpha : float) : Z :=
  Qtruncate
    (F2Q (Py.nearest_float f * alpha
          + Py.nearest_float b * (1 - alpha))%float).

(** ** What the theorems ask of the C library's [pow] *)

Section PowAssumptions.

Local Open Scope float_scope.

Variable pow : float -> float -> float.

(** The base that [adjust] raises to the power 2.4 for a channel. *)
Definition pow_base (channel : Z) : float :=
  (Py.nearest_float channel / 255.0 + 0.055) / 1.055.

(** On the bases of the channels 11 to 254 (the calls that [adjust] makes
    for a Color: up to 10 the linear branch is taken, and [1 ** 2.4], for
    255, is settled before the call), [pow] returns a value between 0 and
    1. *)
Definition pow_in_unit_range : Prop :=
  forall c : Z, (11 <= c <= 254)%Z ->
    (0 <=? pow (pow_base c) 2.4) = true
    /\ (pow (pow_base c) 2.4 <=? 1) = true.

(** [lo <= pow(base of channel c, 2.4) <= hi]. *)
Definition pow_bracket (c : Z) (lo hi : float) : Prop :=
  (lo <=? pow (pow_base c) 2.4) = true
  /\ (pow (pow_base c) 2.4 <=? hi) = true.

(** [pow] is accurate to nine digits on the three channels of [#27ae60]. *)
Definition pow_accurate_on_green : Prop :=
  pow_bracket 39 0.02028856304 0.02028856307
  /\ pow_bracket 174 0.4232676699 0.4232676701
  /\ pow_bracket 96 0.1169706677 0.1169706678.

End PowAssumptions.

(** ** A further assumption on the C library's [pow] *)

Section PowMonotone.

Local Open Scope float_scope.

Variable pow : float -> float -> float.

(** On the bases of the channels 11 to 254, [pow] does not decrease from one
    channel to the next, and at channel 11 it is not below the linear
    branch at channel 10. *)
Definition pow_monotone_on_channels : Prop :=
  (Py.nearest_float 10 / 255.0 / 12.92 <=? pow (pow_base 11) 2.4) = true
  /\ forall c : Z, (11 <= c <= 253)%Z ->
       (pow (pow_base c) 2.4 <=? pow (pow_base (c + 1)) 2.4) = true.

End PowMonotone.

(** Each bracket contains the real number [x ^ (12 / 5)] for its base [x]:
    [lo ^ 5 <= x ^ 12 <= hi ^ 5] in exact arithmetic. *)
Definition bracket_encloses (c : Z) (lo hi : float) : bool :=
  Qle_bool (F2Q lo ^ 5) (F2Q (pow_base c) ^ 12)
  && Qle_bool (F2Q (pow_base c) ^ 12) (F2Q hi ^ 5).

(** A stand-in for the C library's [pow], to run the code on. *)
Module RefPow.

Local Open Scope float_scope.

(** Newton's iteration for the fifth root of [x], from above. *)
Fixpoint fifth_root_from (n : nat) (x r : float) : float :=
  match n with
  | O => r
  | S n' =>
      let r2 := r * r in
      fifth_root_from n' x ((4 * r + x / (r2 * r2)) / 5)
  end.

Definition fifth_root (x : float) : float := fifth_root_from 60 x 1.

(** [x ** 2.4] as the twelfth power of the fifth root.  The exponent is
    not looked at: this stand-in for the C library's [pow] is meant for the
    one exponent of the luminance code. *)
Definition pow (x y : float) : float :=
  let r := fifth_root x in
  let r2 := r * r in
  let r4 := r2 * r2 in
  r4 * r4 * r4.

End RefPow.

(** ** Finite ranges of integers *)

Definition zrange (n : nat) : list Z := map Z.of_nat (seq 0 n).

Definition channels : list Z := zrange 256.

(** * Properties of the hex parser *)

Module StrFacts.

Import Str HexSpec.
Local Open Scope string_scope.

(** Every character is one of the 256 code points. *)
Definition all_ascii : list ascii := map ascii_of_nat (seq 0 256).

Lemma in_all_ascii (a : ascii) : In a all_ascii.
Proof.
  unfold all_ascii. rewrite <- (ascii_nat_embedding a).
  apply in_map, in_seq. pose proof (nat_ascii_bounded a). lia.
Qed.

Lemma forall_ascii (P : ascii -> bool) :
  forallb P all_ascii = true -> forall a, P a = true.
Proof. intros H a. rewrite forallb_forall in H. apply H, in_all_ascii. Qed.

Lemma forall_ascii2 (P : ascii -> ascii -> bool) :
  forallb (fun a => forallb (P a) all_ascii) all_ascii = true ->
  forall a b, P a b = true.
Proof.
  intros H a b. apply (forall_ascii (P a)). revert a.
  apply forall_ascii. exact H.
Qed.

Definition str1 (a : ascii) : string := String a EmptyString.
Definition str2 (a b : ascii) : string := String a (String b EmptyString).

(** The parser only ever raises [ValueError]. *)
Lemma int16_raises_ValueError (s : string) (e : exn) :
  int16 s = Raise e -> e = ValueError.
Proof.
  unfold int16. destruct (take_sign _) as [neg s2].
  destruct (starts_with_underscore _); [congruence |].
  destruct (scan_digits _ _ _ _) as [[v rest] |]; [| congruence].
  destruct (skip_spaces rest); congruence.
Qed.

Definition hex2_checked (a b : ascii) : bool :=
  if is_hex_digit a && is_hex_digit b then
    match int16 (str2 a b) with
    | Ok v => (v =? hex_value (str2 a b))%Z
    | Raise _ => false
    end
  else true.

(** Two hex digits parse to their base-16 value. *)
Lemma int16_hex2 (a b : ascii) :
  is_hex_digit a = true -> is_hex_digit b = true ->
  int16 (str2 a b) = Ok (hex_value (str2 a b)).
Proof.
  intros Ha Hb.
  assert (H : hex2_checked a b = true).
  { revert a b Ha Hb. intros a b _ _. revert a b.
    apply forall_ascii2. vm_compute. reflexivity. }
  unfold hex2_checked in H. rewrite Ha, Hb in H. simpl in H.
  destruct (int16 (str2 a b)) as [v |]; [| discriminate].
  apply Z.eqb_eq in H. now subst.
Qed.

Lemma substring_length_le (s : string) (n m : nat) :
  (String.length (substring n m s) <= m)%nat.
Proof.
  revert n m. induction s as [| c s IH]; intros [| n] [| m]; simpl; try lia.
  - specialize (IH 0%nat m). lia.
  - apply IH.
  - apply IH.
Qed.

Lemma slice_length_le (s : string) (i : nat) :
  (String.length (slice s i (i + 2)) <= 2)%nat.
Proof.
  unfold slice. replace (i + 2 - i)%nat with 2%nat by lia.
  apply substring_length_le.
Qed.

Lemma lstrip_hash_repeat (n : nat) (s : string) :
  lstrip_hash (repeat_char "#" n ++ s) = lstrip_hash s.
Proof. induction n as [| n IH]; simpl; [reflexivity | exact IH]. Qed.

Lemma hash_not_hex : is_hex_digit "#" = false.
Proof. reflexivity. Qed.

Lemma eqb_hash_hex (c : ascii) :
  is_hex_digit c = true -> Ascii.eqb c "#" = false.
Proof.
  intros H. destruct (Ascii.eqb_spec c "#") as [-> |]; [| reflexivity].
  discriminate.
Qed.

(** A string of 6 hex digits, spelled out. *)
Lemma is_hex6_inv (s : string) :
  is_hex6 s = true ->
  exists a b c d e f,
    s = String a (String b (String c (String d (String e (str1 f)))))
    /\ is_hex_digit a = true /\ is_hex_digit b = true
    /\ is_hex_digit c = true /\ is_hex_digit d = true
    /\ is_hex_digit e = true /\ is_hex_digit f = true.
Proof.
  unfold is_hex6. intros H. apply andb_true_iff in H as [Hl Hh].
  apply Nat.eqb_eq in Hl.
  destruct s as [| a [| b [| c [| d [| e [| f [| x s]]]]]]]; try discriminate.
  simpl in Hh. repeat (apply andb_true_iff in Hh as [? Hh]).
  exists a, b, c, d, e, f. repeat split; assumption.
Qed.

Lemma lstrip_hash_hex6 (s : string) : is_hex6 s = true -> lstrip_hash s = s.
Proof.
  intros H. destruct (is_hex6_inv s H) as (a & b & c & d & e & f & -> & Ha & _).
  simpl. now rewrite (eqb_hash_hex a Ha).
Qed.

(** With at most one ['#'] before 6 hex digits, stripping one ['#'] and
    stripping all of them agree. *)
Lemma lstrip_hash_optional (s : string) :
  is_hex6 (strip_optional_hash s) = true ->
  lstrip_hash s = strip_optional_hash s.
Proof.
  destruct s as [| c s]; [discriminate |].
  simpl. destruct (Ascii.eqb c "#") eqn:Hc; intros H.
  - apply lstrip_hash_hex6, H.
  - reflexivity.
Qed.

Lemma hex_to_rgb_hex6 (s : string) :
  is_hex6 (lstrip_hash s) = true ->
  hex_to_rgb s =
    Ok (hex_value (slice (lstrip_hash s) 0 2),
        hex_value (slice (lstrip_hash s) 2 4),
        hex_value (slice (lstrip_hash s) 4 6)).
Proof.
  intros H. unfold hex_to_rgb.
  destruct (is_hex6_inv _ H)
    as (a & b & c & d & e & f & -> & Ha & Hb & Hc & Hd & He & Hf).
  change (slice _ 0 2) with (str2 a b).
  change (slice _ 2 4) with (str2 c d).
  change (slice _ 4 6) with (str2 e f).
  rewrite (int16_hex2 a b Ha Hb), (int16_hex2 c d Hc Hd),
    (int16_hex2 e f He Hf).
  reflexivity.
Qed.

Lemma hex_to_rgb_raises_ValueError (s : string) (e : exn) :
  hex_to_rgb s = Raise e -> e = ValueError.
Proof.
  unfold hex_to_rgb.
  destruct (int16 (slice _ 0 2)) eqn:E1; simpl;
    [| intros [= <-]; eapply int16_raises_ValueError, E1].
  destruct (int16 (slice _ 2 4)) eqn:E2; simpl;
    [| intros [= <-]; eapply int16_raises_ValueError, E2].
  destruct (int16 (slice _ 4 6)) eqn:E3; simpl;
    [| intros [= <-]; eapply int16_raises_ValueError, E3].
  discriminate.
Qed.

End StrFacts.

(** ** The parser on strings of any code points *)

Module UniFacts.

Import Str HexSpec StrFacts.
Local Open Scope string_scope.

(** *** The parser proper, on at most two characters *)

Definition expected (g : string) : result Z :=
  if group_accepted g then Ok (group_value g) else Raise ValueError.

Definition buffer_checked (g : string) : bool :=
  match long_from_string g with
  | Ok v => group_accepted g && (v =? group_value g)%Z
  | Raise ValueError => negb (group_accepted g)
  | Raise _ => false
  end.

Lemma buffer_checked_expected (g : string) :
  buffer_checked g = true -> long_from_string g = expected g.
Proof.
  unfold buffer_checked, expected.
  destruct (long_from_string g) as [v | []]; try discriminate.
  - intros H. apply andb_true_iff in H as [-> H].
    apply Z.eqb_eq in H. now subst.
  - intros H. apply negb_true_iff in H. now rewrite H.
Qed.

Lemma buffer_checked1 (a : ascii) : buffer_checked (str1 a) = true.
Proof. revert a. apply forall_ascii. vm_compute. reflexivity. Qed.

Lemma buffer_checked2 (a b : ascii) : buffer_checked (str2 a b) = true.
Proof. revert a b. apply forall_ascii2. vm_compute. reflexivity. Qed.

(** On at most two characters [PyLong_FromString] accepts exactly the
    buffers of [group_accepted], with the value [group_value]. *)
Lemma long_from_string_group (g : string) :
  (String.length g <= 2)%nat -> long_from_string g = expected g.
Proof.
  destruct g as [| a [| b [| c g]]]; simpl String.length; intros H.
  - reflexivity.
  - apply buffer_checked_expected, buffer_checked1.
  - apply buffer_checked_expected, buffer_checked2.
  - lia.
Qed.

(** [int] of the Latin-1 model is the same parser after its own
    rewriting. *)
Lemma int16_long_from_string (s : string) :
  int16 s = long_from_string (transform s).
Proof. reflexivity. Qed.

(** *** Slices and the rewriting to ASCII *)

Lemma slice_length (t : Uni.ustring) (i : nat) :
  (List.length (Uni.slice t i (i + 2)) <= 2)%nat.
Proof.
  unfold Uni.slice. replace (i + 2 - i)%nat with 2%nat by lia.
  rewrite length_firstn. lia.
Qed.

Lemma slice_append (t u : Uni.ustring) (i j : nat) :
  (j <= List.length t)%nat -> Uni.slice (t ++ u)%list i j = Uni.slice t i j.
Proof.
  intros H. unfold Uni.slice.
  destruct (Nat.le_gt_cases i j) as [Hij | Hij].
  - rewrite skipn_app, firstn_app, length_skipn.
    replace (j - i - (List.length t - i))%nat with 0%nat by lia.
    rewrite firstn_O, app_nil_r. reflexivity.
  - replace (j - i)%nat with 0%nat by lia. reflexivity.
Qed.

Lemma slice_too_short (t : Uni.ustring) :
  (List.length t < 5)%nat -> Uni.slice t 4 6 = [].
Proof.
  destruct t as [| a [| b [| c [| d [| e t]]]]]; simpl; intros H;
    try reflexivity; lia.
Qed.

Lemma lstrip_hash_append (s u : Uni.ustring) :
  Uni.lstrip_hash s <> [] ->
  Uni.lstrip_hash (s ++ u)%list = (Uni.lstrip_hash s ++ u)%list.
Proof.
  induction s as [| ch s IH]; simpl; [congruence |].
  destruct (ch =? 35)%N; [exact IH | reflexivity].
Qed.

Section Database.

Variable is_space : N -> bool.
Variable to_decimal : N -> option N.

Lemma buffer_of_length (s : Uni.ustring) :
  String.length (Uni.buffer_of s) = List.length s.
Proof. induction s as [| ch s IH]; simpl; [reflexivity | now rewrite IH]. Qed.

Lemma rewrite_to_ascii_length (s : Uni.ustring) :
  (String.length (Uni.rewrite_to_ascii is_space to_decimal s)
   <= List.length s)%nat.
Proof.
  induction s as [| ch s IH]; simpl; [lia |].
  destruct (ch <? 127)%N; [simpl; lia |].
  destruct (is_space ch); [simpl; lia |].
  destruct (to_decimal ch); simpl; lia.
Qed.

Lemma transform_length (s : Uni.ustring) :
  (String.length (Uni.transform is_space to_decimal s) <= List.length s)%nat.
Proof.
  unfold Uni.transform. destruct (Uni.is_ascii s).
  - rewrite buffer_of_length. lia.
  - apply rewrite_to_ascii_length.
Qed.

(** [int(., 16)] on a slice of two code points. *)
Lemma int16_slice (t : Uni.ustring) (i : nat) :
  Uni.int16 is_space to_decimal (Uni.slice t i (i + 2))
  = expected (Uni.transform is_space to_decimal (Uni.slice t i (i + 2))).
Proof.
  unfold Uni.int16. apply long_from_string_group.
  eapply Nat.le_trans; [apply transform_length | apply slice_length].
Qed.

(** *** ASCII strings: the two models of the parser agree *)

(** Code points below 127, which neither rewriting changes. *)
Fixpoint plain (s : string) : bool :=
  match s with
  | EmptyString => true
  | String c s' => (code c <? 127)%N && plain s'
  end.

Lemma of_string_cons (c : ascii) (s : string) :
  Uni.of_string (String c s) = code c :: Uni.of_string s.
Proof. reflexivity. Qed.

Lemma code_hash (c : ascii) : (code c =? 35)%N = Ascii.eqb c "#".
Proof.
  destruct (Ascii.eqb_spec c "#") as [-> | Hc]; [reflexivity |].
  apply N.eqb_neq. intros H. apply Hc.
  rewrite <- (ascii_N_embedding c). unfold code in H. now rewrite H.
Qed.

Lemma lstrip_hash_of_string (s : string) :
  Uni.lstrip_hash (Uni.of_string s) = Uni.of_string (lstrip_hash s).
Proof.
  induction s as [| c s IH]; [reflexivity |].
  rewrite of_string_cons. cbn [Uni.lstrip_hash lstrip_hash].
  rewrite code_hash. destruct (Ascii.eqb c "#"); [exact IH | reflexivity].
Qed.

Lemma firstn_of_string (s : string) (n : nat) :
  firstn n (Uni.of_string s) = Uni.of_string (substring 0 n s).
Proof.
  revert n. induction s as [| c s IH]; intros [| n]; try reflexivity.
  rewrite of_string_cons. cbn [firstn substring].
  rewrite of_string_cons. f_equal. apply IH.
Qed.

Lemma slice_of_string (s : string) (i j : nat) :
  Uni.slice (Uni.of_string s) i j = Uni.of_string (slice s i j).
Proof.
  unfold Uni.slice, slice. generalize (j - i)%nat. intros n.
  revert i. induction s as [| c s IH]; intros [| i].
  - destruct n; reflexivity.
  - destruct n; reflexivity.
  - cbn [skipn]. apply firstn_of_string.
  - rewrite of_string_cons. cbn [skipn].
    rewrite IH. destruct n; reflexivity.
Qed.

Lemma plain_substring (s : string) (i n : nat) :
  plain s = true -> plain (substring i n s) = true.
Proof.
  revert i n. induction s as [| c s IH]; intros [| i] [| n]; simpl;
    intros H; try reflexivity.
  - apply andb_true_iff in H as [-> H]. now apply IH.
  - apply andb_true_iff in H as [_ H]. now apply (IH i 0%nat).
  - apply andb_true_iff in H as [_ H]. now apply IH.
Qed.

Lemma plain_lstrip_hash (s : string) :
  plain s = true -> plain (lstrip_hash s) = true.
Proof.
  induction s as [| c s IH]; simpl; [reflexivity |]. intros H.
  destruct (Ascii.eqb c "#"); [| exact H].
  apply andb_true_iff in H as [_ H]. now apply IH.
Qed.

Lemma plain_is_ascii (s : string) :
  plain s = true -> Uni.is_ascii (Uni.of_string s) = true.
Proof.
  induction s as [| c s IH]; [reflexivity |]. simpl plain. intros H.
  apply andb_true_iff in H as [Hc H]. rewrite of_string_cons.
  cbn [Uni.is_ascii forallb]. fold (Uni.is_ascii (Uni.of_string s)).
  rewrite (IH H), andb_true_r. apply N.ltb_lt in Hc. apply N.ltb_lt. lia.
Qed.

Lemma buffer_of_string (s : string) : Uni.buffer_of (Uni.of_string s) = s.
Proof.
  induction s as [| c s IH]; [reflexivity |].
  rewrite of_string_cons. cbn [Uni.buffer_of]. rewrite IH.
  unfold code. now rewrite ascii_N_embedding.
Qed.

Lemma transform_plain (s : string) : plain s = true -> transform s = s.
Proof.
  induction s as [| c s IH]; [reflexivity |]. simpl. intros H.
  apply andb_true_iff in H as [Hc H]. rewrite (IH H).
  unfold to_ascii. cbv zeta. now rewrite Hc.
Qed.

Lemma int16_of_string (g : string) :
  plain g = true -> Uni.int16 is_space to_decimal (Uni.of_string g) = int16 g.
Proof.
  intros H. unfold Uni.int16, Uni.transform.
  rewrite (plain_is_ascii g H), buffer_of_string.
  rewrite int16_long_from_string, (transform_plain g H). reflexivity.
Qed.

(** On a string of code points below 127, the parser on code points is the
    parser on [string]. *)
Lemma hex_to_rgb_of_string (s : string) :
  plain s = true ->
  Uni.hex_to_rgb is_space to_decimal (Uni.of_string s) = hex_to_rgb s.
Proof.
  intros H. unfold Uni.hex_to_rgb, hex_to_rgb.
  rewrite lstrip_hash_of_string, !slice_of_string.
  pose proof (plain_lstrip_hash s H) as Ht.
  rewrite !int16_of_string by (apply plain_substring, Ht).
  reflexivity.
Qed.

Lemma hex_digit_plain (c : ascii) :
  is_hex_digit c = true -> (code c <? 127)%N = true.
Proof.
  revert c.
  assert (H : forall c, implb (is_hex_digit c) (code c <? 127)%N = true)
    by (apply forall_ascii; vm_compute; reflexivity).
  intros c Hc. specialize (H c). now rewrite Hc in H.
Qed.

Lemma hex6_plain (s : string) :
  is_hex6 (strip_optional_hash s) = true -> plain s = true.
Proof.
  intros H.
  assert (P : plain (strip_optional_hash s) = true).
  { destruct (is_hex6_inv _ H)
      as (a & b & c & d & e & f & -> & Ha & Hb & Hc & Hd & He & Hf).
    simpl. now rewrite !hex_digit_plain by assumption. }
  destruct s as [| c s]; [discriminate |]. simpl in P. simpl.
  destruct (Ascii.eqb_spec c "#") as [-> | _]; [exact P |].
  simpl in P. exact P.
Qed.

End Database.

End UniFacts.

Import HexSpec.

Section HexParser.

Variable is_space : N -> bool.
Variable to_decimal : N -> option N.

(** C1, as the code has it, on strings of any code points and for every
    Unicode database.  Let [t] be [s] without its leading ['#'] characters
    and [g1], [g2], [g3] the slices [t[0:2]], [t[2:4]], [t[4:6]] as [int]
    rewrites them to ASCII.  [hex_to_rgb s] is determined by the three
    groups: it returns their values when each is an accepted group and
    raises [ValueError] otherwise.  It raises whenever fewer than 5
    characters are left; what follows the sixth character does not change
    the result; and when [s], after stripping an optional leading ['#'], is
    exactly 6 hex digits, it returns the base-16 values of the three
    2-digit groups. *)
Theorem hex_to_rgb_error_cases (s : Uni.ustring) :
  let t := Uni.lstrip_hash s in
  let g1 := Uni.transform is_space to_decimal (Uni.slice t 0 2) in
  let g2 := Uni.transform is_space to_decimal (Uni.slice t 2 4) in
  let g3 := Uni.transform is_space to_decimal (Uni.slice t 4 6) in
  Uni.hex_to_rgb is_space to_decimal s
    = (if group_accepted g1 && group_accepted g2 && group_accepted g3
       then Ok (group_value g1, group_value g2, group_value g3)
       else Raise ValueError)
  /\ ((List.length t < 5)%nat ->
      Uni.hex_to_rgb is_space to_decimal s = Raise ValueError)
  /\ ((6 <= List.length t)%nat ->
      forall u : Uni.ustring,
        Uni.hex_to_rgb is_space to_decimal (s ++ u)%list
        = Uni.hex_to_rgb is_space to_decimal s)
  /\ (forall s0 : string,
        s = Uni.of_string s0 -> is_hex6 (strip_optional_hash s0) = true ->
        Uni.hex_to_rgb is_space to_decimal s
        = Ok (hex_value (Str.slice (Str.lstrip_hash s0) 0 2),
              hex_value (Str.slice (Str.lstrip_hash s0) 2 4),
              hex_value (Str.slice (Str.lstrip_hash s0) 4 6))).
Proof.
  intros t g1 g2 g3.
  assert (E : Uni.hex_to_rgb is_space to_decimal s
              = (if group_accepted g1 && group_accepted g2
                    && group_accepted g3
                 then Ok (group_value g1, group_value g2, group_value g3)
                 else Raise ValueError)).
  { pose proof (UniFacts.int16_slice is_space to_decimal t 0) as E1.
    pose proof (UniFacts.int16_slice is_space to_decimal t 2) as E2.
    pose proof (UniFacts.int16_slice is_space to_decimal t 4) as E3.
    cbn [Nat.add] in E1, E2, E3. fold g1 in E1. fold g2 in E2. fold g3 in E3.
    unfold Uni.hex_to_rgb. fold t. rewrite E1, E2, E3.
    unfold UniFacts.expected.
    destruct (group_accepted g1), (group_accepted g2), (group_accepted g3);
      reflexivity. }
  split; [exact E |]. split; [| split].
  - intros H. rewrite E. unfold g3.
    rewrite (UniFacts.slice_too_short t H). cbn.
    now rewrite andb_false_r.
  - intros H u. unfold Uni.hex_to_rgb.
    rewrite UniFacts.lstrip_hash_append
      by (fold t; destruct t; [simpl in H; lia | discriminate]).
    fold t. rewrite !UniFacts.slice_append by lia. reflexivity.
  - intros s0 -> H.
    rewrite (UniFacts.hex_to_rgb_of_string is_space to_decimal s0
               (UniFacts.hex6_plain s0 H)).
    apply StrFacts.hex_to_rgb_hex6.
    now rewrite (StrFacts.lstrip_hash_optional s0 H).
Qed.

End HexParser.

(** C1, as the specification states it, fails: seven hex digits are not
    "exactly 6 hex digits", and [hex_to_rgb] does not raise on them (it
    never looks past the sixth character). *)
Lemma hex_to_rgb_seven_digits :
  hex_to_rgb "fffffff" = Ok (255, 255, 255)%Z
  /\ is_hex6 (strip_optional_hash "fffffff") = false
  /\ is_hex6 (Str.lstrip_hash "fffffff") = false.
Proof. repeat split. Qed.

(** C10: every leading ['#'] is stripped.  For [s] of exactly 6 hex digits
    and every [n], [hex_to_rgb] succeeds on [n] times ['#'] followed by [s]
    and returns what it returns on [s]. *)
Theorem hex_to_rgb_strips_every_hash (s : string) (n : nat) :
  is_hex6 s = true ->
  exists c : color,
    hex_to_rgb s = Ok c
    /\ hex_to_rgb (Str.repeat_char "#" n ++ s) = Ok c.
Proof.
  intros H.
  assert (Hs : is_hex6 (Str.lstrip_hash s) = true)
    by now rewrite (StrFacts.lstrip_hash_hex6 s H).
  eexists. split.
  - apply StrFacts.hex_to_rgb_hex6, Hs.
  - unfold hex_to_rgb. rewrite StrFacts.lstrip_hash_repeat.
    apply (StrFacts.hex_to_rgb_hex6 s Hs).
Qed.

Lemma hex_to_rgb_strips_every_hash_witness :
  exists c : color,
    hex_to_rgb "27ae60" = Ok c
    /\ hex_to_rgb (Str.repeat_char "#" 3 ++ "27ae60") = Ok c.
Proof. apply (hex_to_rgb_strips_every_hash "27ae60" 3). reflexivity. Defined.

(** * Checking a property on every channel *)

Lemma forall_zrange (n : nat) (P : Z -> bool) :
  forallb P (zrange n) = true ->
  forall z, (0 <= z < Z.of_nat n)%Z -> P z = true.
Proof.
  intros H z Hz. rewrite forallb_forall in H. apply H.
  unfold zrange. rewrite <- (Z2Nat.id z) by lia.
  apply in_map, in_seq. lia.
Qed.

Lemma forall_channel (P : Z -> bool) :
  forallb P channels = true -> forall z, is_channel z -> P z = true.
Proof.
  intros H z Hz. apply (forall_zrange 256 P H). unfold is_channel in Hz. lia.
Qed.

Lemma forall_channel2 (P : Z -> Z -> bool) :
  forallb (fun a => forallb (P a) channels) channels = true ->
  forall a b, is_channel a -> is_channel b -> P a b = true.
Proof.
  intros H a b Ha Hb. apply (forall_channel (P a)); [| exact Hb].
  revert a Ha. apply forall_channel. exact H.
Qed.

(** * Properties that hold by evaluation *)

Section Evaluation.

Local Open Scope float_scope.

Variable libm_pow : float -> float -> float.

(** C8: the luminance of white is 1.0 and that of black is 0.0, exactly and
    hence within 1e-6, whatever the C library's [pow] ([1 ** 2.4] never
    reaches it). *)
Theorem luminance_white_black :
  exists white black : float,
    rgb_to_luminance libm_pow 255 255 255 = Ok white
    /\ rgb_to_luminance libm_pow 0 0 0 = Ok black
    /\ white = 1 /\ black = 0
    /\ (abs (white - 1.0) <=? 1e-6) = true
    /\ (abs (black - 0.0) <=? 1e-6) = true.
Proof. exists 1, 0. vm_compute. repeat split. Qed.

(** C7: the contrast ratio of black and white is 21.0, exactly and hence
    within any floating tolerance. *)
Theorem contrast_black_white :
  exists ratio : float,
    contrast_ratio libm_pow (Triple (0, 0, 0)%Z) (Triple (255, 255, 255)%Z)
      = Ok ratio
    /\ ratio = 21
    /\ (abs (ratio - 21.0) <=? 1e-6) = true.
Proof. exists 21. vm_compute. repeat split. Qed.

(** C6: a hex string and its parsed triple are interchangeable, in either
    argument position. *)
Theorem contrast_ratio_hex_string (s : string) :
  is_hex6 (strip_optional_hash s) = true ->
  exists t : color,
    hex_to_rgb s = Ok t
    /\ forall c : color_arg,
        contrast_ratio libm_pow (HexStr s) c
          = contrast_ratio libm_pow (Triple t) c
        /\ contrast_ratio libm_pow c (HexStr s)
          = contrast_ratio libm_pow c (Triple t).
Proof.
  intros H.
  assert (Hok := StrFacts.hex_to_rgb_hex6 s).
  rewrite (StrFacts.lstrip_hash_optional s H) in Hok. specialize (Hok H).
  eexists. split; [exact Hok |].
  intros c. unfold contrast_ratio. simpl resolve. rewrite Hok.
  split; reflexivity.
Qed.

End Evaluation.

Lemma contrast_ratio_hex_string_witness :
  exists t : color,
    hex_to_rgb "#27ae60" = Ok t
    /\ forall c : color_arg,
        contrast_ratio RefPow.pow (HexStr "#27ae60") c
          = contrast_ratio RefPow.pow (Triple t) c
        /\ contrast_ratio RefPow.pow c (HexStr "#27ae60")
          = contrast_ratio RefPow.pow c (Triple t).
Proof.
  apply (contrast_ratio_hex_string RefPow.pow "#27ae60"). reflexivity.
Defined.

Definition blend_ends_checked (f b : Z) : bool :=
  match blend_channel f b 0%float, blend_channel f b 1%float with
  | Ok x, Ok y => (x =? b)%Z && (y =? f)%Z
  | _, _ => false
  end.

Lemma blend_channel_ends (f b : Z) :
  is_channel f -> is_channel b ->
  blend_channel f b 0%float = Ok b /\ blend_channel f b 1%float = Ok f.
Proof.
  intros Hf Hb.
  assert (H : blend_ends_checked f b = true).
  { revert f b Hf Hb. apply forall_channel2. vm_compute. reflexivity. }
  unfold blend_ends_checked in H.
  destruct (blend_channel f b 0%float) as [x |]; [| discriminate].
  destruct (blend_channel f b 1%float) as [y |]; [| discriminate].
  apply andb_true_iff in H as [Hx Hy].
  apply Z.eqb_eq in Hx, Hy. now subst.
Qed.

(** C9: with alpha 0.0 the blend is the background and with alpha 1.0 it is
    the foreground, on every pair of Colors; in particular for white over
    black. *)
Theorem blend_alpha_zero_one (fg bg : color) :
  is_color fg -> is_color bg ->
  blend_rgba_on_rgb fg bg 0%float = Ok bg
  /\ blend_rgba_on_rgb fg bg 1%float = Ok fg
  /\ blend_rgba_on_rgb (255, 255, 255)%Z (0, 0, 0)%Z 0%float = Ok (0, 0, 0)%Z
  /\ blend_rgba_on_rgb (255, 255, 255)%Z (0, 0, 0)%Z 1%float
     = Ok (255, 255, 255)%Z.
Proof.
  destruct fg as [[fr fg] fb], bg as [[br bg] bb].
  intros (Hfr & Hfg & Hfb) (Hbr & Hbg & Hbb).
  destruct (blend_channel_ends fr br Hfr Hbr) as [R0 R1].
  destruct (blend_channel_ends fg bg Hfg Hbg) as [G0 G1].
  destruct (blend_channel_ends fb bb Hfb Hbb) as [B0 B1].
  unfold blend_rgba_on_rgb.
  rewrite R0, R1, G0, G1, B0, B1. simpl.
  repeat split; vm_compute; reflexivity.
Qed.

Lemma blend_alpha_zero_one_witness :
  blend_rgba_on_rgb (255, 255, 255)%Z (39, 174, 96)%Z 0%float
    = Ok (39, 174, 96)%Z
  /\ blend_rgba_on_rgb (255, 255, 255)%Z (39, 174, 96)%Z 1%float
    = Ok (255, 255, 255)%Z
  /\ blend_rgba_on_rgb (255, 255, 255)%Z (0, 0, 0)%Z 0%float = Ok (0, 0, 0)%Z
  /\ blend_rgba_on_rgb (255, 255, 255)%Z (0, 0, 0)%Z 1%float
     = Ok (255, 255, 255)%Z.
Proof.
  apply (blend_alpha_zero_one (255, 255, 255)%Z (39, 174, 96)%Z);
    unfold is_color, is_channel; lia.
Defined.

(** * Rounding to nearest, ties to even

    The float operations of [SpecFloat] round the exact result to the
    nearest float, ties to even.  The modules below prove that this rounding
    is monotone, so that bounds on the operands of [+], [-], [*] and [/]
    give bounds on the results.

    A non-negative value is written in units of [2 ^ -2148], below the
    exponent of every product and quotient of two floats; the value of a
    float is then a natural number.  [rnd A B] is the rounding of [A / B]. *)

Module Rounding.

Local Open Scope Z_scope.

(** The integer nearest to [N / M], the even one on a tie. *)
Definition rne (N M : Z) : Z :=
  let k := N / M in
  match 2 * (N mod M) ?= M with
  | Lt => k
  | Eq => if Z.even k then k else k + 1
  | Gt => k + 1
  end.

(** The unit in the last place of a value [t]: 53 significant bits, and
    nothing below [2 ^ -1074], which is 1074 in these units. *)
Definition gshift (t : Z) : Z := Z.max (Z.log2 t - 52) 1074.

Definition rnd (A B : Z) : Z :=
  let S := gshift (A / B) in rne A (B * 2 ^ S) * 2 ^ S.

Lemma rne_bounds (N M : Z) : 0 < M -> N / M <= rne N M <= N / M + 1.
Proof.
  intros HM. unfold rne.
  destruct (2 * (N mod M) ?= M); [destruct (Z.even (N / M)) | |]; lia.
Qed.

Lemma div_le_cross (N1 M1 N2 M2 : Z) :
  0 < M1 -> 0 < M2 -> N1 * M2 <= N2 * M1 -> N1 / M1 <= N2 / M2.
Proof.
  intros H1 H2 H.
  apply Z.div_le_lower_bound; [lia |].
  pose proof (Z.mul_div_le N1 M1 H1).
  (* M2 * (N1/M1) <= N2 : M1 * M2 * (N1/M1) <= M2 * N1 <= N2 * M1 *)
  nia.
Qed.

Lemma rne_mono (N1 M1 N2 M2 : Z) :
  0 < M1 -> 0 < M2 -> N1 * M2 <= N2 * M1 -> rne N1 M1 <= rne N2 M2.
Proof.
  intros H1 H2 H.
  pose proof (div_le_cross _ _ _ _ H1 H2 H) as Hk.
  pose proof (rne_bounds N1 M1 H1) as B1.
  pose proof (rne_bounds N2 M2 H2) as B2.
  destruct (Z.eq_dec (N1 / M1) (N2 / M2)) as [E | NE]; [| lia].
  pose proof (Z.div_mod N1 M1 ltac:(lia)) as D1.
  pose proof (Z.div_mod N2 M2 ltac:(lia)) as D2.
  pose proof (Z.mod_pos_bound N1 M1 H1) as R1.
  pose proof (Z.mod_pos_bound N2 M2 H2) as R2.
  assert (HR : (N1 mod M1) * M2 <= (N2 mod M2) * M1) by nia.
  unfold rne. rewrite <- E.
  destruct (Z.compare_spec (2 * (N1 mod M1)) M1) as [c1 | c1 | c1];
  destruct (Z.compare_spec (2 * (N2 mod M2)) M2) as [c2 | c2 | c2];
  destruct (Z.even (N1 / M1)); try lia; exfalso; nia.
Qed.


Lemma gshift_pos (t : Z) : 0 < gshift t.
Proof. unfold gshift. lia. Qed.

Lemma gshift_mono (t1 t2 : Z) : t1 <= t2 -> gshift t1 <= gshift t2.
Proof.
  intros H. unfold gshift. pose proof (Z.log2_le_mono t1 t2 H). lia.
Qed.

Lemma rnd_mono (A1 B1 A2 B2 : Z) :
  0 <= A1 -> 0 < B1 -> 0 < B2 -> A1 * B2 <= A2 * B1 ->
  rnd A1 B1 <= rnd A2 B2.
Proof.
  intros HA H1 H2 H.
  pose proof (div_le_cross _ _ _ _ H1 H2 H) as Ht.
  pose proof (gshift_mono _ _ Ht) as HS.
  pose proof (gshift_pos (A1 / B1)) as HS1.
  unfold rnd.
  set (t1 := A1 / B1) in *. set (t2 := A2 / B2) in *.
  set (S1 := gshift t1) in *. set (S2 := gshift t2) in *.
  assert (Ht1 : 0 <= t1) by (apply Z.div_pos; lia).
  assert (P1 : 0 < 2 ^ S1) by (apply Z.pow_pos_nonneg; lia).
  assert (P2 : 0 < 2 ^ S2) by (apply Z.pow_pos_nonneg; lia).
  destruct (Z.eq_dec S1 S2) as [E | NE].
  - rewrite <- E.
    apply Z.mul_le_mono_nonneg_r; [lia |].
    apply rne_mono; nia.
  - assert (HL : S2 = Z.log2 t2 - 52) by (unfold S2, gshift in *; lia).
    set (L := Z.log2 t2) in *.
    assert (HL1 : Z.log2 t1 < L) by (unfold S1, S2, gshift in *; lia).
    assert (Ht2 : 0 < t2).
    { destruct (Z.lt_trichotomy t2 0) as [c | [c | c]]; try lia.
      subst L. rewrite c in HL1. simpl in HL1.
      pose proof (Z.log2_nonneg t1). lia. }
    pose proof (Z.log2_spec t2 Ht2) as [Lo _]. fold L in Lo.
    assert (Hi : t1 < 2 ^ L).
    { destruct (Z.eq_dec t1 0) as [-> | Hn]; [apply Z.pow_pos_nonneg; lia |].
      pose proof (Z.log2_spec t1 ltac:(lia)) as [_ Hi].
      eapply Z.lt_le_trans; [exact Hi |].
      apply Z.pow_le_mono_r; lia. }
    assert (EL1 : 2 ^ L = 2 ^ (L - S1) * 2 ^ S1)
      by (rewrite <- Z.pow_add_r by lia; f_equal; lia).
    assert (EL2 : 2 ^ L = 2 ^ 52 * 2 ^ S2)
      by (rewrite <- Z.pow_add_r by lia; f_equal; lia).
    assert (Q1 : 0 < 2 ^ (L - S1)) by (apply Z.pow_pos_nonneg; lia).
    pose proof (rne_bounds A1 (B1 * 2 ^ S1) ltac:(nia)) as [_ U1].
    pose proof (rne_bounds A2 (B2 * 2 ^ S2) ltac:(nia)) as [L2 _].
    rewrite <- Z.div_div in U1 by lia. fold t1 in U1.
    rewrite <- Z.div_div in L2 by lia. fold t2 in L2.
    assert (K1 : t1 / 2 ^ S1 < 2 ^ (L - S1))
      by (apply Z.div_lt_upper_bound; nia).
    assert (K2 : 2 ^ 52 <= t2 / 2 ^ S2)
      by (apply Z.div_le_lower_bound; nia).
    apply Z.le_trans with (2 ^ L).
    + rewrite EL1. apply Z.mul_le_mono_nonneg_r; lia.
    + rewrite EL2. apply Z.mul_le_mono_nonneg_r; lia.
Qed.

Lemma rnd_mono_num (A1 A2 B : Z) :
  0 <= A1 -> 0 < B -> A1 <= A2 -> rnd A1 B <= rnd A2 B.
Proof. intros HA HB H. apply rnd_mono; nia. Qed.

Lemma rnd_mono_cross (a a' b b' K : Z) :
  0 <= a -> 0 < K -> 0 < b -> 0 < b' -> a * b' <= a' * b ->
  rnd (a * K) b <= rnd (a' * K) b'.
Proof. intros Ha HK Hb Hb' H. apply rnd_mono; nia. Qed.

Lemma rnd_nonneg (A B : Z) : 0 <= A -> 0 < B -> 0 <= rnd A B.
Proof.
  intros HA HB. unfold rnd.
  pose proof (gshift_pos (A / B)).
  assert (0 < 2 ^ gshift (A / B)) by (apply Z.pow_pos_nonneg; lia).
  pose proof (rne_bounds A (B * 2 ^ gshift (A / B)) ltac:(nia)) as [Lo _].
  assert (0 <= A / (B * 2 ^ gshift (A / B))) by (apply Z.div_pos; nia).
  nia.
Qed.

End Rounding.

(** ** The shift-right of [SpecFloat] *)

Module ShiftRight.

Import Rounding.
Local Open Scope Z_scope.

(** Where [P / D] falls between two integers. *)
Definition loc (P D : Z) : location :=
  if P mod D =? 0 then loc_Exact else loc_Inexact (2 * (P mod D) ?= D).

Definition repr (mrs : shr_record) (P D : Z) : Prop :=
  shr_m mrs = P / D /\ loc_of_shr_record mrs = loc P D.

Lemma repr_of_loc (P D : Z) : repr (shr_record_of_loc (P / D) (loc P D)) P D.
Proof.
  unfold repr. destruct (loc P D) as [| []]; simpl; auto.
Qed.

Lemma shr_1_nonneg (m : Z) (r s : bool) :
  0 <= m ->
  shr_1 (Build_shr_record m r s) = Build_shr_record (m / 2) (Z.odd m) (r || s).
Proof.
  intros Hm. rewrite <- Z.div2_div.
  destruct m as [| [p | p |] | p]; try reflexivity. lia.
Qed.

Lemma shr_1_repr (mrs : shr_record) (P D : Z) :
  0 <= P -> 0 < D -> repr mrs P D -> repr (shr_1 mrs) P (2 * D).
Proof.
  intros HP HD [Hm Hl].
  assert (Hq : P / (2 * D) = (P / D) / 2)
    by (rewrite (Z.mul_comm 2 D), Z.div_div by lia; reflexivity).
  assert (Hr : P mod (2 * D) = P mod D + D * ((P / D) mod 2))
    by (rewrite (Z.mul_comm 2 D); apply Z.rem_mul_r; lia).
  pose proof (Z.mod_pos_bound P D HD) as Hb.
  pose proof (Z.div_pos P D HP HD) as Hq0.
  unfold repr, loc in *. rewrite Hq, Hr.
  destruct mrs as [m r s]. simpl in Hm, Hl. rewrite <- Hm in *.
  clear Hq Hr Hm.
  rewrite (shr_1_nonneg m r s Hq0). simpl shr_m. split; [reflexivity |].
  assert (Hs : orb r s = negb (P mod D =? 0)).
  { destruct (Z.eqb_spec (P mod D) 0) as [E | E];
      destruct r, s; simpl in *; try reflexivity; try discriminate. }
  rewrite Hs, Zmod_odd.
  destruct (Z.odd m); destruct (Z.eqb_spec (P mod D) 0) as [E | E];
    match goal with |- context [?x =? 0] =>
      destruct (Z.eqb_spec x 0); try lia end;
    cbn [loc_of_shr_record negb].
  all: try reflexivity.
  all: f_equal; symmetry;
    first [ apply Z.compare_eq_iff; lia
          | apply Z.compare_lt_iff; lia
          | apply Z.compare_gt_iff; lia ].
Qed.

Lemma iter_pos_repr (p : positive) :
  forall (mrs : shr_record) (P D : Z),
    0 <= P -> 0 < D -> repr mrs P D ->
    repr (SpecFloat.iter_pos shr_1 p mrs) P (D * 2 ^ Z.pos p).
Proof.
  induction p as [p IH | p IH |]; intros mrs P D HP HD H; simpl SpecFloat.iter_pos.
  - assert (0 < 2 ^ Z.pos p) by (apply Z.pow_pos_nonneg; lia).
    replace (D * 2 ^ Z.pos p~1) with (2 * D * 2 ^ Z.pos p * 2 ^ Z.pos p).
    + apply IH; [lia | nia |]. apply IH; [lia | lia |].
      apply shr_1_repr; assumption.
    + replace (Z.pos p~1) with (1 + Z.pos p + Z.pos p) by lia.
      rewrite !Z.pow_add_r by lia. change (2 ^ 1) with 2. ring.
  - assert (0 < 2 ^ Z.pos p) by (apply Z.pow_pos_nonneg; lia).
    replace (D * 2 ^ Z.pos p~0) with (D * 2 ^ Z.pos p * 2 ^ Z.pos p).
    + apply IH; [lia | nia |]. apply IH; assumption.
    + replace (Z.pos p~0) with (Z.pos p + Z.pos p) by lia.
      rewrite !Z.pow_add_r by lia. ring.
  - change (2 ^ 1) with 2. rewrite Z.mul_comm.
    apply shr_1_repr; assumption.
Qed.

(** [shr] on a record that represents [P / D]. *)
Lemma shr_repr (mrs : shr_record) (e n P D : Z) :
  0 <= P -> 0 < D -> 0 <= n -> repr mrs P D ->
  repr (fst (shr mrs e n)) P (D * 2 ^ n) /\ snd (shr mrs e n) = e + n.
Proof.
  intros HP HD Hn H. destruct n as [| p | p]; simpl; try lia.
  - rewrite Z.mul_1_r, Z.add_0_r. auto.
  - split; [| reflexivity]. apply iter_pos_repr; assumption.
Qed.

Lemma digits2_size (p : positive) : digits2_pos p = Pos.size p.
Proof. induction p; simpl; congruence. Qed.

Lemma Zdigits2_log2 (m : Z) : 0 < m -> Zdigits2 m = Z.log2 m + 1.
Proof.
  destruct m as [| p | p]; try lia. intros _. simpl Zdigits2.
  rewrite digits2_size. destruct p; simpl; try reflexivity;
    rewrite ?Pos2Z.inj_succ; lia.
Qed.

Lemma Zdigits2_bounds (m : Z) :
  0 < m -> 2 ^ (Zdigits2 m - 1) <= m < 2 ^ Zdigits2 m.
Proof.
  intros H. rewrite (Zdigits2_log2 m H).
  replace (Z.log2 m + 1 - 1) with (Z.log2 m) by lia.
  replace (Z.log2 m + 1) with (Z.succ (Z.log2 m)) by lia.
  apply Z.log2_spec, H.
Qed.

End ShiftRight.

(** ** [binary_round_aux] rounds to nearest *)

Module RoundAux.

Import Rounding ShiftRight.
Local Open Scope Z_scope.

Definition top : Z := 2 ^ 3172.

(** The value 1 in these units. *)
Definition scale : Z := 2 ^ 2148.
Definition cap (F : Z) : Z := Z.min F top.

(** The value of a non-negative float in units of [2 ^ -2148]. *)
Definition gval (x : spec_float) : Z :=
  match x with
  | S754_finite _ m e => Z.pos m * 2 ^ (e + 2148)
  | S754_infinity _ => top
  | _ => 0
  end.

Definition has_sign (s : bool) (x : spec_float) : Prop :=
  match x with
  | S754_zero s' | S754_infinity s' | S754_finite s' _ _ => s' = s
  | S754_nan => False
  end.

Lemma fexp_eq (x : Z) : fexp prec emax x = Z.max (x - 53) (-1074).
Proof. reflexivity. Qed.

Lemma rne_of_loc (P M : Z) :
  0 < M -> round_nearest_even (P / M) (loc P M) = rne P M.
Proof.
  intros HM. unfold loc, rne.
  pose proof (Z.mod_pos_bound P M HM).
  destruct (Z.eqb_spec (P mod M) 0) as [E | E].
  - rewrite E. simpl. destruct M; lia || reflexivity.
  - simpl. destruct (2 * (P mod M) ?= M); reflexivity.
Qed.

Lemma rne_scale (P M c : Z) : 0 < M -> 0 < c -> rne (P * c) (M * c) = rne P M.
Proof.
  intros HM Hc. unfold rne.
  rewrite Z.div_mul_cancel_r by lia.
  rewrite Zmult_mod_distr_r.
  replace (2 * (P mod M * c)) with (2 * (P mod M) * c) by ring.
  rewrite <- Zmult_compare_compat_r by lia. reflexivity.
Qed.

Lemma pow2_pos (n : Z) : 0 <= n -> 0 < 2 ^ n.
Proof. intros. apply Z.pow_pos_nonneg; lia. Qed.

Lemma pow2_le (a b : Z) : 0 <= a <= b -> 2 ^ a <= 2 ^ b.
Proof. intros. apply Z.pow_le_mono_r; lia. Qed.

Lemma pow2_lt (a b : Z) : 0 <= a < b -> 2 ^ a < 2 ^ b.
Proof. intros. apply Z.pow_lt_mono_r; lia. Qed.

Lemma pow2_add (a b : Z) : 0 <= a -> 0 <= b -> 2 ^ (a + b) = 2 ^ a * 2 ^ b.
Proof. intros. apply Z.pow_add_r; lia. Qed.

(** The shift that [rnd] chooses is the one [binary_round_aux] chooses. *)
Lemma gshift_digits (m e P D : Z) :
  0 <= P -> 0 < D -> m = P / D -> -2148 <= e -> (m = 0 -> e <= -1021) ->
  gshift (P * 2 ^ (e + 2148) / D) = fexp prec emax (Zdigits2 m + e) + 2148.
Proof.
  intros HP HD Hm He H0. rewrite fexp_eq. unfold gshift.
  set (c := 2 ^ (e + 2148)).
  assert (Hc : 0 < c) by (apply pow2_pos; lia).
  pose proof (Z.div_mod P D ltac:(lia)) as E.
  pose proof (Z.mod_pos_bound P D HD) as R. rewrite <- Hm in E.
  assert (Ht : m * c <= P * c / D < (m + 1) * c).
  { split.
    - apply Z.div_le_lower_bound; nia.
    - apply Z.div_lt_upper_bound; nia. }
  assert (Hm0 : 0 <= m) by (subst m; apply Z.div_pos; lia).
  destruct (Z.eq_dec m 0) as [Hz | NZ].
  - rewrite Hz in *. simpl Zdigits2. specialize (H0 eq_refl).
    assert (Z.log2 (P * c / D) <= 1126).
    { destruct (Z.eq_dec (P * c / D) 0) as [-> | N]; [simpl; lia |].
      assert (P * c / D < 2 ^ 1127).
      { eapply Z.lt_le_trans with c; [lia |]. apply pow2_le. lia. }
      apply Z.log2_lt_pow2 in H; lia. }
    lia.
  - pose proof (Zdigits2_bounds m ltac:(lia)) as [Lo Hi].
    pose proof (Zdigits2_log2 m ltac:(lia)) as Hd.
    pose proof (Z.log2_nonneg m).
    set (d := Zdigits2 m) in *.
    assert (HL : Z.log2 (P * c / D) = d - 1 + (e + 2148)).
    { apply Z.log2_unique; [lia |].
      replace (Z.succ (d - 1 + (e + 2148))) with (d + (e + 2148)) by lia.
      rewrite (pow2_add (d - 1)), (pow2_add d) by lia. fold c. nia. }
    lia.
Qed.

Lemma top_pos : 0 < top.
Proof. unfold top. apply pow2_pos. lia. Qed.

Lemma scale_pos : 0 < scale.
Proof. unfold scale. apply pow2_pos. lia. Qed.

Lemma cap_zero : cap 0 = 0.
Proof. unfold cap. pose proof top_pos. lia. Qed.

Lemma cap_id (F : Z) : F < top -> cap F = F.
Proof. unfold cap. lia. Qed.

Lemma cap_top (F : Z) : top <= F -> cap F = top.
Proof. unfold cap. lia. Qed.

(** A mantissa of at most 53 bits at an exponent up to 971 is below [top];
    one of 53 bits at an exponent from 972 on is not. *)
Lemma below_top (F S : Z) :
  0 <= F < 2 ^ 53 -> 0 <= S <= 3119 -> F * 2 ^ S < top.
Proof.
  intros HF HS.
  replace top with (2 ^ 53 * 2 ^ 3119)
    by (unfold top; rewrite <- pow2_add by lia; reflexivity).
  apply Z.le_lt_trans with (F * 2 ^ 3119).
  - apply Z.mul_le_mono_nonneg_l; [apply HF | apply pow2_le, HS].
  - apply Z.mul_lt_mono_pos_r; [apply pow2_pos; lia | apply HF].
Qed.

Lemma above_top (F S : Z) : 2 ^ 52 <= F -> 3120 <= S -> top <= F * 2 ^ S.
Proof.
  intros HF HS.
  replace top with (2 ^ 52 * 2 ^ 3120)
    by (unfold top; rewrite <- pow2_add by lia; reflexivity).
  apply Z.mul_le_mono_nonneg; try assumption.
  - apply Z.pow_nonneg. lia.
  - apply Z.pow_nonneg. lia.
  - apply pow2_le. lia.
Qed.

Lemma bra_spec (s : bool) (m e : Z) (l : location) (P D : Z) :
  0 <= P -> 0 < D -> m = P / D -> l = loc P D -> -2148 <= e ->
  e <= fexp prec emax (Zdigits2 m + e) -> (m = 0 -> e <= -1021) ->
  has_sign s (binary_round_aux prec emax s m e l)
  /\ gval (binary_round_aux prec emax s m e l)
     = cap (rnd (P * 2 ^ (e + 2148)) D).
Proof.
  intros HP HD Hm Hl He Hn H0.
  pose proof (gshift_digits m e P D HP HD Hm He H0) as HS.
  unfold rnd. rewrite HS. clear HS.
  set (e1 := fexp prec emax (Zdigits2 m + e)) in *.
  set (n := e1 - e).
  assert (Hn0 : 0 <= n) by (unfold n; lia).
  assert (He1 : e1 = Z.max (Zdigits2 m + e - 53) (-1074))
    by (unfold e1; apply fexp_eq).
  assert (Hm0 : 0 <= m) by (subst m; apply Z.div_pos; lia).
  pose proof (pow2_pos n Hn0) as Pn.
  pose proof (pow2_pos (e + 2148) ltac:(lia)) as Pc.
  (* first shift *)
  unfold binary_round_aux, shr_fexp. fold e1. fold n.
  assert (Hrep : repr (shr_record_of_loc m l) P D)
    by (rewrite Hm, Hl; apply repr_of_loc).
  pose proof (shr_repr (shr_record_of_loc m l) e n P D HP HD Hn0 Hrep) as Sh.
  destruct (shr (shr_record_of_loc m l) e n) as [mrs1 e'].
  simpl fst in Sh; simpl snd in Sh. destruct Sh as [[Sm Sl] Se].
  replace e' with e1 by (unfold n in Se; lia). clear Se e'.
  rewrite Sm, Sl, rne_of_loc by nia.
  (* the rounded mantissa *)
  set (F := rne P (D * 2 ^ n)).
  assert (EF : rne (P * 2 ^ (e + 2148)) (D * 2 ^ (e1 + 2148)) = F).
  { replace (e1 + 2148) with (n + (e + 2148)) by (unfold n; lia).
    rewrite (pow2_add n (e + 2148)), Z.mul_assoc by lia. apply rne_scale; nia. }
  rewrite EF. clear EF.
  pose proof (rne_bounds P (D * 2 ^ n) ltac:(nia)) as BF. fold F in BF.
  assert (Hk : P / (D * 2 ^ n) = m / 2 ^ n)
    by (rewrite <- Z.div_div by lia; now subst m).
  rewrite Hk in BF.
  assert (Kub : m / 2 ^ n < 2 ^ 53 /\ (-1074 < e1 -> 2 ^ 52 <= m / 2 ^ n)
                /\ 0 <= m / 2 ^ n).
  { destruct (Z.eq_dec m 0) as [Hz | NZ].
    - rewrite Hz in *. simpl Zdigits2 in *. specialize (H0 eq_refl).
      rewrite Z.div_0_l by lia. repeat split; try lia.
    - pose proof (Zdigits2_bounds m ltac:(lia)) as [Lo Hi].
      pose proof (Zdigits2_log2 m ltac:(lia)) as Hd.
      pose proof (Z.log2_nonneg m).
      set (d := Zdigits2 m) in *.
      repeat split.
      + apply Z.div_lt_upper_bound; [lia |].
        rewrite <- pow2_add by lia.
        eapply Z.lt_le_trans; [exact Hi |]. apply pow2_le. unfold n. lia.
      + intros Hnorm. apply Z.div_le_lower_bound; [lia |].
        rewrite <- pow2_add by lia.
        eapply Z.le_trans; [| exact Lo]. apply pow2_le. unfold n. lia.
      + apply Z.div_pos; lia. }
  destruct Kub as (Kub & Klb & K0).
  assert (HF0 : 0 <= F <= 2 ^ 53) by lia.
  assert (He1lo : -1074 <= e1) by lia.
  pose proof (pow2_pos (e1 + 2148) ltac:(lia)) as Pe1.
  assert (B53 : forall S, 0 <= F < 2 ^ 53 -> 0 <= S <= 3119 ->
                  cap (F * 2 ^ S) = F * 2 ^ S)
    by (intros S H1 H2; apply cap_id, below_top; assumption).
  assert (A52 : forall G S, 2 ^ 52 <= G -> 3120 <= S ->
                  cap (G * 2 ^ S) = top)
    by (intros G S H1 H2; apply cap_top, above_top; assumption).
  assert (C53 : cap (2 ^ 52 * 2 ^ (e1 + 1 + 2148))
                = cap (2 ^ 53 * 2 ^ (e1 + 2148))).
  { f_equal. replace (e1 + 1 + 2148) with (1 + (e1 + 2148)) by lia.
    rewrite (pow2_add 1 (e1 + 2148)) by lia.
    change (2 ^ 1) with 2. change (2 ^ 53) with (2 ^ 52 * 2). ring. }
  assert (B52 : e1 + 1 <= 971 ->
                cap (2 ^ 52 * 2 ^ (e1 + 1 + 2148))
                = 2 ^ 52 * 2 ^ (e1 + 1 + 2148)).
  { intros Hle. apply cap_id, below_top; [| lia].
    split; [apply Z.pow_nonneg; lia | apply pow2_lt; lia]. }
  assert (C0 := cap_zero).
  change (2 ^ 53) with 9007199254740992 in *.
  change (2 ^ 52) with 4503599627370496 in *.
  unfold shr_fexp. rewrite fexp_eq. change (emax - prec) with 971.
  destruct (Z.eq_dec F 0) as [F0 | FN].
  - (* zero *)
    rewrite F0. simpl Zdigits2. simpl shr_record_of_loc.
    replace (Z.max (0 + e1 - 53) (-1074) - e1) with (- (e1 + 1074)) by lia.
    assert (Hsh : forall x, x = - (e1 + 1074) ->
              shr (Build_shr_record 0 false false) e1 x
              = (Build_shr_record 0 false false, e1)).
    { intros x ->. destruct (e1 + 1074) eqn:E; try lia; reflexivity. }
    rewrite (Hsh _ eq_refl). cbn [shr_m has_sign gval].
    split; [reflexivity |]. rewrite Z.mul_0_l. symmetry. exact C0.
  - destruct (Z.eq_dec F 9007199254740992) as [Fc | Fnc].
    + (* carry *)
      rewrite Fc. change (Zdigits2 9007199254740992) with 54.
      replace (Z.max (54 + e1 - 53) (-1074) - e1) with 1 by lia.
      cbn [shr shr_record_of_loc SpecFloat.iter_pos shr_1 shr_m].
      destruct (Z.leb_spec (e1 + 1) 971) as [Hle | Hgt];
        cbn [has_sign gval]; (split; [reflexivity |]).
      * rewrite <- C53. symmetry. apply B52, Hle.
      * rewrite <- C53. symmetry. apply A52; lia.
    + (* no carry *)
      assert (HFp : 0 < F < 9007199254740992) by lia.
      pose proof (Zdigits2_bounds F ltac:(lia)) as [Lo Hi].
      pose proof (Zdigits2_log2 F ltac:(lia)) as Hd.
      pose proof (Z.log2_nonneg F).
      assert (Hd53 : Zdigits2 F <= 53).
      { destruct (Z.le_gt_cases (Zdigits2 F) 53); [assumption |].
        assert (2 ^ 53 <= 2 ^ (Zdigits2 F - 1)) by (apply pow2_le; lia).
        change (2 ^ 53) with 9007199254740992 in *. lia. }
      assert (Hdn : -1074 < e1 -> Zdigits2 F = 53).
      { intros Hnorm. specialize (Klb Hnorm).
        destruct (Z.le_gt_cases 53 (Zdigits2 F)); [lia |].
        assert (2 ^ Zdigits2 F <= 2 ^ 52) by (apply pow2_le; lia).
        change (2 ^ 52) with 4503599627370496 in *. lia. }
      replace (Z.max (Zdigits2 F + e1 - 53) (-1074) - e1) with 0 by lia.
      destruct F as [| pF | pF]; try lia.
      cbn [shr shr_record_of_loc shr_m].
      destruct (Z.leb_spec e1 971) as [Hle | Hgt];
        cbn [has_sign gval]; (split; [reflexivity |]).
      * symmetry. apply B53; lia.
      * symmetry. specialize (Klb ltac:(lia)). apply A52; lia.
Qed.

End RoundAux.

(** ** Valid floats and their order *)

Module SFOrder.

Import Rounding ShiftRight RoundAux.
Local Open Scope Z_scope.

(** Non-negative finite floats: the zeros and the positive finite ones. *)
Definition nnf (x : spec_float) : bool :=
  match x with
  | S754_zero _ => true
  | S754_finite false _ _ => true
  | _ => false
  end.

Lemma pow2_double (a b : Z) : 0 <= a < b -> 2 * 2 ^ a <= 2 ^ b.
Proof.
  intros H. rewrite <- Z.pow_succ_r by lia. apply pow2_le. lia.
Qed.

Lemma valid_finite (s : bool) (m : positive) (e : Z) :
  valid_binary (S754_finite s m e) = true ->
  -1074 <= e <= 971 /\ Zdigits2 (Z.pos m) <= 53
  /\ (Zdigits2 (Z.pos m) = 53 \/ e = -1074).
Proof.
  unfold SpecFloat.valid_binary, bounded, canonical_mantissa.
  rewrite andb_true_iff, Z.eqb_eq, Z.leb_le, fexp_eq.
  change (emax - prec) with 971. simpl Zdigits2. lia.
Qed.

Lemma mantissa_bounds (s : bool) (m : positive) (e : Z) :
  valid_binary (S754_finite s m e) = true ->
  Z.pos m < 2 ^ 53 /\ (-1074 < e -> 2 ^ 52 <= Z.pos m).
Proof.
  intros H. destruct (valid_finite s m e H) as (He & Hd & Hc).
  pose proof (Zdigits2_bounds (Z.pos m) ltac:(lia)) as [Lo Hi].
  split.
  - eapply Z.lt_le_trans; [exact Hi |]. apply pow2_le.
    pose proof (Zdigits2_log2 (Z.pos m) ltac:(lia)).
    pose proof (Z.log2_nonneg (Z.pos m)). lia.
  - intros Hn. destruct Hc as [Hc | Hc]; [| lia].
    rewrite Hc in Lo. exact Lo.
Qed.

Lemma gval_nonneg (x : spec_float) : 0 <= gval x.
Proof.
  destruct x as [s | s | | s m e]; cbn [gval]; try lia.
  unfold top. apply Z.pow_nonneg. lia.
Qed.

Lemma gval_finite_lt_top (s : bool) (m : positive) (e : Z) :
  valid_binary (S754_finite s m e) = true ->
  0 < gval (S754_finite s m e) < top.
Proof.
  intros H. destruct (valid_finite s m e H) as (He & _).
  destruct (mantissa_bounds s m e H) as [Hm _].
  cbn [gval]. split.
  - apply Z.mul_pos_pos; [lia | apply pow2_pos; lia].
  - apply below_top; lia.
Qed.

(** On valid non-negative floats the order is the order of the values. *)
Lemma compare_gval (x y : spec_float) :
  valid_binary x = true -> valid_binary y = true ->
  nnf x = true -> nnf y = true ->
  SFcompare x y = Some (gval x ?= gval y).
Proof.
  intros Vx Vy Nx Ny.
  destruct x as [sx | sx | | sx mx ex]; try discriminate;
  destruct y as [sy | sy | | sy my ey]; try discriminate.
  - reflexivity.
  - destruct sy; [discriminate |].
    pose proof (gval_finite_lt_top _ _ _ Vy) as [Hy _].
    simpl SFcompare. f_equal. symmetry. apply Z.compare_lt_iff.
    exact Hy.
  - destruct sx; [discriminate |].
    pose proof (gval_finite_lt_top _ _ _ Vx) as [Hx _].
    simpl SFcompare. f_equal. symmetry. apply Z.compare_gt_iff.
    exact Hx.
  - destruct sx; [discriminate |]. destruct sy; [discriminate |].
    destruct (valid_finite _ _ _ Vx) as (Hex & _).
    destruct (valid_finite _ _ _ Vy) as (Hey & _).
    destruct (mantissa_bounds _ _ _ Vx) as [Ux Lx].
    destruct (mantissa_bounds _ _ _ Vy) as [Uy Ly].
    simpl SFcompare. cbn [gval]. f_equal.
    pose proof (pow2_pos (ex + 2148) ltac:(lia)) as Px.
    pose proof (pow2_pos (ey + 2148) ltac:(lia)) as Py.
    change (2 ^ 53) with (2 * 2 ^ 52) in *.
    destruct (Z.compare_spec ex ey) as [E | E | E].
    + subst ey.
      change (Pos.compare_cont Eq mx my) with (Z.pos mx ?= Z.pos my).
      apply Zmult_compare_compat_r. lia.
    + symmetry. apply Z.compare_lt_iff.
      assert (2 * 2 ^ (ex + 2148) <= 2 ^ (ey + 2148))
        by (apply pow2_double; lia).
      specialize (Ly ltac:(lia)). nia.
    + symmetry. apply Z.compare_gt_iff.
      assert (2 * 2 ^ (ey + 2148) <= 2 ^ (ex + 2148))
        by (apply pow2_double; lia).
      specialize (Lx ltac:(lia)). nia.
Qed.

End SFOrder.

(** ** The value of a product, a sum, a difference and a quotient *)

Module SFArith.

Import Rounding ShiftRight RoundAux SFOrder.
Local Open Scope Z_scope.

(** Non-negative results: a zero, a positive finite float or [+infinity]. *)
Definition nn (x : spec_float) : bool :=
  match x with
  | S754_zero _ => true
  | S754_finite false _ _ => true
  | S754_infinity false => true
  | _ => false
  end.

Lemma nnf_nn (x : spec_float) : nnf x = true -> nn x = true.
Proof. destruct x as [| | | [] ? ?]; simpl; congruence. Qed.

Lemma nn_of_sign (x : spec_float) : has_sign false x -> nn x = true.
Proof. destruct x as [| | | ? ? ?]; simpl; intros H; subst; tauto. Qed.

Lemma rne_zero (M : Z) : 0 < M -> rne 0 M = 0.
Proof.
  intros H. unfold rne. rewrite Z.mod_0_l, Z.div_0_l by lia.
  destruct M; try lia. reflexivity.
Qed.

Lemma rnd_zero (B : Z) : 0 < B -> rnd 0 B = 0.
Proof.
  intros H. unfold rnd. rewrite Z.div_0_l by lia. rewrite rne_zero.
  - reflexivity.
  - apply Z.mul_pos_pos; [lia |]. apply pow2_pos.
    pose proof (gshift_pos 0). lia.
Qed.

Lemma rnd_scale (A B c : Z) :
  0 <= A -> 0 < B -> 0 < c -> rnd (A * c) (B * c) = rnd A B.
Proof.
  intros HA HB Hc. apply Z.le_antisymm; apply rnd_mono; nia.
Qed.

Lemma rne_exact (P : Z) : rne P 1 = P.
Proof. unfold rne. rewrite Z.mod_1_r, Z.div_1_r. reflexivity. Qed.

(** Rounding the value of a float gives it back. *)
Lemma rnd_id (s : bool) (m : positive) (e : Z) :
  valid_binary (S754_finite s m e) = true ->
  rnd (gval (S754_finite s m e)) 1 = gval (S754_finite s m e).
Proof.
  intros V. destruct (valid_finite s m e V) as (He & Hd & Hc).
  cbn [gval]. unfold rnd.
  rewrite (gshift_digits (Z.pos m) e (Z.pos m) 1); try lia.
  - rewrite fexp_eq.
    replace (Z.max (Zdigits2 (Z.pos m) + e - 53) (-1074)) with e by lia.
    rewrite Z.mul_1_l.
    rewrite <- (Z.mul_1_l (2 ^ (e + 2148))) at 2.
    rewrite rne_scale by (try apply pow2_pos; lia).
    now rewrite rne_exact.
  - now rewrite Z.div_1_r.
Qed.

Lemma rnd_id_cap (x : spec_float) :
  valid_binary x = true -> nnf x = true -> cap (rnd (gval x) 1) = gval x.
Proof.
  intros V N. destruct x as [s | s | | s m e]; try discriminate.
  - cbn [gval]. rewrite rnd_zero by lia. apply cap_zero.
  - rewrite (rnd_id s m e V). apply cap_id.
    apply (gval_finite_lt_top s m e V).
Qed.

Lemma loc_one (P : Z) : loc P 1 = loc_Exact.
Proof. unfold loc. rewrite Z.mod_1_r. reflexivity. Qed.

(** ** Multiplication *)
Lemma SFmul_gval (x y : spec_float) :
  valid_binary x = true -> valid_binary y = true ->
  nnf x = true -> nnf y = true ->
  nn (SFmul prec emax x y) = true
  /\ gval (SFmul prec emax x y) = cap (rnd (gval x * gval y) scale).
Proof.
  intros Vx Vy Nx Ny.
  assert (Z2 : cap (rnd 0 scale) = 0)
    by (rewrite rnd_zero by apply scale_pos; apply cap_zero).
  destruct x as [sx | sx | | sx mx ex]; try discriminate;
  destruct y as [sy | sy | | sy my ey]; try discriminate;
    cbn [SFmul].
  - cbn [gval nn]. rewrite Z.mul_0_l. auto.
  - cbn [gval nn]. rewrite Z.mul_0_l. auto.
  - cbn [gval nn]. rewrite Z.mul_0_r. auto.
  - destruct sx; [discriminate |]. destruct sy; [discriminate |].
    cbn [xorb].
    destruct (valid_finite _ _ _ Vx) as (Hex & Hdx & Hcx).
    destruct (valid_finite _ _ _ Vy) as (Hey & Hdy & Hcy).
    pose proof (Zdigits2_log2 (Z.pos mx) ltac:(lia)) as Lx.
    pose proof (Zdigits2_log2 (Z.pos my) ltac:(lia)) as Ly.
    pose proof (Zdigits2_log2 (Z.pos (mx * my)) ltac:(lia)) as Lxy.
    pose proof (Z.log2_mul_below (Z.pos mx) (Z.pos my) ltac:(lia) ltac:(lia))
      as Lm.
    pose proof (Z.log2_nonneg (Z.pos mx)). pose proof (Z.log2_nonneg (Z.pos my)).
    rewrite <- Pos2Z.inj_mul in Lm.
    destruct (bra_spec false (Z.pos (mx * my)) (ex + ey) loc_Exact
                (Z.pos (mx * my)) 1) as [Hs Hv]; try lia.
    + now rewrite Z.div_1_r.
    + now rewrite loc_one.
    + rewrite fexp_eq. lia.
    + split; [apply nn_of_sign, Hs |]. rewrite Hv. f_equal.
      cbn [gval].
      replace (Z.pos mx * 2 ^ (ex + 2148) * (Z.pos my * 2 ^ (ey + 2148)))
        with (Z.pos (mx * my) * 2 ^ (ex + ey + 2148) * scale).
      * rewrite <- (Z.mul_1_l scale) at 2.
        symmetry. apply rnd_scale; [| lia | apply scale_pos].
        apply Z.mul_nonneg_nonneg; [lia |]. apply Z.pow_nonneg. lia.
      * rewrite Pos2Z.inj_mul. unfold scale.
        rewrite <- (Z.mul_assoc _ (2 ^ (ex + ey + 2148))).
        rewrite <- (pow2_add (ex + ey + 2148) 2148) by lia.
        replace (ex + ey + 2148 + 2148) with ((ex + 2148) + (ey + 2148))
          by lia.
        rewrite (pow2_add (ex + 2148) (ey + 2148)) by lia.
        generalize (2 ^ (ex + 2148)) (2 ^ (ey + 2148)). intros a b. ring.
Qed.

(** ** Addition and subtraction *)
Lemma iter_xO (m d : positive) : Z.pos (Pos.iter xO m d) = Z.pos m * 2 ^ Z.pos d.
Proof.
  induction d as [| d IH] using Pos.peano_ind.
  - simpl. change (2 ^ 1) with 2. lia.
  - rewrite Pos.iter_succ, Pos2Z.inj_xO, IH, Pos2Z.inj_succ.
    rewrite Z.pow_succ_r by lia. ring.
Qed.

Lemma shl_align_spec (mx : positive) (ex ex' : Z) :
  snd (shl_align mx ex ex') = Z.min ex ex'
  /\ Z.pos (fst (shl_align mx ex ex'))
     = Z.pos mx * 2 ^ (ex - Z.min ex ex').
Proof.
  unfold shl_align. destruct (ex' - ex) as [| d | d] eqn:E; cbn [fst snd].
  - replace (Z.min ex ex') with ex by lia.
    rewrite Z.sub_diag. simpl. lia.
  - replace (Z.min ex ex') with ex by lia.
    rewrite Z.sub_diag. simpl. lia.
  - replace (Z.min ex ex') with ex' by lia.
    replace (ex - ex') with (Z.pos d) by lia.
    split; [reflexivity | apply iter_xO].
Qed.

Lemma Zdigits2_shift (m : positive) (j : Z) :
  0 <= j -> Zdigits2 (Z.pos m * 2 ^ j) = Zdigits2 (Z.pos m) + j.
Proof.
  intros Hj. pose proof (pow2_pos j Hj).
  rewrite !Zdigits2_log2 by nia.
  rewrite Z.log2_mul_pow2 by lia. lia.
Qed.

Lemma binary_round_gval (s : bool) (m : positive) (e : Z) :
  -2148 <= e ->
  has_sign s (binary_round prec emax s m e)
  /\ gval (binary_round prec emax s m e)
     = cap (rnd (Z.pos m * 2 ^ (e + 2148)) 1).
Proof.
  intros He. unfold binary_round.
  set (e1 := fexp prec emax (Z.pos (digits2_pos m) + e)).
  destruct (shl_align_spec m e e1) as [Se Sm].
  destruct (shl_align m e e1) as [mz ez]. cbn [fst snd] in Se, Sm.
  assert (He1 : -1074 <= e1) by (unfold e1; rewrite fexp_eq; lia).
  assert (Hd : Zdigits2 (Z.pos mz) + ez = Zdigits2 (Z.pos m) + e).
  { rewrite Sm, Zdigits2_shift by lia. lia. }
  destruct (bra_spec s (Z.pos mz) ez loc_Exact (Z.pos mz) 1) as [Hs Hv];
    try lia.
  - now rewrite Z.div_1_r.
  - now rewrite loc_one.
  - rewrite Hd. change (Zdigits2 (Z.pos m)) with (Z.pos (digits2_pos m)).
    fold e1. lia.
  - split; [exact Hs |]. rewrite Hv. do 2 f_equal.
    rewrite Sm, <- Z.mul_assoc, <- pow2_add by lia. do 2 f_equal. lia.
Qed.

Lemma binary_normalize_gval (m e : Z) :
  0 <= m -> -2148 <= e ->
  nn (binary_normalize prec emax m e false) = true
  /\ gval (binary_normalize prec emax m e false)
     = cap (rnd (m * 2 ^ (e + 2148)) 1).
Proof.
  intros Hm He. destruct m as [| p | p]; try lia; cbn [binary_normalize].
  - rewrite Z.mul_0_l, rnd_zero, cap_zero by lia. auto.
  - destruct (binary_round_gval false p e He) as [Hs Hv].
    split; [apply nn_of_sign, Hs | exact Hv].
Qed.

(** The operands of an addition, aligned on the smaller exponent. *)
Lemma aligned_gval (mx : positive) (ex ez : Z) :
  -1074 <= ez -> ez <= ex ->
  Z.pos (fst (shl_align mx ex ez)) * 2 ^ (ez + 2148)
  = Z.pos mx * 2 ^ (ex + 2148).
Proof.
  intros Hz Hle. destruct (shl_align_spec mx ex ez) as [_ Sm].
  rewrite Sm. replace (Z.min ex ez) with ez by lia.
  rewrite <- Z.mul_assoc, <- pow2_add by lia. do 2 f_equal. lia.
Qed.

Lemma SFadd_gval (x y : spec_float) :
  valid_binary x = true -> valid_binary y = true ->
  nnf x = true -> nnf y = true ->
  nn (SFadd prec emax x y) = true
  /\ gval (SFadd prec emax x y) = cap (rnd (gval x + gval y) 1).
Proof.
  intros Vx Vy Nx Ny.
  destruct x as [sx | sx | | sx mx ex]; try discriminate;
  destruct y as [sy | sy | | sy my ey]; try discriminate;
    cbn [SFadd].
  - split; [destruct sx, sy; reflexivity |].
    replace (gval (S754_zero sx) + gval (S754_zero sy)) with 0 by reflexivity.
    rewrite rnd_zero, cap_zero by lia. destruct sx, sy; reflexivity.
  - split; [apply nnf_nn, Ny |]. cbn [gval]. rewrite Z.add_0_l.
    symmetry. apply (rnd_id_cap _ Vy Ny).
  - split; [apply nnf_nn, Nx |]. cbn [gval]. rewrite Z.add_0_r.
    symmetry. apply (rnd_id_cap _ Vx Nx).
  - destruct sx; [discriminate |]. destruct sy; [discriminate |].
    destruct (valid_finite _ _ _ Vx) as (Hex & _).
    destruct (valid_finite _ _ _ Vy) as (Hey & _).
    cbn [cond_Zopp].
    set (ez := Z.min ex ey).
    pose proof (aligned_gval mx ex ez ltac:(lia) ltac:(lia)) as Ax.
    pose proof (aligned_gval my ey ez ltac:(lia) ltac:(lia)) as Ay.
    destruct (binary_normalize_gval
                (Z.pos (fst (shl_align mx ex ez))
                 + Z.pos (fst (shl_align my ey ez))) ez) as [Hn Hv];
      try lia.
    split; [exact Hn |]. rewrite Hv. do 2 f_equal. cbn [gval].
    rewrite Z.mul_add_distr_r, Ax, Ay. reflexivity.
Qed.

Lemma SFsub_gval (x y : spec_float) :
  valid_binary x = true -> valid_binary y = true ->
  nnf x = true -> nnf y = true -> gval y <= gval x ->
  nn (SFsub prec emax x y) = true
  /\ gval (SFsub prec emax x y) = cap (rnd (gval x - gval y) 1).
Proof.
  intros Vx Vy Nx Ny Hle.
  destruct x as [sx | sx | | sx mx ex]; try discriminate;
  destruct y as [sy | sy | | sy my ey]; try discriminate;
    cbn [SFsub].
  - split; [destruct sx, sy; reflexivity |].
    replace (gval (S754_zero sx) - gval (S754_zero sy)) with 0 by reflexivity.
    rewrite rnd_zero, cap_zero by lia. destruct sx, sy; reflexivity.
  - pose proof (gval_finite_lt_top _ _ _ Vy) as [Hy _].
    cbn [gval] in Hle, Hy. lia.
  - split; [apply nnf_nn, Nx |]. cbn [gval]. rewrite Z.sub_0_r.
    symmetry. apply (rnd_id_cap _ Vx Nx).
  - destruct sx; [discriminate |]. destruct sy; [discriminate |].
    destruct (valid_finite _ _ _ Vx) as (Hex & _).
    destruct (valid_finite _ _ _ Vy) as (Hey & _).
    cbn [cond_Zopp].
    set (ez := Z.min ex ey).
    pose proof (aligned_gval mx ex ez ltac:(lia) ltac:(lia)) as Ax.
    pose proof (aligned_gval my ey ez ltac:(lia) ltac:(lia)) as Ay.
    cbn [gval] in Hle. rewrite <- Ax, <- Ay in Hle.
    pose proof (pow2_pos (ez + 2148) ltac:(lia)) as Pz.
    destruct (binary_normalize_gval
                (Z.pos (fst (shl_align mx ex ez))
                 - Z.pos (fst (shl_align my ey ez))) ez) as [Hn Hv];
      try lia; [nia |].
    split; [exact Hn |]. rewrite Hv. do 2 f_equal. cbn [gval].
    rewrite Z.mul_sub_distr_r, Ax, Ay. reflexivity.
Qed.


(** ** Division *)
Lemma new_location_loc (D P : Z) :
  0 < D -> new_location D (P mod D) = loc P D.
Proof.
  intros HD. pose proof (Z.mod_pos_bound P D HD) as Hr.
  unfold new_location, new_location_even, new_location_odd, loc.
  destruct (Z.even D) eqn:Ev; destruct (Z.eqb_spec (P mod D) 0) as [E | E];
    try reflexivity.
  f_equal.
  assert (Hodd : Z.odd D = true) by (rewrite <- Z.negb_even, Ev; reflexivity).
  apply Z.odd_spec in Hodd. destruct Hodd as [k Hk].
  destruct (Z.compare_spec (2 * (P mod D) + 1) D);
    symmetry;
    first [ apply Z.compare_lt_iff; lia | apply Z.compare_gt_iff; lia ].
Qed.

Lemma div_pow2_lower (a b k : Z) :
  0 < b -> 0 <= k -> 2 ^ k * b <= a -> 2 ^ k <= a / b.
Proof. intros Hb Hk H. apply Z.div_le_lower_bound; lia. Qed.

Lemma shifted_numerator (m s : Z) :
  0 <= s ->
  match s with
  | 0 => m
  | Z.pos _ => Z.shiftl m s
  | Z.neg _ => 0
  end = m * 2 ^ s.
Proof.
  intros Hs. destruct s as [| p | p].
  - change (2 ^ 0) with 1. lia.
  - apply Z.shiftl_mul_pow2. lia.
  - lia.
Qed.

Lemma SFdiv_gval (x y : spec_float) :
  valid_binary x = true -> valid_binary y = true ->
  nnf x = true -> nnf y = true -> 0 < gval y ->
  nn (SFdiv prec emax x y) = true
  /\ gval (SFdiv prec emax x y) = cap (rnd (gval x * scale) (gval y)).
Proof.
  intros Vx Vy Nx Ny Hy.
  destruct y as [sy | sy | | sy my ey]; try discriminate.
  destruct sy; [discriminate |].
  destruct x as [sx | sx | | sx mx ex]; try discriminate; cbn [SFdiv].
  - cbn [gval nn]. rewrite Z.mul_0_l, rnd_zero, cap_zero by exact Hy. auto.
  - destruct sx; [discriminate |]. cbn [xorb].
    destruct (valid_finite _ _ _ Vx) as (Hex & Hdx & _).
    destruct (valid_finite _ _ _ Vy) as (Hey & Hdy & _).
    pose proof (Zdigits2_bounds (Z.pos mx) ltac:(lia)) as [Lx Ux].
    pose proof (Zdigits2_bounds (Z.pos my) ltac:(lia)) as [Ly Uy].
    pose proof (Zdigits2_log2 (Z.pos mx) ltac:(lia)) as Dx.
    pose proof (Zdigits2_log2 (Z.pos my) ltac:(lia)) as Dy.
    pose proof (Z.log2_nonneg (Z.pos mx)).
    pose proof (Z.log2_nonneg (Z.pos my)).
    unfold SFdiv_core_binary. rewrite fexp_eq.
    set (d1 := Zdigits2 (Z.pos mx)) in *.
    set (d2 := Zdigits2 (Z.pos my)) in *.
    set (e' := Z.min (Z.max (d1 + ex - (d2 + ey) - 53) (-1074)) (ex - ey)).
    set (s := ex - ey - e').
    assert (Hs : 0 <= s) by (unfold s, e'; lia).
    set (m' := match s with
               | 0 => Z.pos mx
               | Z.pos _ => Z.shiftl (Z.pos mx) s
               | Z.neg _ => 0
               end).
    assert (Hm' : m' = Z.pos mx * 2 ^ s).
    { unfold m'. apply shifted_numerator, Hs. }
    clearbody m'.
    pose proof (pow2_pos s Hs) as Ps.
    destruct (Z.div_eucl m' (Z.pos my)) as [q r] eqn:Eq.
    assert (Hq : q = m' / Z.pos my) by (unfold Z.div; now rewrite Eq).
    assert (Hr : r = m' mod Z.pos my) by (unfold Z.modulo; now rewrite Eq).
    assert (Hq0 : 0 <= q) by (rewrite Hq; apply Z.div_pos; nia).
    assert (He' : -2148 <= e') by (unfold e'; lia).
    destruct (bra_spec false q e' (new_location (Z.pos my) r) m' (Z.pos my))
      as [Hsg Hv]; try lia.
    + rewrite Hr. apply new_location_loc. lia.
    + (* the quotient has enough digits *)
      rewrite fexp_eq.
      destruct (Z.le_gt_cases e' (-1074)) as [Hsub | Hnorm]; [lia |].
      assert (Hsk : 53 <= d1 - 1 + s - d2 + 1) by (unfold s, e' in *; lia).
      set (k := d1 - 1 + s - d2) in *.
      assert (Hk : 2 ^ k <= q).
      { rewrite Hq. apply div_pow2_lower; [lia | lia |].
        apply Z.le_trans with (2 ^ (d1 - 1 + s)).
        - replace (d1 - 1 + s) with (k + d2) by (unfold k; lia).
          rewrite pow2_add by lia.
          apply Z.mul_le_mono_nonneg_l; [apply Z.pow_nonneg; lia | lia].
        - rewrite Hm', pow2_add by lia.
          apply Z.mul_le_mono_nonneg_r; lia. }
      pose proof (pow2_pos k ltac:(lia)).
      pose proof (Zdigits2_log2 q ltac:(lia)) as Dq.
      assert (k <= Z.log2 q) by (apply Z.log2_le_pow2; lia).
      unfold k, s, e' in *. lia.
    + (* a zero quotient is a subnormal one *)
      intros Hz. rewrite Hz in Hq. symmetry in Hq.
      apply Z.div_small_iff in Hq; [| lia].
      destruct Hq as [Hq | Hq]; [| lia].
      assert (Hlt : 2 ^ (d1 - 1 + s) < 2 ^ d2).
      { apply Z.le_lt_trans with m'; [| lia].
        rewrite Hm', pow2_add by lia.
        apply Z.mul_le_mono_nonneg_r; lia. }
      apply Z.pow_lt_mono_r_iff in Hlt; [| lia | lia].
      unfold s, e' in *. lia.
    + split; [apply nn_of_sign, Hsg |]. rewrite Hv. f_equal.
      cbn [gval].
      pose proof (pow2_pos (ey + 2148) ltac:(lia)) as Py.
      rewrite <- (rnd_scale (m' * 2 ^ (e' + 2148)) (Z.pos my)
                    (2 ^ (ey + 2148))); try lia.
      f_equal. rewrite Hm'. unfold scale.
      rewrite <- !Z.mul_assoc, <- !pow2_add by lia.
      do 2 f_equal. unfold s. lia.
Qed.

End SFArith.

(** ** Primitive floats: order and monotonicity *)

Module F64.

Import Rounding ShiftRight RoundAux SFOrder SFArith.
Local Open Scope Z_scope.

(** The value of a float in units of [2 ^ -2148], and the floats the
    lemmas below are about: the zeros and the positive finite floats. *)
Definition fval (x : float) : Z := gval (Prim2SF x).
Definition fin (x : float) : bool := nnf (Prim2SF x).

Lemma fval_nonneg (x : float) : 0 <= fval x.
Proof. apply gval_nonneg. Qed.

Lemma fin_lt_top (x : float) : fin x = true -> fval x < top.
Proof.
  unfold fin, fval. pose proof (Prim2SF_valid x) as V.
  destruct (Prim2SF x) as [s | s | | s m e]; try discriminate; intros _.
  - reflexivity.
  - apply (gval_finite_lt_top s m e V).
Qed.

Lemma fin_of_nn (x : float) :
  nn (Prim2SF x) = true -> fval x < top -> fin x = true.
Proof.
  unfold fin, fval. destruct (Prim2SF x) as [s | [] | | [] m e];
    cbn [nn nnf gval]; intros H1 H2; try reflexivity; try discriminate; lia.
Qed.

Lemma compare_fval (x y : float) :
  fin x = true -> fin y = true ->
  SFcompare (Prim2SF x) (Prim2SF y) = Some (fval x ?= fval y).
Proof.
  intros Hx Hy. apply compare_gval; auto using Prim2SF_valid.
Qed.

Lemma leb_fval (x y : float) :
  fin x = true -> fin y = true -> PrimFloat.leb x y = (fval x <=? fval y).
Proof.
  intros Hx Hy. rewrite FloatAxioms.leb_spec. unfold SFleb.
  rewrite (compare_fval x y Hx Hy). unfold Z.leb.
  destruct (fval x ?= fval y); reflexivity.
Qed.

Lemma ltb_fval (x y : float) :
  fin x = true -> fin y = true -> PrimFloat.ltb x y = (fval x <? fval y).
Proof.
  intros Hx Hy. rewrite FloatAxioms.ltb_spec. unfold SFltb.
  rewrite (compare_fval x y Hx Hy). unfold Z.ltb.
  destruct (fval x ?= fval y); reflexivity.
Qed.

Lemma eqb_fval (x y : float) :
  fin x = true -> fin y = true -> PrimFloat.eqb x y = (fval x =? fval y).
Proof.
  intros Hx Hy. rewrite FloatAxioms.eqb_spec. unfold SFeqb.
  rewrite (compare_fval x y Hx Hy).
  destruct (Z.compare_spec (fval x) (fval y)) as [E | E | E];
    symmetry; [apply Z.eqb_eq | apply Z.eqb_neq | apply Z.eqb_neq]; lia.
Qed.

Lemma leb_le (x y : float) :
  fin x = true -> fin y = true ->
  PrimFloat.leb x y = true <-> fval x <= fval y.
Proof. intros Hx Hy. rewrite (leb_fval x y Hx Hy). apply Z.leb_le. Qed.

(** Two positive floats of the same value are the same float. *)
Lemma fval_inj (x y : float) :
  fin x = true -> fin y = true -> 0 < fval x -> fval x = fval y -> x = y.
Proof.
  intros Hx Hy Hp E. apply Prim2SF_inj.
  pose proof (compare_fval x y Hx Hy) as C.
  rewrite E, Z.compare_refl in C. rewrite E in Hp.
  unfold fin, fval in *.
  destruct (Prim2SF x) as [sx | sx | | sx mx ex]; try discriminate;
  destruct (Prim2SF y) as [sy | sy | | sy my ey]; try discriminate;
    cbn [gval] in *; try lia.
  destruct sx; [discriminate |]. destruct sy; [discriminate |].
  cbn [SFcompare] in C. injection C as C.
  destruct (Z.compare_spec ex ey); try discriminate. subst ey.
  apply Pos.compare_eq in C. now subst.
Qed.

(** ** Monotonicity of the operations *)

Ltac valid := auto using Prim2SF_valid.

Lemma mul_mono (x y x' y' : float) :
  fin x = true -> fin y = true -> fin x' = true -> fin y' = true ->
  fval x <= fval x' -> fval y <= fval y' ->
  fin (x' * y') = true ->
  fin (x * y) = true /\ fval (x * y) <= fval (x' * y').
Proof.
  intros Hx Hy Hx' Hy' Lx Ly Hfin.
  destruct (SFmul_gval (Prim2SF x) (Prim2SF y)) as [N V]; valid.
  destruct (SFmul_gval (Prim2SF x') (Prim2SF y')) as [N' V']; valid.
  fold (fval x) (fval y) in V. fold (fval x') (fval y') in V'.
  change (SFmul prec emax) with SF64mul in *.
  rewrite <- FloatAxioms.mul_spec in N, V, N', V'. fold (fval (x * y)) in V.
  fold (fval (x' * y')) in V'.
  pose proof (fval_nonneg x). pose proof (fval_nonneg y).
  assert (Hle : fval (x * y) <= fval (x' * y')).
  { rewrite V, V'. unfold cap. apply Z.min_le_compat_r.
    apply rnd_mono_num; [nia | apply scale_pos |].
    apply Z.mul_le_mono_nonneg; lia. }
  split; [| exact Hle].
  apply fin_of_nn; [exact N |]. pose proof (fin_lt_top _ Hfin). lia.
Qed.

Lemma add_mono (x y x' y' : float) :
  fin x = true -> fin y = true -> fin x' = true -> fin y' = true ->
  fval x <= fval x' -> fval y <= fval y' ->
  fin (x' + y') = true ->
  fin (x + y) = true /\ fval (x + y) <= fval (x' + y').
Proof.
  intros Hx Hy Hx' Hy' Lx Ly Hfin.
  destruct (SFadd_gval (Prim2SF x) (Prim2SF y)) as [N V]; valid.
  destruct (SFadd_gval (Prim2SF x') (Prim2SF y')) as [N' V']; valid.
  fold (fval x) (fval y) in V. fold (fval x') (fval y') in V'.
  change (SFadd prec emax) with SF64add in *.
  rewrite <- FloatAxioms.add_spec in N, V, N', V'. fold (fval (x + y)) in V.
  fold (fval (x' + y')) in V'.
  pose proof (fval_nonneg x). pose proof (fval_nonneg y).
  assert (Hle : fval (x + y) <= fval (x' + y')).
  { rewrite V, V'. unfold cap. apply Z.min_le_compat_r.
    apply rnd_mono; lia. }
  split; [| exact Hle].
  apply fin_of_nn; [exact N |]. pose proof (fin_lt_top _ Hfin). lia.
Qed.

Lemma sub_mono (x y x' y' : float) :
  fin x = true -> fin y = true -> fin x' = true -> fin y' = true ->
  fval x <= fval x' -> fval y' <= fval y -> fval y <= fval x ->
  fin (x' - y') = true ->
  fin (x - y) = true /\ fval (x - y) <= fval (x' - y').
Proof.
  intros Hx Hy Hx' Hy' Lx Ly Lxy Hfin.
  destruct (SFsub_gval (Prim2SF x) (Prim2SF y)) as [N V]; valid.
  destruct (SFsub_gval (Prim2SF x') (Prim2SF y')) as [N' V']; valid.
  { unfold fval in *. lia. }
  fold (fval x) (fval y) in V. fold (fval x') (fval y') in V'.
  change (SFsub prec emax) with SF64sub in *.
  rewrite <- FloatAxioms.sub_spec in N, V, N', V'. fold (fval (x - y)) in V.
  fold (fval (x' - y')) in V'.
  assert (Hle : fval (x - y) <= fval (x' - y')).
  { rewrite V, V'. unfold cap. apply Z.min_le_compat_r.
    apply rnd_mono; lia. }
  split; [| exact Hle].
  apply fin_of_nn; [exact N |]. pose proof (fin_lt_top _ Hfin). lia.
Qed.

Lemma div_cross (x y x' y' : float) :
  fin x = true -> fin y = true -> fin x' = true -> fin y' = true ->
  0 < fval y -> 0 < fval y' ->
  fval x * fval y' <= fval x' * fval y ->
  fin (x' / y') = true ->
  fin (x / y) = true /\ fval (x / y) <= fval (x' / y').
Proof.
  intros Hx Hy Hx' Hy' Py Py' Lc Hfin.
  destruct (SFdiv_gval (Prim2SF x) (Prim2SF y)) as [N V]; valid.
  destruct (SFdiv_gval (Prim2SF x') (Prim2SF y')) as [N' V']; valid.
  fold (fval x) (fval y) in V. fold (fval x') (fval y') in V'.
  change (SFdiv prec emax) with SF64div in *.
  rewrite <- FloatAxioms.div_spec in N, V, N', V'. fold (fval (x / y)) in V.
  fold (fval (x' / y')) in V'.
  pose proof (fval_nonneg x).
  assert (Hle : fval (x / y) <= fval (x' / y')).
  { rewrite V, V'. unfold cap. apply Z.min_le_compat_r.
    apply rnd_mono_cross; auto using scale_pos. }
  split; [| exact Hle].
  apply fin_of_nn; [exact N |]. pose proof (fin_lt_top _ Hfin). lia.
Qed.

Lemma div_mono (x y x' y' : float) :
  fin x = true -> fin y = true -> fin x' = true -> fin y' = true ->
  fval x <= fval x' -> 0 < fval y' -> fval y' <= fval y ->
  fin (x' / y') = true ->
  fin (x / y) = true /\ fval (x / y) <= fval (x' / y').
Proof.
  intros Hx Hy Hx' Hy' Lx Py' Ly Hfin.
  pose proof (fval_nonneg x).
  apply div_cross; auto; try lia. nia.
Qed.

End F64.

(** Facts about float literals are settled by evaluation. *)
Ltac closed := vm_compute; first [reflexivity | discriminate].

Module FloatBool.

Import Rounding ShiftRight RoundAux SFOrder SFArith F64.
Local Open Scope Z_scope.
Local Open Scope float_scope.

Lemma fin_not_infinity (x : float) : fin x = true -> is_infinity x = false.
Proof.
  unfold fin, is_infinity. rewrite FloatAxioms.eqb_spec, FloatAxioms.abs_spec.
  change (Prim2SF infinity) with (S754_infinity false).
  destruct (Prim2SF x) as [s | s | | s m e]; try discriminate; reflexivity.
Qed.

Lemma fin_not_nan (x : float) : fin x = true -> is_nan x = false.
Proof.
  intros H. unfold is_nan. rewrite (eqb_fval x x H H), Z.eqb_refl.
  reflexivity.
Qed.

(** A float between [0] and a finite bound is finite and non-negative. *)
Lemma fin_of_bounds (x hi : float) :
  (0 <=? x) = true -> (x <=? hi) = true -> fin hi = true -> fin x = true.
Proof.
  unfold fin. rewrite !FloatAxioms.leb_spec. unfold SFleb.
  change (Prim2SF 0) with (S754_zero false).
  destruct (Prim2SF x) as [s | [] | | [] m e]; try reflexivity;
    try discriminate.
  destruct (Prim2SF hi) as [s' | [] | | [] m' e']; discriminate.
Qed.

Lemma leb_of_fval (x y : float) :
  fin x = true -> fin y = true -> (fval x <= fval y)%Z -> (x <=? y) = true.
Proof. intros Hx Hy H. now apply leb_le. Qed.

Lemma fval_of_leb (x y : float) :
  fin x = true -> fin y = true -> (x <=? y) = true -> (fval x <= fval y)%Z.
Proof. intros Hx Hy H. now apply leb_le. Qed.

(** A float between two non-negative finite floats is one too. *)
Lemma fin_between (lo hi x : float) :
  fin lo = true -> fin hi = true ->
  (lo <=? x) = true -> (x <=? hi) = true -> fin x = true.
Proof.
  unfold fin. rewrite !FloatAxioms.leb_spec. unfold SFleb.
  destruct (Prim2SF x) as [s | [] | | [] m e]; try reflexivity;
    destruct (Prim2SF lo) as [s1 | [] | | [] m1 e1]; try discriminate;
    destruct (Prim2SF hi) as [s2 | [] | | [] m2 e2]; discriminate.
Qed.

Local Close Scope float_scope.

Definition is_finite_float (x : float) : bool :=
  match Prim2SF x with
  | S754_zero _ | S754_finite _ _ _ => true
  | _ => false
  end.

Lemma Qtruncate_frac (n : Z) (d : positive) :
  Qtruncate (n # d) = if (0 <=? n)%Z then n / Z.pos d else - (- n / Z.pos d).
Proof.
  unfold Qtruncate, Qle_bool, Qceiling, Qfloor. cbn [Qnum Qden Qopp].
  rewrite Z.mul_1_r. reflexivity.
Qed.

(** [int(x)] is the truncation of the exact value of [x]. *)
Lemma int_of_float_truncates (x : float) :
  is_finite_float x = true -> Py.int_of_float x = Ok (Qtruncate (F2Q x)).
Proof.
  unfold is_finite_float, Py.int_of_float, F2Q.
  destruct (Prim2SF x) as [s | s | | s m e]; try discriminate; intros _.
  - reflexivity.
  - f_equal.
    destruct (Z.leb_spec 0 e) as [He | He].
    + rewrite Z.shiftl_mul_pow2 by lia.
      assert (0 < 2 ^ e) by (apply Z.pow_pos_nonneg; lia).
      unfold inject_Z. rewrite Qtruncate_frac, !Z.div_1_r.
      destruct s; cbn [cond_Zopp];
        match goal with |- context [(0 <=? ?n)%Z] =>
          destruct (Z.leb_spec 0 n) end; lia.
    + rewrite Z.shiftl_div_pow2 by lia.
      rewrite Qtruncate_frac, Pos2Z.inj_pow, Z2Pos.id by lia.
      destruct s; cbn [cond_Zopp].
      * destruct (Z.leb_spec 0 (- Z.pos m)); [lia |].
        rewrite Z.opp_involutive. reflexivity.
      * reflexivity.
Qed.

Lemma fin_is_finite (x : float) : fin x = true -> is_finite_float x = true.
Proof.
  unfold fin, is_finite_float.
  destruct (Prim2SF x) as [s | s | | s m e]; try discriminate; reflexivity.
Qed.

(** On a non-negative float, [int] is the floor of the value. *)
Lemma int_of_float_fin (x : float) :
  fin x = true -> Py.int_of_float x = Ok (fval x / 2 ^ 2148).
Proof.
  unfold fin, fval, Py.int_of_float. pose proof (Prim2SF_valid x) as V.
  destruct (Prim2SF x) as [s | s | | s m e]; try discriminate; intros N.
  - reflexivity.
  - destruct s; [discriminate |]. cbn [cond_Zopp gval]. f_equal.
    destruct (valid_finite _ _ _ V) as (He & _).
    assert (P : 0 < 2 ^ 2148) by (apply pow2_pos; lia).
    destruct (Z.le_gt_cases 0 e) as [Hp | Hn].
    + rewrite Z.shiftl_mul_pow2, pow2_add, Z.mul_assoc, Z.div_mul by lia.
      reflexivity.
    + rewrite Z.shiftl_div_pow2 by lia.
      replace (2 ^ 2148) with (2 ^ (- e) * 2 ^ (e + 2148))
        by (rewrite <- pow2_add by lia; f_equal; lia).
      rewrite Z.div_mul_cancel_r; [reflexivity | |];
        apply Z.neq_sym, Z.lt_neq, pow2_pos; lia.
Qed.

End FloatBool.

(** * The luminance code under the assumptions on [pow] *)

Module Luminance.

Import F64 FloatBool.
Local Open Scope Z_scope.
Local Open Scope float_scope.

(** What evaluation shows of [adjust] on one channel value: the conversion
    does not overflow; up to 10 the linear branch is taken, and its result
    is in [0, 1]; from 11 on the power branch is taken with a positive
    finite base, which is 1 exactly for 255. *)
Definition adjust_case (c : Z) : bool :=
  let f := Py.nearest_float c in
  negb (is_infinity f)
  && (if f / 255.0 <=? 0.03928 then
        (c <=? 10)%Z && fin (f / 255.0 / 12.92)
        && (f / 255.0 / 12.92 <=? 1)
      else
        let b := pow_base c in
        (11 <=? c)%Z && negb (is_nan b) && negb (is_infinity b)
        && negb (b =? 0) && negb (b <? 0)
        && (if b =? 1 then (c =? 255)%Z else (c <=? 254)%Z)).

Lemma adjust_case_all (c : Z) : is_channel c -> adjust_case c = true.
Proof. revert c. apply forall_channel. vm_compute. reflexivity. Qed.

Section WithPow.

Variable libm_pow : float -> float -> float.

(** [x ** 2.4] for a positive finite [x]. *)
Lemma float_pow_positive (x : float) :
  is_nan x = false -> is_infinity x = false ->
  (x =? 0) = false -> (x <? 0) = false ->
  Py.float_pow libm_pow x 2.4 =
    if x =? 1 then Ok 1
    else if is_infinity (libm_pow x 2.4) then Raise OverflowError
         else Ok (libm_pow x 2.4).
Proof.
  intros H1 H2 H3 H4. unfold Py.float_pow.
  change (2.4 =? 0) with false. change (is_nan 2.4) with false.
  change (is_infinity 2.4) with false. cbv iota.
  rewrite H1, H2, H3, H4. cbn [andb]. reflexivity.
Qed.

(** From 11 to 254, [adjust] is the C library's [pow] at the channel's
    base, when that is finite. *)
Lemma adjust_pow_branch (c : Z) :
  (11 <= c <= 254)%Z -> fin (libm_pow (pow_base c) 2.4) = true ->
  adjust libm_pow c = Ok (libm_pow (pow_base c) 2.4).
Proof.
  intros Hc Pf.
  pose proof (adjust_case_all c ltac:(unfold is_channel; lia)) as H.
  unfold adjust_case in H. apply andb_true_iff in H as [Hinf H].
  unfold adjust, Py.float_of_int.
  destruct (is_infinity (Py.nearest_float c)); [discriminate |].
  cbn [bind].
  destruct (Py.nearest_float c / 255.0 <=? 0.03928).
  - apply andb_true_iff in H as [H _]. apply andb_true_iff in H as [H _].
    apply Z.leb_le in H. lia.
  - fold (pow_base c). cbv zeta in H.
    repeat (apply andb_true_iff in H as [H ?]).
    rewrite float_pow_positive by (apply negb_true_iff; assumption).
    destruct (pow_base c =? 1).
    + apply Z.eqb_eq in H0. lia.
    + now rewrite (fin_not_infinity _ Pf).
Qed.

Hypothesis pow_unit : pow_in_unit_range libm_pow.

Lemma adjust_range (c : Z) :
  is_channel c ->
  exists v : float,
    adjust libm_pow c = Ok v /\ fin v = true /\ (fval v <= fval 1)%Z.
Proof.
  intros Hc. pose proof (adjust_case_all c Hc) as H.
  unfold adjust_case in H. apply andb_true_iff in H as [Hinf H].
  unfold adjust, Py.float_of_int.
  destruct (is_infinity (Py.nearest_float c)); [discriminate |].
  cbn [bind].
  destruct (Py.nearest_float c / 255.0 <=? 0.03928).
  - apply andb_true_iff in H as [H Hle]. apply andb_true_iff in H as [_ Hf].
    eexists. split; [reflexivity |]. split; [exact Hf |].
    apply fval_of_leb; auto.
  - fold (pow_base c). cbv zeta in H.
    repeat (apply andb_true_iff in H as [H ?]).
    rewrite float_pow_positive by (apply negb_true_iff; assumption).
    destruct (pow_base c =? 1).
    + exists 1. split; [reflexivity | split; [reflexivity | apply Z.le_refl]].
    + destruct (pow_unit c) as [P0 P1].
      { apply Z.leb_le in H, H0. lia. }
      assert (Pf : fin (libm_pow (pow_base c) 2.4) = true)
        by (apply (fin_of_bounds _ 1 P0 P1); reflexivity).
      rewrite (fin_not_infinity _ Pf).
      eexists. split; [reflexivity |]. split; [exact Pf |].
      apply fval_of_leb; auto.
Qed.


Lemma luminance_range (r g b : Z) :
  is_channel r -> is_channel g -> is_channel b ->
  exists l : float,
    rgb_to_luminance libm_pow r g b = Ok l
    /\ fin l = true /\ (fval l <= fval 1)%Z.
Proof.
  intros Hr Hg Hb. unfold rgb_to_luminance.
  destruct (adjust_range r Hr) as (x & -> & Fx & Lx).
  destruct (adjust_range g Hg) as (y & -> & Fy & Ly).
  destruct (adjust_range b Hb) as (z & -> & Fz & Lz).
  cbn [bind]. eexists. split; [reflexivity |].
  destruct (mul_mono 0.2126 x 0.2126 1 ltac:(closed) Fx ltac:(closed)
              ltac:(closed) (Z.le_refl _) Lx ltac:(closed)) as [F1 L1].
  destruct (mul_mono 0.7152 y 0.7152 1 ltac:(closed) Fy ltac:(closed)
              ltac:(closed) (Z.le_refl _) Ly ltac:(closed)) as [F2 L2].
  destruct (mul_mono 0.0722 z 0.0722 1 ltac:(closed) Fz ltac:(closed)
              ltac:(closed) (Z.le_refl _) Lz ltac:(closed)) as [F3 L3].
  destruct (add_mono (0.2126 * x) (0.7152 * y) (0.2126 * 1) (0.7152 * 1)
              F1 F2 ltac:(closed) ltac:(closed) L1 L2 ltac:(closed))
    as [F4 L4].
  destruct (add_mono (0.2126 * x + 0.7152 * y) (0.0722 * z)
              (0.2126 * 1 + 0.7152 * 1) (0.0722 * 1)
              F4 F3 ltac:(closed) ltac:(closed) L4 L3 ltac:(closed))
    as [F5 L5].
  split; [exact F5 |].
  eapply Z.le_trans; [exact L5 |]. closed.
Qed.

(** The ratio of two luminances in [0, 1], whatever their order. *)
Lemma ratio_of_luminances (l1 l2 : float) :
  fin l1 = true -> fin l2 = true ->
  (fval l1 <= fval 1)%Z -> (fval l2 <= fval 1)%Z ->
  exists ratio : float,
    Py.truediv (Py.max l1 l2 + 0.05) (Py.min l1 l2 + 0.05) = Ok ratio
    /\ Py.truediv (Py.max l2 l1 + 0.05) (Py.min l2 l1 + 0.05) = Ok ratio
    /\ fin ratio = true
    /\ (fval 1 <= fval ratio <= fval 21)%Z.
Proof.
  intros F1 F2 L1 L2.
  (* the lighter and the darker, in either order *)
  assert (Hhl : exists hi lo hi' lo' : float,
             Py.max l1 l2 = hi /\ Py.min l1 l2 = lo
             /\ Py.max l2 l1 = hi' /\ Py.min l2 l1 = lo'
             /\ fin hi = true /\ fin lo = true
             /\ fin hi' = true /\ fin lo' = true
             /\ (fval lo <= fval hi)%Z /\ (fval hi <= fval 1)%Z
             /\ (fval hi' <= fval hi)%Z /\ (fval hi <= fval hi')%Z
             /\ (fval lo' <= fval lo)%Z /\ (fval lo <= fval lo')%Z).
  { unfold Py.max, Py.min.
    rewrite (ltb_fval l1 l2 F1 F2), (ltb_fval l2 l1 F2 F1).
    generalize dependent (fval 1). intros one L1 L2.
    destruct (Z.ltb_spec (fval l1) (fval l2));
      destruct (Z.ltb_spec (fval l2) (fval l1)); try lia;
      do 4 eexists; repeat split; try reflexivity; try assumption; lia. }
  destruct Hhl as (hi & lo & hi' & lo' & -> & -> & -> & ->
                   & Fh & Fl & Fh' & Fl' & Llh & Lh1 & Eh1 & Eh2 & El1 & El2).
  (* numerators and denominators *)
  assert (F05 : fin 0.05 = true) by closed.
  assert (R05 : (fval 0.05 <= fval 0.05)%Z) by apply Z.le_refl.
  destruct (add_mono hi 0.05 1 0.05 Fh F05 ltac:(closed) F05 Lh1 R05
              ltac:(closed)) as [Fn Ln].
  destruct (add_mono lo 0.05 hi 0.05 Fl F05 Fh F05 Llh R05 Fn) as [Fd Ld].
  destruct (add_mono 0 0.05 lo 0.05 ltac:(closed) F05 Fl F05
              (fval_nonneg lo) R05 Fd) as [_ Ld0].
  destruct (add_mono hi' 0.05 hi 0.05 Fh' F05 Fh F05 Eh1 R05 Fn)
    as [Fn' Ln1].
  destruct (add_mono hi 0.05 hi' 0.05 Fh F05 Fh' F05 Eh2 R05 Fn')
    as [_ Ln2].
  destruct (add_mono lo' 0.05 lo 0.05 Fl' F05 Fl F05 El1 R05 Fd)
    as [Fd' Ld1].
  destruct (add_mono lo 0.05 lo' 0.05 Fl F05 Fl' F05 El2 R05 Fd')
    as [_ Ld2].
  assert (P05 : (0 < fval (0 + 0.05))%Z) by closed.
  assert (Pd : (0 < fval (lo + 0.05))%Z)
    by (eapply Z.lt_le_trans; [exact P05 | exact Ld0]).
  assert (En : hi' + 0.05 = hi + 0.05).
  { apply fval_inj; try assumption.
    - eapply Z.lt_le_trans; [exact Pd |].
      eapply Z.le_trans; [exact Ld | exact Ln2].
    - apply Z.le_antisymm; assumption. }
  assert (Ed : lo' + 0.05 = lo + 0.05).
  { apply fval_inj; try assumption.
    - eapply Z.lt_le_trans; [exact Pd | exact Ld2].
    - apply Z.le_antisymm; assumption. }
  rewrite En, Ed.
  unfold Py.truediv.
  rewrite (eqb_fval (lo + 0.05) 0 Fd ltac:(closed)).
  replace (fval (lo + 0.05) =? fval 0)%Z with false
    by (symmetry; apply Z.eqb_neq; change (fval 0) with 0%Z;
        apply Z.neq_sym, Z.lt_neq, Pd).
  destruct (div_mono (hi + 0.05) (lo + 0.05) (1 + 0.05) (0 + 0.05)
              Fn Fd ltac:(closed) ltac:(closed) Ln P05 Ld0 ltac:(closed))
    as [Fr Lr].
  destruct (div_cross 1 1 (hi + 0.05) (lo + 0.05)
              ltac:(closed) ltac:(closed) Fn Fd ltac:(closed) Pd) as [_ Lr1].
  { rewrite (Z.mul_comm (fval (hi + 0.05))).
    apply Z.mul_le_mono_nonneg_l; [closed | exact Ld]. }
  { exact Fr. }
  exists ((hi + 0.05) / (lo + 0.05)).
  split; [reflexivity |]. split; [reflexivity |]. split; [exact Fr |].
  split.
  - eapply Z.le_trans; [| exact Lr1]. closed.
  - eapply Z.le_trans; [exact Lr |]. closed.
Qed.

End WithPow.

End Luminance.

(** * The range and the symmetry of the contrast ratio *)

Section Contrast.

Import F64 FloatBool Luminance.
Local Open Scope float_scope.

Variable libm_pow : float -> float -> float.
Hypothesis pow_unit : pow_in_unit_range libm_pow.

Lemma contrast_ratio_triples (a b : color) :
  is_color a -> is_color b ->
  exists ratio : float,
    contrast_ratio libm_pow (Triple a) (Triple b) = Ok ratio
    /\ contrast_ratio libm_pow (Triple b) (Triple a) = Ok ratio
    /\ fin ratio = true
    /\ (fval 1 <= fval ratio <= fval 21)%Z.
Proof.
  destruct a as [[r1 g1] b1], b as [[r2 g2] b2].
  intros (Hr1 & Hg1 & Hb1) (Hr2 & Hg2 & Hb2).
  destruct (luminance_range libm_pow pow_unit r1 g1 b1 Hr1 Hg1 Hb1)
    as (l1 & E1 & F1 & L1).
  destruct (luminance_range libm_pow pow_unit r2 g2 b2 Hr2 Hg2 Hb2)
    as (l2 & E2 & F2 & L2).
  unfold contrast_ratio. cbn [resolve bind]. rewrite E1, E2. cbn [bind].
  apply ratio_of_luminances; assumption.
Qed.

(** C3: the contrast ratio of two Colors lies in [1, 21]. *)
Theorem contrast_ratio_range (a b : color) :
  is_color a -> is_color b ->
  exists ratio : float,
    contrast_ratio libm_pow (Triple a) (Triple b) = Ok ratio
    /\ (1 <=? ratio) = true /\ (ratio <=? 21) = true.
Proof.
  intros Ha Hb.
  destruct (contrast_ratio_triples a b Ha Hb) as (r & E & _ & F & L1 & L2).
  exists r. split; [exact E |].
  split; apply leb_of_fval; try assumption; reflexivity.
Qed.

(** C5: the contrast ratio does not depend on the order of its arguments:
    both orders return the same float, which is equal to itself. *)
Theorem contrast_ratio_symmetric (a b : color) :
  is_color a -> is_color b ->
  exists r1 r2 : float,
    contrast_ratio libm_pow (Triple a) (Triple b) = Ok r1
    /\ contrast_ratio libm_pow (Triple b) (Triple a) = Ok r2
    /\ r1 = r2 /\ (r1 =? r2) = true.
Proof.
  intros Ha Hb.
  destruct (contrast_ratio_triples a b Ha Hb) as (r & E1 & E2 & F & _).
  exists r, r. repeat split; try assumption.
  rewrite (eqb_fval r r F F). apply Z.eqb_refl.
Qed.

End Contrast.

Import Luminance.
Local Open Scope float_scope.

(** The assumption on [pow], checked on the stand-in. *)
Definition pow_unit_checked (pow : float -> float -> float) (c : Z) : bool :=
  (c <? 11)%Z || (254 <? c)%Z
  || ((0 <=? pow (pow_base c) 2.4) && (pow (pow_base c) 2.4 <=? 1)).

Lemma pow_in_unit_range_checked (pow : float -> float -> float) :
  forallb (pow_unit_checked pow) channels = true -> pow_in_unit_range pow.
Proof.
  intros H c Hc.
  pose proof (forall_channel _ H c ltac:(unfold is_channel; lia)) as Hp.
  unfold pow_unit_checked in Hp.
  destruct (Z.ltb_spec c 11); [lia |].
  destruct (Z.ltb_spec 254 c); [lia |].
  cbn [orb] in Hp. now apply andb_true_iff in Hp.
Qed.

Lemma ref_pow_in_unit_range : pow_in_unit_range RefPow.pow.
Proof. apply pow_in_unit_range_checked. vm_compute. reflexivity. Qed.

Lemma contrast_ratio_range_witness :
  exists ratio : float,
    contrast_ratio RefPow.pow (Triple (255, 255, 255)%Z)
      (Triple (39, 174, 96)%Z) = Ok ratio
    /\ (1 <=? ratio) = true /\ (ratio <=? 21) = true.
Proof.
  apply (contrast_ratio_range RefPow.pow ref_pow_in_unit_range);
    unfold is_color, is_channel; lia.
Defined.

Lemma contrast_ratio_symmetric_witness :
  exists r1 r2 : float,
    contrast_ratio RefPow.pow (Triple (255, 255, 255)%Z)
      (Triple (39, 174, 96)%Z) = Ok r1
    /\ contrast_ratio RefPow.pow (Triple (39, 174, 96)%Z)
         (Triple (255, 255, 255)%Z) = Ok r2
    /\ r1 = r2 /\ (r1 =? r2) = true.
Proof.
  apply (contrast_ratio_symmetric RefPow.pow ref_pow_in_unit_range);
    unfold is_color, is_channel; lia.
Defined.

(** * White on the green of the status page *)

Lemma brackets_enclose_power :
  bracket_encloses 39 0.02028856304 0.02028856307 = true
  /\ bracket_encloses 174 0.4232676699 0.4232676701 = true
  /\ bracket_encloses 96 0.1169706677 0.1169706678 = true.
Proof. vm_compute. repeat split. Qed.

Section Green.

Import F64 FloatBool Luminance.
Local Open Scope float_scope.

Variable libm_pow : float -> float -> float.

Hypothesis pow_green : pow_accurate_on_green libm_pow.

(** C2, as the code has it: white on [#27ae60] has a contrast ratio that is
    reported as 2.87, and the AA-large check [ratio >= 3.0] fails. *)
Theorem contrast_white_on_green :
  exists ratio : float,
    contrast_ratio libm_pow (HexStr "#ffffff") (HexStr "#27ae60") = Ok ratio
    /\ (2.865 <=? ratio) = true /\ (ratio <? 2.875) = true
    /\ (3.0 <=? ratio) = false.
Proof.
  destruct pow_green as ([R1 R2] & [G1 G2] & [B1 B2]).
  set (pr := libm_pow (pow_base 39) 2.4) in *.
  set (pg := libm_pow (pow_base 174) 2.4) in *.
  set (pb := libm_pow (pow_base 96) 2.4) in *.
  set (rlo := 0.02028856304) in *. set (rhi := 0.02028856307) in *.
  set (glo := 0.4232676699) in *. set (ghi := 0.4232676701) in *.
  set (blo := 0.1169706677) in *. set (bhi := 0.1169706678) in *.
  assert (Fr : fin pr = true) by (apply (fin_between rlo rhi); auto; closed).
  assert (Fg : fin pg = true) by (apply (fin_between glo ghi); auto; closed).
  assert (Fb : fin pb = true) by (apply (fin_between blo bhi); auto; closed).
  apply fval_of_leb in R1; [| closed | exact Fr].
  apply fval_of_leb in R2; [| exact Fr | closed].
  apply fval_of_leb in G1; [| closed | exact Fg].
  apply fval_of_leb in G2; [| exact Fg | closed].
  apply fval_of_leb in B1; [| closed | exact Fb].
  apply fval_of_leb in B2; [| exact Fb | closed].
  (* the luminance of the green *)
  set (l := 0.2126 * pr + 0.7152 * pg + 0.0722 * pb).
  set (llo := 0.2126 * rlo + 0.7152 * glo + 0.0722 * blo).
  set (lhi := 0.2126 * rhi + 0.7152 * ghi + 0.0722 * bhi).
  assert (Hl : fin l = true /\ (fval llo <= fval l)%Z
               /\ (fval l <= fval lhi)%Z).
  { assert (c1 : fin 0.2126 = true) by closed.
    assert (c2 : fin 0.7152 = true) by closed.
    assert (c3 : fin 0.0722 = true) by closed.
    destruct (mul_mono 0.2126 pr 0.2126 rhi c1 Fr c1 ltac:(closed)
                (Z.le_refl _) R2 ltac:(closed)) as [M1 U1].
    destruct (mul_mono 0.7152 pg 0.7152 ghi c2 Fg c2 ltac:(closed)
                (Z.le_refl _) G2 ltac:(closed)) as [M2 U2].
    destruct (mul_mono 0.0722 pb 0.0722 bhi c3 Fb c3 ltac:(closed)
                (Z.le_refl _) B2 ltac:(closed)) as [M3 U3].
    destruct (mul_mono 0.2126 rlo 0.2126 pr c1 ltac:(closed) c1 Fr
                (Z.le_refl _) R1 M1) as [N1 D1].
    destruct (mul_mono 0.7152 glo 0.7152 pg c2 ltac:(closed) c2 Fg
                (Z.le_refl _) G1 M2) as [N2 D2].
    destruct (mul_mono 0.0722 blo 0.0722 pb c3 ltac:(closed) c3 Fb
                (Z.le_refl _) B1 M3) as [N3 D3].
    destruct (add_mono (0.2126 * pr) (0.7152 * pg)
                (0.2126 * rhi) (0.7152 * ghi)
                M1 M2 ltac:(closed) ltac:(closed) U1 U2
                ltac:(closed)) as [M4 U4].
    destruct (add_mono (0.2126 * pr + 0.7152 * pg) (0.0722 * pb)
                (0.2126 * rhi + 0.7152 * ghi) (0.0722 * bhi)
                M4 M3 ltac:(closed) ltac:(closed) U4 U3
                ltac:(closed)) as [M5 U5].
    destruct (add_mono (0.2126 * rlo) (0.7152 * glo)
                (0.2126 * pr) (0.7152 * pg) N1 N2 M1 M2 D1 D2 M4)
      as [N4 D4].
    destruct (add_mono (0.2126 * rlo + 0.7152 * glo) (0.0722 * blo)
                (0.2126 * pr + 0.7152 * pg) (0.0722 * pb)
                N4 N3 M4 M3 D4 D3 M5)
      as [_ D5].
    repeat split; assumption. }
  destruct Hl as (Fl & Llo & Lhi).
  (* the ratio *)
  unfold contrast_ratio. cbn [resolve].
  change (hex_to_rgb "#ffffff") with (Ok (255, 255, 255)%Z).
  change (hex_to_rgb "#27ae60") with (Ok (39, 174, 96)%Z).
  cbn [bind].
  change (rgb_to_luminance libm_pow 255 255 255) with (Ok 1).
  unfold rgb_to_luminance.
  rewrite (adjust_pow_branch libm_pow 39), (adjust_pow_branch libm_pow 174),
    (adjust_pow_branch libm_pow 96) by (try lia; assumption).
  cbn [bind]. fold pr pg pb. fold l.
  assert (L1 : (fval l < fval 1)%Z)
    by (eapply Z.le_lt_trans; [exact Lhi | closed]).
  unfold Py.max, Py.min.
  rewrite (ltb_fval 1 l ltac:(closed) Fl), (ltb_fval l 1 Fl ltac:(closed)).
  replace (fval 1 <? fval l)%Z with false by (symmetry; apply Z.ltb_ge; lia).
  replace (fval l <? fval 1)%Z with true by (symmetry; apply Z.ltb_lt; lia).
  assert (F05 : fin 0.05 = true) by closed.
  destruct (add_mono l 0.05 lhi 0.05 Fl F05 ltac:(closed) F05 Lhi
              (Z.le_refl _) ltac:(closed)) as [Fd Ud].
  destruct (add_mono llo 0.05 l 0.05 ltac:(closed) F05 Fl F05 Llo
              (Z.le_refl _) Fd) as [_ Dd].
  assert (Pd : (0 < fval (l + 0.05))%Z)
    by (eapply Z.lt_le_trans; [| exact Dd]; closed).
  unfold Py.truediv.
  rewrite (eqb_fval (l + 0.05) 0 Fd ltac:(closed)).
  replace (fval (l + 0.05) =? fval 0)%Z with false
    by (symmetry; apply Z.eqb_neq; change (fval 0) with 0%Z; lia).
  destruct (div_mono (1 + 0.05) (l + 0.05) (1 + 0.05) (llo + 0.05)
              ltac:(closed) Fd ltac:(closed) ltac:(closed) (Z.le_refl _)
              ltac:(closed) Dd ltac:(closed)) as [Fq Uq].
  destruct (div_mono (1 + 0.05) (lhi + 0.05) (1 + 0.05) (l + 0.05)
              ltac:(closed) ltac:(closed) ltac:(closed) Fd (Z.le_refl _)
              Pd Ud Fq) as [_ Dq].
  eexists. split; [reflexivity |].
  set (q := (1 + 0.05) / (l + 0.05)) in *.
  rewrite (leb_fval 2.865 q ltac:(closed) Fq),
    (ltb_fval q 2.875 Fq ltac:(closed)),
    (leb_fval 3.0 q ltac:(closed) Fq).
  split; [| split].
  - apply Z.leb_le. eapply Z.le_trans; [| exact Dq]. closed.
  - apply Z.ltb_lt. eapply Z.le_lt_trans; [exact Uq |]. closed.
  - apply Z.leb_gt. eapply Z.le_lt_trans; [exact Uq |]. closed.
Qed.

End Green.

Lemma ref_pow_accurate_on_green : pow_accurate_on_green RefPow.pow.
Proof. vm_compute. repeat split. Qed.

Lemma contrast_white_on_green_witness :
  exists ratio : float,
    contrast_ratio RefPow.pow (HexStr "#ffffff") (HexStr "#27ae60") = Ok ratio
    /\ (2.865 <=? ratio) = true /\ (ratio <? 2.875) = true
    /\ (3.0 <=? ratio) = false.
Proof.
  apply (contrast_white_on_green RefPow.pow ref_pow_accurate_on_green).
Defined.

(** C2, as the specification states it, fails: with a [pow] that is accurate
    on the three channels the ratio is 2.87..., which is not reported as
    2.19. *)
Lemma contrast_white_on_green_is_not_2_19 :
  pow_accurate_on_green RefPow.pow
  /\ contrast_ratio RefPow.pow (HexStr "#ffffff") (HexStr "#27ae60")
     = Ok 2.8729368309510641
  /\ (2.8729368309510641 <? 2.195) = false.
Proof.
  split; [exact ref_pow_accurate_on_green |]. vm_compute. split; reflexivity.
Qed.

(** * The alpha blend stays within a Color *)

Module Blend.

Import Rounding RoundAux F64 FloatBool.
Local Open Scope Z_scope.
Local Open Scope float_scope.

Definition channel_case (c : Z) : bool :=
  let f := Py.nearest_float c in
  negb (is_infinity f) && fin f && (fval f =? c * 2 ^ 2148)%Z.

Lemma channel_case_all (c : Z) : is_channel c -> channel_case c = true.
Proof. revert c. apply forall_channel. vm_compute. reflexivity. Qed.

Lemma float_of_channel (c : Z) :
  is_channel c ->
  Py.float_of_int c = Ok (Py.nearest_float c)
  /\ fin (Py.nearest_float c) = true
  /\ (fval (Py.nearest_float c) <= fval 255)%Z.
Proof.
  intros Hc. pose proof (channel_case_all c Hc) as H.
  unfold channel_case in H. cbv zeta in H.
  apply andb_true_iff in H as [H Hv]. apply andb_true_iff in H as [Hi Hf].
  apply negb_true_iff in Hi. apply Z.eqb_eq in Hv.
  unfold Py.float_of_int. rewrite Hi. repeat split; [exact Hf |].
  rewrite Hv. change (fval 255) with (255 * 2 ^ 2148)%Z.
  apply Z.mul_le_mono_nonneg_r; [apply Z.pow_nonneg; lia |].
  unfold is_channel in Hc. lia.
Qed.

(** The points [k / 1024] of the unit interval. *)
Definition grid (k : Z) : float := Py.nearest_float k / 1024.

Definition grid_case (k : Z) : bool :=
  fin (grid k) && (fval (grid k) =? k * 2 ^ 2138)%Z.

Lemma grid_case_all (k : Z) : (0 <= k < 1025)%Z -> grid_case k = true.
Proof. revert k. apply (forall_zrange 1025). vm_compute. reflexivity. Qed.

(** For [alpha] between [k / 1024] and [(k + 1) / 1024], the blend of two
    channels is below [255 * (k + 1) / 1024 + 255 * (1 - k / 1024)], which
    is less than 256. *)
Definition blend_bound (k : Z) : float :=
  255 * grid (k + 1) + 255 * (1 - grid k).

Definition bound_case (k : Z) : bool :=
  fin (255 * grid (k + 1)) && fin (1 - grid k) && fin (255 * (1 - grid k))
  && fin (blend_bound k) && (fval (blend_bound k) <? fval 256)%Z.

Lemma bound_case_all (k : Z) : (0 <= k < 1024)%Z -> bound_case k = true.
Proof. revert k. apply (forall_zrange 1024). vm_compute. reflexivity. Qed.

(** Every [alpha] in [0, 1] lies between two neighbours of the grid. *)
Lemma alpha_in_grid (alpha : float) :
  fin alpha = true -> (fval alpha <= fval 1)%Z ->
  exists k : Z,
    (0 <= k < 1024)%Z
    /\ (fval (grid k) <= fval alpha)%Z
    /\ (fval alpha <= fval (grid (k + 1)))%Z.
Proof.
  intros Fa La. change (fval 1) with (1024 * 2 ^ 2138)%Z in La.
  pose proof (fval_nonneg alpha) as Na.
  assert (P : (0 < 2 ^ 2138)%Z) by (apply pow2_pos; lia).
  set (q := (fval alpha / 2 ^ 2138)%Z).
  assert (Hq : (0 <= q <= 1024)%Z).
  { split; [apply Z.div_pos; lia |].
    apply Z.div_le_upper_bound; lia. }
  pose proof (Z.mul_div_le (fval alpha) (2 ^ 2138) P) as Hlo.
  pose proof (Z.mul_succ_div_gt (fval alpha) (2 ^ 2138) P) as Hhi.
  fold q in Hlo, Hhi.
  exists (Z.min q 1023).
  assert (G1 := grid_case_all (Z.min q 1023) ltac:(lia)).
  assert (G2 := grid_case_all (Z.min q 1023 + 1) ltac:(lia)).
  unfold grid_case in G1, G2.
  apply andb_true_iff in G1 as [_ G1]. apply andb_true_iff in G2 as [_ G2].
  apply Z.eqb_eq in G1, G2. rewrite G1, G2.
  split; [lia |]. split; nia.
Qed.

Lemma blend_channel_range (f b : Z) (alpha : float) :
  is_channel f -> is_channel b ->
  (0 <=? alpha) = true -> (alpha <=? 1) = true ->
  exists v : Z,
    blend_channel f b alpha = Ok v
    /\ is_channel v
    /\ v = Qtruncate
             (F2Q (Py.nearest_float f * alpha
                   + Py.nearest_float b * (1 - alpha))).
Proof.
  intros Hf Hb A0 A1.
  destruct (float_of_channel f Hf) as (Ef & Ff & Lf).
  destruct (float_of_channel b Hb) as (Eb & Fb & Lb).
  assert (Fa : fin alpha = true)
    by (apply (fin_of_bounds alpha 1 A0 A1); reflexivity).
  assert (La : (fval alpha <= fval 1)%Z)
    by (apply fval_of_leb; auto).
  destruct (alpha_in_grid alpha Fa La) as (k & Hk & Glo & Ghi).
  assert (G1 := grid_case_all k ltac:(lia)).
  assert (G2 := grid_case_all (k + 1) ltac:(lia)).
  apply andb_true_iff in G1 as [G1 _]. apply andb_true_iff in G2 as [G2 _].
  pose proof (bound_case_all k Hk) as B. unfold bound_case in B.
  repeat (apply andb_true_iff in B as [B ?]).
  apply Z.ltb_lt in H.
  set (F := Py.nearest_float f) in *. set (B' := Py.nearest_float b) in *.
  destruct (mul_mono F alpha 255 (grid (k + 1)) Ff Fa ltac:(closed) G2
              Lf Ghi B) as [M1 L1].
  destruct (sub_mono 1 alpha 1 (grid k) ltac:(closed) Fa ltac:(closed) G1
              (Z.le_refl _) Glo La H2) as [M2 L2].
  destruct (mul_mono B' (1 - alpha) 255 (1 - grid k) Fb M2 ltac:(closed)
              H2 Lb L2 H1) as [M3 L3].
  destruct (add_mono (F * alpha) (B' * (1 - alpha))
              (255 * grid (k + 1)) (255 * (1 - grid k))
              M1 M3 B H1 L1 L3 H0) as [M4 L4].
  fold (blend_bound k) in L4.
  unfold blend_channel. rewrite Ef, Eb. cbn [bind]. fold F B'.
  pose proof (int_of_float_fin _ M4) as I1.
  pose proof (int_of_float_truncates _ (fin_is_finite _ M4)) as I2.
  rewrite I1 in I2. injection I2 as I2.
  rewrite I1. eexists. split; [reflexivity |]. split; [| exact I2].
  unfold is_channel.
  assert (P : (0 < 2 ^ 2148)%Z) by (apply pow2_pos; lia).
  pose proof (fval_nonneg (F * alpha + B' * (1 - alpha))).
  split; [apply Z.div_pos; lia |].
  assert ((fval (F * alpha + B' * (1 - alpha)) / 2 ^ 2148 < 256)%Z);
    [| lia].
  apply Z.div_lt_upper_bound; [lia |].
  change (fval 256) with (2 ^ 2148 * 256)%Z in H. lia.
Qed.

End Blend.

Import Blend.
Local Open Scope float_scope.

(** The truncation is that of the floating computation, not of the exact
    value of [fg * alpha + bg * (1 - alpha)]: blending 255 on 255 with alpha
    0.003 gives 254. *)
Example blend_is_a_floating_computation :
  blend_channel 255 255 0.003 = Ok 254%Z.
Proof. vm_compute. reflexivity. Qed.

(** C4: for Colors [fg] and [bg] and [alpha] in [0, 1], [blend_rgba_on_rgb]
    returns, per channel, the truncation toward zero of the floating
    computation [fg * alpha + bg * (1 - alpha)], and the result is a Color:
    each channel is an integer in [0, 255]. *)
Theorem blend_truncates_into_color (fg bg : color) (alpha : float) :
  is_color fg -> is_color bg ->
  (0 <=? alpha) = true -> (alpha <=? 1) = true ->
  exists out : color,
    blend_rgba_on_rgb fg bg alpha = Ok out
    /\ is_color out
    /\ out = (blend_exact (fst (fst fg)) (fst (fst bg)) alpha,
              blend_exact (snd (fst fg)) (snd (fst bg)) alpha,
              blend_exact (snd fg) (snd bg) alpha).
Proof.
  destruct fg as [[fr fg] fb], bg as [[br bg] bb].
  intros (Hfr & Hfg & Hfb) (Hbr & Hbg & Hbb) A0 A1.
  destruct (blend_channel_range fr br alpha Hfr Hbr A0 A1)
    as (r & Er & Cr & Tr).
  destruct (blend_channel_range fg bg alpha Hfg Hbg A0 A1)
    as (g & Eg & Cg & Tg).
  destruct (blend_channel_range fb bb alpha Hfb Hbb A0 A1)
    as (b & Eb & Cb & Tb).
  exists (r, g, b). unfold blend_rgba_on_rgb. rewrite Er, Eg, Eb.
  cbn [bind fst snd]. unfold blend_exact.
  split; [reflexivity |]. split; [exact (conj Cr (conj Cg Cb)) |].
  now rewrite <- Tr, <- Tg, <- Tb.
Qed.

Lemma blend_truncates_into_color_witness :
  exists out : color,
    blend_rgba_on_rgb (255, 255, 255)%Z (39, 174, 96)%Z 0.75 = Ok out
    /\ is_color out
    /\ out = (blend_exact 255 39 0.75, blend_exact 255 174 0.75,
              blend_exact 255 96 0.75).
Proof.
  apply (blend_truncates_into_color (255, 255, 255)%Z (39, 174, 96)%Z 0.75);
    first [reflexivity | unfold is_color, is_channel; lia].
Defined.

(** * Further properties of the hex parser *)

Module HexFacts.

Import Str HexSpec StrFacts HexCase.
Local Open Scope string_scope.

(** The lower-case hex digit of a value below 16, and the two digits of a
    value below 256. *)
Definition digit_char (v : Z) : ascii :=
  if (v <? 10)%Z then ascii_of_N (Z.to_N v + 48) else ascii_of_N (Z.to_N v + 87).

Definition hex_of_channel (v : Z) : string :=
  String (digit_char (v / 16)) (String (digit_char (v mod 16)) EmptyString).

Definition result_eqb (r1 r2 : result Z) : bool :=
  match r1, r2 with
  | Ok v1, Ok v2 => (v1 =? v2)%Z
  | Raise _, Raise _ => true
  | _, _ => false
  end.

Lemma result_eqb_eq (s1 s2 : string) :
  result_eqb (int16 s1) (int16 s2) = true -> int16 s1 = int16 s2.
Proof.
  destruct (int16 s1) as [v1 | e1] eqn:E1, (int16 s2) as [v2 | e2] eqn:E2;
    simpl; intros H; try discriminate.
  - apply Z.eqb_eq in H. now subst.
  - now rewrite (int16_raises_ValueError _ _ E1),
      (int16_raises_ValueError _ _ E2).
Qed.

(** What evaluation shows of [int(., 16)] on a one-character string: the
    value is that of a digit, and the case of the letter does not matter. *)
Definition single_checked (a : ascii) : bool :=
  match int16 (str1 a) with
  | Ok v => (0 <=? v)%Z && (v <=? 15)%Z
  | Raise _ => true
  end
  && result_eqb (int16 (str1 (lower_hex a))) (int16 (str1 a))
  && Bool.eqb (Ascii.eqb (lower_hex a) "#") (Ascii.eqb a "#").

(** On two characters: the value is between -15 and 255 and negative only
    after a minus sign; the case of the letters does not matter; and two
    hex digits are found again from their value. *)
Definition pair_checked (a b : ascii) : bool :=
  match int16 (str2 a b) with
  | Ok v => (-15 <=? v)%Z && (v <=? 255)%Z && ((0 <=? v)%Z || Ascii.eqb a "-")
  | Raise _ => true
  end
  && result_eqb (int16 (str2 (lower_hex a) (lower_hex b))) (int16 (str2 a b))
  && (if is_hex_digit a && is_hex_digit b then
        String.eqb (hex_of_channel (hex_value (str2 a b)))
          (str2 (lower_hex a) (lower_hex b))
      else true).

Lemma single_checked_all (a : ascii) : single_checked a = true.
Proof. revert a. apply forall_ascii. vm_compute. reflexivity. Qed.

Lemma pair_checked_all (a b : ascii) : pair_checked a b = true.
Proof. revert a b. apply forall_ascii2. vm_compute. reflexivity. Qed.

(** *** Bounds on a parsed group *)

Definition first_is (c : ascii) (s : string) : bool :=
  match s with
  | String d _ => Ascii.eqb d c
  | EmptyString => false
  end.

Lemma int16_bounds (g : string) (v : Z) :
  (String.length g <= 2)%nat -> int16 g = Ok v ->
  (-15 <= v <= 255)%Z /\ (first_is "-" g = false -> (0 <= v)%Z).
Proof.
  destruct g as [| a [| b [| c g]]]; simpl String.length; intros L E.
  - discriminate.
  - pose proof (single_checked_all a) as H. unfold single_checked in H.
    apply andb_true_iff in H as [H _]. apply andb_true_iff in H as [H _].
    change (String a EmptyString) with (str1 a) in E. rewrite E in H.
    apply andb_true_iff in H as [H1 H2].
    apply Z.leb_le in H1, H2. split; [lia | intros _; lia].
  - pose proof (pair_checked_all a b) as H. unfold pair_checked in H.
    apply andb_true_iff in H as [H _]. apply andb_true_iff in H as [H _].
    change (String a (String b EmptyString)) with (str2 a b) in E. rewrite E in H.
    apply andb_true_iff in H as [H H3]. apply andb_true_iff in H as [H1 H2].
    apply Z.leb_le in H1, H2. split; [lia |].
    cbn [first_is]. intros Hm. rewrite Hm, orb_false_r in H3.
    now apply Z.leb_le in H3.
  - lia.
Qed.

Lemma mentions_substring (c : ascii) (s : string) (n m : nat) :
  mentions c (substring n m s) = true -> mentions c s = true.
Proof.
  revert n m. induction s as [| d s IH]; intros [| n] [| m]; simpl;
    try discriminate.
  - intros H. apply orb_true_iff in H as [H | H].
    + now rewrite H.
    + rewrite (IH _ _ H). apply orb_true_r.
  - intros H. rewrite (IH _ _ H). apply orb_true_r.
  - intros H. rewrite (IH _ _ H). apply orb_true_r.
Qed.

Lemma mentions_lstrip (c : ascii) (s : string) :
  mentions c (lstrip_hash s) = true -> mentions c s = true.
Proof.
  induction s as [| d s IH]; simpl; [discriminate |].
  destruct (Ascii.eqb d "#").
  - intros H. rewrite (IH H). apply orb_true_r.
  - simpl. exact (fun H => H).
Qed.

Lemma first_is_mentions (c : ascii) (s : string) :
  first_is c s = true -> mentions c s = true.
Proof.
  destruct s as [| d s]; simpl; [discriminate |]. intros ->. reflexivity.
Qed.

Lemma no_minus_in_slice (s : string) (i j : nat) :
  mentions "-" s = false -> first_is "-" (slice (lstrip_hash s) i j) = false.
Proof.
  intros H. destruct (first_is "-" _) eqn:E; [| reflexivity].
  apply first_is_mentions in E. unfold slice in E.
  apply mentions_substring, mentions_lstrip in E. congruence.
Qed.

(** *** Text after the sixth character *)

Lemma substring_app (u t : string) (n m : nat) :
  (n + m <= String.length u)%nat -> substring n m (u ++ t) = substring n m u.
Proof.
  revert n m. induction u as [| c u IH]; intros [| n] [| m]; simpl;
    intros H; try reflexivity; try lia.
  - destruct t; reflexivity.
  - f_equal. apply IH. lia.
  - apply IH. lia.
  - apply IH. lia.
Qed.

Lemma lstrip_hash_app (s t : string) :
  lstrip_hash s <> EmptyString -> lstrip_hash (s ++ t) = lstrip_hash s ++ t.
Proof.
  induction s as [| c s IH]; simpl; [congruence |].
  destruct (Ascii.eqb c "#"); [exact IH | reflexivity].
Qed.

(** *** The case of the letters *)

Lemma lower_hex_hash (c : ascii) :
  Ascii.eqb (lower_hex c) "#" = Ascii.eqb c "#".
Proof.
  pose proof (single_checked_all c) as H. unfold single_checked in H.
  apply andb_true_iff in H as [_ H]. now apply eqb_prop in H.
Qed.

Lemma lstrip_hash_lower (s : string) :
  lstrip_hash (lower_hex_string s) = lower_hex_string (lstrip_hash s).
Proof.
  induction s as [| c s IH]; simpl; [reflexivity |].
  rewrite lower_hex_hash. destruct (Ascii.eqb c "#"); [exact IH | reflexivity].
Qed.

Lemma substring_lower (s : string) (n m : nat) :
  substring n m (lower_hex_string s) = lower_hex_string (substring n m s).
Proof.
  revert n m. induction s as [| c s IH]; intros [| n] [| m]; simpl;
    try reflexivity.
  - f_equal. apply IH.
  - apply IH.
  - apply IH.
Qed.

Lemma int16_lower (g : string) :
  (String.length g <= 2)%nat -> int16 (lower_hex_string g) = int16 g.
Proof.
  destruct g as [| a [| b [| c g]]]; simpl String.length; intros L.
  - reflexivity.
  - pose proof (single_checked_all a) as H. unfold single_checked in H.
    apply andb_true_iff in H as [H _]. apply andb_true_iff in H as [_ H].
    apply result_eqb_eq, H.
  - pose proof (pair_checked_all a b) as H. unfold pair_checked in H.
    apply andb_true_iff in H as [H _]. apply andb_true_iff in H as [_ H].
    apply result_eqb_eq, H.
  - lia.
Qed.

(** *** Two digits and their value *)

Lemma hex_of_channel_pair (a b : ascii) :
  is_hex_digit a = true -> is_hex_digit b = true ->
  hex_of_channel (hex_value (str2 a b)) = str2 (lower_hex a) (lower_hex b).
Proof.
  intros Ha Hb. pose proof (pair_checked_all a b) as H.
  unfold pair_checked in H. apply andb_true_iff in H as [_ H].
  rewrite Ha, Hb in H. now apply String.eqb_eq in H.
Qed.

Definition channel_checked (v : Z) : bool :=
  match hex_of_channel v with
  | String a (String b EmptyString) =>
      is_hex_digit a && is_hex_digit b && (hex_value (str2 a b) =? v)%Z
  | _ => false
  end.

Lemma channel_checked_all (v : Z) : is_channel v -> channel_checked v = true.
Proof. revert v. apply forall_channel. vm_compute. reflexivity. Qed.

Lemma hex_of_channel_inv (v : Z) :
  is_channel v ->
  exists a b,
    hex_of_channel v = str2 a b /\ is_hex_digit a = true
    /\ is_hex_digit b = true /\ hex_value (str2 a b) = v.
Proof.
  intros Hv. pose proof (channel_checked_all v Hv) as H.
  unfold channel_checked in H.
  destruct (hex_of_channel v) as [| a [| b [| c g]]]; try discriminate.
  apply andb_true_iff in H as [H H3]. apply andb_true_iff in H as [H1 H2].
  apply Z.eqb_eq in H3. now exists a, b.
Qed.

End HexFacts.

Import HexCase.

(** X1: [hex_to_rgb] reads six characters and no more: what follows the
    sixth character after the leading ['#'] characters does not change the
    result. *)
Theorem hex_to_rgb_ignores_tail (s t : string) :
  (6 <= String.length (Str.lstrip_hash s))%nat ->
  hex_to_rgb (s ++ t) = hex_to_rgb s.
Proof.
  intros H. unfold hex_to_rgb.
  rewrite HexFacts.lstrip_hash_app
    by (destruct (Str.lstrip_hash s); [simpl in H; lia | discriminate]).
  unfold Str.slice.
  rewrite !HexFacts.substring_app by lia. reflexivity.
Qed.

Lemma hex_to_rgb_ignores_tail_witness :
  hex_to_rgb ("#27ae60" ++ "80") = hex_to_rgb "#27ae60".
Proof. apply (hex_to_rgb_ignores_tail "#27ae60" "80"). simpl. lia. Defined.

(** X2: whatever the string, a channel that [hex_to_rgb] returns is
    between -15 and 255; it is a Color when the string has no minus
    sign. *)
Theorem hex_to_rgb_channel_bounds (s : string) (r g b : Z) :
  hex_to_rgb s = Ok (r, g, b) ->
  ((-15 <= r <= 255)%Z /\ (-15 <= g <= 255)%Z /\ (-15 <= b <= 255)%Z)
  /\ (mentions "-" s = false -> is_color (r, g, b)).
Proof.
  unfold hex_to_rgb.
  destruct (Str.int16 (Str.slice _ 0 2)) as [r' |] eqn:Er; [| discriminate].
  destruct (Str.int16 (Str.slice _ 2 4)) as [g' |] eqn:Eg; [| discriminate].
  destruct (Str.int16 (Str.slice _ 4 6)) as [b' |] eqn:Eb; [| discriminate].
  cbn [bind]. intros [= <- <- <-].
  destruct (HexFacts.int16_bounds _ _ (StrFacts.slice_length_le _ 0) Er)
    as [R1 R2].
  destruct (HexFacts.int16_bounds _ _ (StrFacts.slice_length_le _ 2) Eg)
    as [G1 G2].
  destruct (HexFacts.int16_bounds _ _ (StrFacts.slice_length_le _ 4) Eb)
    as [B1 B2].
  split; [auto |]. intros Hm. unfold is_color, is_channel.
  specialize (R2 (HexFacts.no_minus_in_slice s _ _ Hm)).
  specialize (G2 (HexFacts.no_minus_in_slice s _ _ Hm)).
  specialize (B2 (HexFacts.no_minus_in_slice s _ _ Hm)).
  lia.
Qed.

Lemma hex_to_rgb_channel_bounds_witness :
  ((-15 <= -15 <= 255)%Z /\ (-15 <= 10 <= 255)%Z /\ (-15 <= 255 <= 255)%Z)
  /\ (mentions "-" "#-f+aff" = false -> is_color (-15, 10, 255)%Z).
Proof. apply (hex_to_rgb_channel_bounds "#-f+aff"). reflexivity. Defined.

(** X3: the case of the hex letters does not matter: writing [a] to [f]
    for [A] to [F] anywhere in the string gives the same result, or the
    same failure. *)
Theorem hex_to_rgb_case_insensitive (s : string) :
  hex_to_rgb (lower_hex_string s) = hex_to_rgb s.
Proof.
  unfold hex_to_rgb. rewrite HexFacts.lstrip_hash_lower. unfold Str.slice.
  rewrite !HexFacts.substring_lower.
  rewrite !HexFacts.int16_lower by apply StrFacts.substring_length_le.
  reflexivity.
Qed.

(** X4: parsing loses nothing: two strings of 6 hex digits (after their
    leading ['#'] characters) with the same triple are the same digits, up
    to the case of the letters. *)
Theorem hex_to_rgb_lossless (s t : string) :
  is_hex6 (Str.lstrip_hash s) = true -> is_hex6 (Str.lstrip_hash t) = true ->
  hex_to_rgb s = hex_to_rgb t ->
  lower_hex_string (Str.lstrip_hash s) = lower_hex_string (Str.lstrip_hash t).
Proof.
  intros Hs Ht. rewrite (StrFacts.hex_to_rgb_hex6 s Hs),
    (StrFacts.hex_to_rgb_hex6 t Ht).
  destruct (StrFacts.is_hex6_inv _ Hs)
    as (a & b & c & d & e & f & -> & Ha & Hb & Hc & Hd & He & Hf).
  destruct (StrFacts.is_hex6_inv _ Ht)
    as (a' & b' & c' & d' & e' & f' & -> & Ha' & Hb' & Hc' & Hd' & He' & Hf').
  change (Str.slice (String a _) 0 2) with (StrFacts.str2 a b).
  change (Str.slice (String a _) 2 4) with (StrFacts.str2 c d).
  change (Str.slice (String a _) 4 6) with (StrFacts.str2 e f).
  change (Str.slice (String a' _) 0 2) with (StrFacts.str2 a' b').
  change (Str.slice (String a' _) 2 4) with (StrFacts.str2 c' d').
  change (Str.slice (String a' _) 4 6) with (StrFacts.str2 e' f').
  intros [= E1 E2 E3].
  apply (f_equal HexFacts.hex_of_channel) in E1, E2, E3.
  rewrite !HexFacts.hex_of_channel_pair in E1, E2, E3 by assumption.
  unfold StrFacts.str2 in E1, E2, E3.
  injection E1 as A1 A2. injection E2 as A3 A4. injection E3 as A5 A6.
  unfold StrFacts.str1. cbn [lower_hex_string].
  now rewrite A1, A2, A3, A4, A5, A6.
Qed.

Lemma hex_to_rgb_lossless_witness :
  lower_hex_string (Str.lstrip_hash "#27AE60")
  = lower_hex_string (Str.lstrip_hash "27ae60").
Proof.
  apply (hex_to_rgb_lossless "#27AE60" "27ae60"); reflexivity.
Defined.

(** X5: every Color is the triple of a string of 6 hex digits, with or
    without a leading ['#']. *)
Theorem hex_to_rgb_onto_colors (c : color) :
  is_color c ->
  exists s : string,
    is_hex6 s = true /\ hex_to_rgb s = Ok c
    /\ hex_to_rgb (String "#" s) = Ok c.
Proof.
  destruct c as [[r g] b]. intros (Hr & Hg & Hb).
  destruct (HexFacts.hex_of_channel_inv r Hr) as (r1 & r2 & Er & R1 & R2 & Vr).
  destruct (HexFacts.hex_of_channel_inv g Hg) as (g1 & g2 & Eg & G1 & G2 & Vg).
  destruct (HexFacts.hex_of_channel_inv b Hb) as (b1 & b2 & Eb & B1 & B2 & Vb).
  set (s := String r1 (String r2 (String g1 (String g2
              (String b1 (String b2 EmptyString)))))).
  assert (H6 : is_hex6 s = true).
  { unfold is_hex6, s. simpl. now rewrite R1, R2, G1, G2, B1, B2. }
  assert (Hl : is_hex6 (Str.lstrip_hash s) = true)
    by now rewrite (StrFacts.lstrip_hash_hex6 s H6).
  assert (E : hex_to_rgb s = Ok (r, g, b)).
  { rewrite (StrFacts.hex_to_rgb_hex6 s Hl).
    rewrite (StrFacts.lstrip_hash_hex6 s H6). unfold s.
    change (Str.slice _ 0 2) with (StrFacts.str2 r1 r2).
    change (Str.slice _ 2 4) with (StrFacts.str2 g1 g2).
    change (Str.slice _ 4 6) with (StrFacts.str2 b1 b2).
    now rewrite Vr, Vg, Vb. }
  exists s. split; [exact H6 |]. split; [exact E |].
  transitivity (hex_to_rgb s); [| exact E]. unfold hex_to_rgb.
  change (Str.lstrip_hash (String "#" s)) with (Str.lstrip_hash s).
  reflexivity.
Qed.

Lemma hex_to_rgb_onto_colors_witness :
  exists s : string,
    is_hex6 s = true /\ hex_to_rgb s = Ok (39, 174, 96)%Z
    /\ hex_to_rgb (String "#" s) = Ok (39, 174, 96)%Z.
Proof.
  apply (hex_to_rgb_onto_colors (39, 174, 96)%Z).
  unfold is_color, is_channel. lia.
Defined.

(** * Exact float operations *)

Module Exact.

Import Rounding ShiftRight RoundAux SFOrder SFArith F64 FloatBool.
Local Open Scope Z_scope.

(** A value of at most 53 bits, at or above the smallest exponent, is its
    own rounding. *)
Lemma rnd_grid (F S : Z) :
  0 <= F < 2 ^ 53 -> 1074 <= S -> rnd (F * 2 ^ S) 1 = F * 2 ^ S.
Proof.
  intros HF HS. destruct (Z.eq_dec F 0) as [-> | Hn].
  - rewrite Z.mul_0_l. apply rnd_zero. lia.
  - unfold rnd. rewrite Z.div_1_r, Z.mul_1_l.
    set (g := gshift (F * 2 ^ S)).
    assert (Hg : 1074 <= g <= S).
    { unfold g, gshift. rewrite Z.log2_mul_pow2 by lia.
      assert (Z.log2 F < 53) by (apply Z.log2_lt_pow2; lia). lia. }
    clearbody g.
    assert (E : F * 2 ^ S = F * 2 ^ (S - g) * 2 ^ g).
    { rewrite <- Z.mul_assoc, <- pow2_add by lia. do 2 f_equal. lia. }
    rewrite E at 1.
    assert (R : rne (F * 2 ^ (S - g) * 2 ^ g) (2 ^ g) = F * 2 ^ (S - g)).
    { rewrite <- (Z.mul_1_l (2 ^ g)) at 2.
      rewrite rne_scale by (try apply pow2_pos; lia). apply rne_exact. }
    rewrite R. symmetry. exact E.
Qed.

Lemma cap_grid (F S : Z) :
  0 <= F < 2 ^ 53 -> 1074 <= S <= 3119 -> cap (rnd (F * 2 ^ S) 1) = F * 2 ^ S.
Proof.
  intros HF HS. rewrite rnd_grid by lia. apply cap_id, below_top; lia.
Qed.

Lemma scale_lt_top : scale < top.
Proof. unfold scale, top. apply pow2_lt. lia. Qed.

Lemma rnd_scale_one : rnd scale 1 = scale.
Proof.
  unfold scale. rewrite <- (Z.mul_1_l (2 ^ 2148)). apply rnd_grid; lia.
Qed.

Lemma fval_one : fval 1 = scale.
Proof. vm_compute. reflexivity. Qed.

Lemma mul_exact (x y : float) (F S : Z) :
  fin x = true -> fin y = true -> 0 <= F < 2 ^ 53 -> 1074 <= S <= 3119 ->
  fval x * fval y = F * 2 ^ S * scale ->
  fin (x * y) = true /\ fval (x * y) = F * 2 ^ S.
Proof.
  intros Hx Hy HF HS E.
  destruct (SFmul_gval (Prim2SF x) (Prim2SF y)) as [N V]; valid.
  fold (fval x) (fval y) in V. change (SFmul prec emax) with SF64mul in *.
  rewrite <- FloatAxioms.mul_spec in N, V. fold (fval (x * y)) in V.
  rewrite E in V. rewrite <- (Z.mul_1_l scale) in V at 2.
  rewrite rnd_scale in V; [| | lia | apply scale_pos].
  - rewrite cap_grid in V by lia. split; [| exact V].
    apply fin_of_nn; [exact N |]. rewrite V. apply below_top; lia.
  - apply Z.mul_nonneg_nonneg; [lia |]. apply Z.pow_nonneg. lia.
Qed.

Lemma add_exact (x y : float) (F S : Z) :
  fin x = true -> fin y = true -> 0 <= F < 2 ^ 53 -> 1074 <= S <= 3119 ->
  fval x + fval y = F * 2 ^ S ->
  fin (x + y) = true /\ fval (x + y) = F * 2 ^ S.
Proof.
  intros Hx Hy HF HS E.
  destruct (SFadd_gval (Prim2SF x) (Prim2SF y)) as [N V]; valid.
  fold (fval x) (fval y) in V. change (SFadd prec emax) with SF64add in *.
  rewrite <- FloatAxioms.add_spec in N, V. fold (fval (x + y)) in V.
  rewrite E, cap_grid in V by lia. split; [| exact V].
  apply fin_of_nn; [exact N |]. rewrite V. apply below_top; lia.
Qed.

Lemma sub_exact (x y : float) (F S : Z) :
  fin x = true -> fin y = true -> 0 <= F < 2 ^ 53 -> 1074 <= S <= 3119 ->
  fval y <= fval x -> fval x - fval y = F * 2 ^ S ->
  fin (x - y) = true /\ fval (x - y) = F * 2 ^ S.
Proof.
  intros Hx Hy HF HS L E.
  destruct (SFsub_gval (Prim2SF x) (Prim2SF y)) as [N V]; valid.
  fold (fval x) (fval y) in V. change (SFsub prec emax) with SF64sub in *.
  rewrite <- FloatAxioms.sub_spec in N, V. fold (fval (x - y)) in V.
  rewrite E, cap_grid in V by lia. split; [| exact V].
  apply fin_of_nn; [exact N |]. rewrite V. apply below_top; lia.
Qed.

(** A positive finite float divided by itself is 1. *)
Lemma div_self (x : float) :
  fin x = true -> 0 < fval x -> (x / x)%float = 1%float.
Proof.
  intros Hx Px.
  destruct (SFdiv_gval (Prim2SF x) (Prim2SF x)) as [N V]; valid.
  fold (fval x) in V. change (SFdiv prec emax) with SF64div in *.
  rewrite <- FloatAxioms.div_spec in N, V. fold (fval (x / x)) in V.
  rewrite (Z.mul_comm (fval x) scale) in V.
  rewrite <- (Z.mul_1_l (fval x)) in V at 2.
  rewrite rnd_scale in V; [| pose proof scale_pos; lia | lia | exact Px].
  rewrite rnd_scale_one, (cap_id _ scale_lt_top) in V.
  assert (Fq : fin (x / x) = true).
  { apply fin_of_nn; [exact N |]. rewrite V. apply scale_lt_top. }
  apply fval_inj; [exact Fq | reflexivity | |].
  - rewrite V. apply scale_pos.
  - rewrite V. symmetry. apply fval_one.
Qed.

End Exact.

(** * Further properties of the alpha blend *)

Module BlendFacts.

Import Rounding RoundAux F64 FloatBool Exact Blend.
Local Open Scope float_scope.
Local Open Scope Z_scope.

(** The step [1 / 1024] of the grid, in the units of [fval]. *)
Definition gu : Z := 2 ^ 2138.

Lemma gu_pos : 0 < gu.
Proof. unfold gu. apply pow2_pos. lia. Qed.

Lemma scale_gu : scale = 1024 * gu.
Proof.
  unfold scale, gu. change 2148 with (10 + 2138).
  rewrite pow2_add by lia. reflexivity.
Qed.

Lemma fval_channel (c : Z) :
  is_channel c ->
  Py.float_of_int c = Ok (Py.nearest_float c)
  /\ fin (Py.nearest_float c) = true
  /\ fval (Py.nearest_float c) = c * scale.
Proof.
  intros Hc. pose proof (channel_case_all c Hc) as H.
  unfold channel_case in H. cbv zeta in H.
  apply andb_true_iff in H as [H Hv]. apply andb_true_iff in H as [Hi Hf].
  apply negb_true_iff in Hi. apply Z.eqb_eq in Hv.
  unfold Py.float_of_int. rewrite Hi. repeat split; assumption.
Qed.

Lemma fval_grid (k : Z) :
  0 <= k <= 1024 -> fin (grid k) = true /\ fval (grid k) = k * gu.
Proof.
  intros Hk. pose proof (grid_case_all k ltac:(lia)) as H.
  unfold grid_case in H. apply andb_true_iff in H as [Hf Hv].
  apply Z.eqb_eq in Hv. split; assumption.
Qed.

(** Monotonicity of [F * a + B * c] in its four operands. *)
Lemma mix_mono (F a B c F' a' B' c' : float) :
  fin F = true -> fin a = true -> fin B = true -> fin c = true ->
  fin F' = true -> fin a' = true -> fin B' = true -> fin c' = true ->
  fval F <= fval F' -> fval a <= fval a' ->
  fval B <= fval B' -> fval c <= fval c' ->
  fin (F' * a')%float = true -> fin (B' * c')%float = true ->
  fin (F' * a' + B' * c')%float = true ->
  fin (F * a + B * c)%float = true
  /\ fval (F * a + B * c)%float <= fval (F' * a' + B' * c')%float.
Proof.
  intros HF Ha HB Hc HF' Ha' HB' Hc' LF La LB Lc P1 P2 P3.
  destruct (mul_mono F a F' a' HF Ha HF' Ha' LF La P1) as [M1 L1].
  destruct (mul_mono B c B' c' HB Hc HB' Hc' LB Lc P2) as [M2 L2].
  apply add_mono; assumption.
Qed.

(** The blend of [M] with itself at two points of the grid, exactly. *)
Lemma mix_grid (M k1 k2 : Z) :
  is_channel M -> 0 <= k1 <= 1024 -> 0 <= k2 <= 1024 ->
  let Mf := Py.nearest_float M in
  fin (Mf * grid k1)%float = true /\ fin (1 - grid k2)%float = true
  /\ fin (Mf * (1 - grid k2))%float = true
  /\ fin (Mf * grid k1 + Mf * (1 - grid k2))%float = true
  /\ fval (Mf * grid k1 + Mf * (1 - grid k2))%float
     = M * (k1 + 1024 - k2) * gu.
Proof.
  intros HM H1 H2 Mf.
  destruct (fval_channel M HM) as (_ & FM & VM). fold Mf in FM, VM.
  destruct (fval_grid k1 H1) as [G1 V1].
  destruct (fval_grid k2 H2) as [G2 V2].
  unfold is_channel in HM.
  destruct (mul_exact Mf (grid k1) (M * k1) 2138 FM G1) as [P1 E1];
    [nia | lia | |].
  { rewrite VM, V1. fold gu. ring. }
  destruct (sub_exact 1%float (grid k2) (1024 - k2) 2138 eq_refl G2) as [P2 E2];
    [lia | lia | | |].
  { rewrite fval_one, V2, scale_gu. pose proof gu_pos. nia. }
  { rewrite fval_one, V2, scale_gu. fold gu. ring. }
  destruct (mul_exact Mf (1 - grid k2)%float (M * (1024 - k2)) 2138 FM P2)
    as [P3 E3]; [nia | lia | |].
  { rewrite VM, E2. fold gu. ring. }
  destruct (add_exact (Mf * grid k1)%float (Mf * (1 - grid k2))%float
              (M * (k1 + 1024 - k2)) 2138 P1 P3) as [P4 E4]; [nia | lia | |].
  { rewrite E1, E3. fold gu. ring. }
  fold gu in E4. auto.
Qed.

(** The float that [blend_channel] truncates, for two channels between
    [m] and [M] and [alpha] in [0, 1]. *)
Lemma blend_float_between (f b m M : Z) (alpha : float) :
  is_channel f -> is_channel b -> is_channel m -> is_channel M ->
  m <= f <= M -> m <= b <= M ->
  (0 <=? alpha)%float = true -> (alpha <=? 1)%float = true ->
  let v :=
    (Py.nearest_float f * alpha + Py.nearest_float b * (1 - alpha))%float in
  fin alpha = true /\ fin (1 - alpha)%float = true
  /\ fin (Py.nearest_float f * alpha)%float = true
  /\ fin (Py.nearest_float b * (1 - alpha))%float = true
  /\ fin v = true /\ 1023 * m * gu <= fval v <= 1025 * M * gu.
Proof.
  intros Hf Hb Hm HM Lf Lb A0 A1 v.
  destruct (fval_channel f Hf) as (_ & Ff & Vf).
  destruct (fval_channel b Hb) as (_ & Fb & Vb).
  destruct (fval_channel m Hm) as (_ & Fm & Vm).
  destruct (fval_channel M HM) as (_ & FM & VM).
  assert (Fa : fin alpha = true)
    by (apply (fin_of_bounds alpha 1 A0 A1); reflexivity).
  assert (La : fval alpha <= fval 1%float) by (apply fval_of_leb; auto).
  destruct (alpha_in_grid alpha Fa La) as (k & Hk & Glo & Ghi).
  destruct (fval_grid k ltac:(lia)) as [G1 V1].
  destruct (fval_grid (k + 1) ltac:(lia)) as [G2 V2].
  destruct (mix_grid M (k + 1) k HM ltac:(lia) ltac:(lia))
    as (U1 & U2 & U3 & U4 & U5).
  destruct (mix_grid m k (k + 1) Hm ltac:(lia) ltac:(lia))
    as (D1 & D2 & D3 & D4 & D5).
  pose proof scale_pos as Ps.
  assert (Lg : fval (grid (k + 1)) <= fval 1%float).
  { rewrite V2, fval_one, scale_gu. pose proof gu_pos. nia. }
  destruct (sub_mono 1%float alpha 1%float (grid k) eq_refl Fa eq_refl G1
              (Z.le_refl _) Glo La U2) as [S1 T1].
  destruct (sub_mono 1%float (grid (k + 1)) 1%float alpha eq_refl G2 eq_refl Fa
              (Z.le_refl _) Ghi Lg S1) as [_ T2].
  assert (LfM : fval (Py.nearest_float f) <= fval (Py.nearest_float M))
    by (rewrite Vf, VM; apply Z.mul_le_mono_nonneg_r; lia).
  assert (LbM : fval (Py.nearest_float b) <= fval (Py.nearest_float M))
    by (rewrite Vb, VM; apply Z.mul_le_mono_nonneg_r; lia).
  assert (Lmf : fval (Py.nearest_float m) <= fval (Py.nearest_float f))
    by (rewrite Vf, Vm; apply Z.mul_le_mono_nonneg_r; lia).
  assert (Lmb : fval (Py.nearest_float m) <= fval (Py.nearest_float b))
    by (rewrite Vb, Vm; apply Z.mul_le_mono_nonneg_r; lia).
  destruct (mul_mono _ alpha _ (grid (k + 1)) Ff Fa FM G2 LfM Ghi U1)
    as [Q1 _].
  destruct (mul_mono _ (1 - alpha)%float _ (1 - grid k)%float Fb S1 FM U2
              LbM T1 U3)
    as [Q2 _].
  destruct (mix_mono _ alpha _ (1 - alpha)%float _ (grid (k + 1)) _
              (1 - grid k)%float
              Ff Fa Fb S1 FM G2 FM U2 LfM Ghi LbM T1 U1 U3 U4) as [Q3 L3].
  fold v in Q3, L3.
  destruct (mix_mono _ (grid k) _ (1 - grid (k + 1))%float _ alpha _
              (1 - alpha)%float
              Fm G1 Fm D2 Ff Fa Fb S1 Lmf Glo Lmb T2 Q1 Q2 Q3) as [_ L4].
  fold v in L4. rewrite U5 in L3. rewrite D5 in L4.
  repeat split; try assumption.
  - eapply Z.le_trans; [| exact L4]. apply Z.eq_le_incl. f_equal. lia.
  - eapply Z.le_trans; [exact L3 |]. apply Z.eq_le_incl. f_equal. lia.
Qed.

(** [int] of a non-negative float, in terms of the grid. *)
Lemma int_between (v : float) (m M : Z) :
  fin v = true -> 0 <= m -> 0 <= M <= 255 ->
  1023 * m * gu <= fval v <= 1025 * M * gu ->
  m <= 1024 ->
  exists z : Z, Py.int_of_float v = Ok z /\ m - 1 <= z <= M.
Proof.
  intros Fv Hm HM [L U] Hm'.
  rewrite (int_of_float_fin v Fv). change (2 ^ 2148) with scale.
  eexists. split; [reflexivity |].
  pose proof gu_pos as Pg. rewrite scale_gu.
  generalize dependent (fval v). intros t L U.
  generalize dependent gu. intros u L U Pu.
  split.
  - apply Z.div_le_lower_bound; nia.
  - assert (t / (1024 * u) < M + 1); [| lia].
    apply Z.div_lt_upper_bound; nia.
Qed.

Lemma blend_channel_between (f b : Z) (alpha : float) :
  is_channel f -> is_channel b ->
  (0 <=? alpha)%float = true -> (alpha <=? 1)%float = true ->
  exists v : Z,
    blend_channel f b alpha = Ok v /\ Z.min f b - 1 <= v <= Z.max f b.
Proof.
  intros Hf Hb A0 A1.
  assert (Hm : is_channel (Z.min f b)) by (unfold is_channel in *; lia).
  assert (HM : is_channel (Z.max f b)) by (unfold is_channel in *; lia).
  destruct (blend_float_between f b (Z.min f b) (Z.max f b) alpha
              Hf Hb Hm HM ltac:(lia) ltac:(lia) A0 A1)
    as (_ & _ & _ & _ & Fv & Bv).
  destruct (fval_channel f Hf) as (Ef & _).
  destruct (fval_channel b Hb) as (Eb & _).
  unfold blend_channel. rewrite Ef, Eb. cbn [bind].
  unfold is_channel in *.
  apply (int_between _ (Z.min f b) (Z.max f b) Fv); lia.
Qed.

(** Monotonicity of one channel of the blend in the two channels. *)
Lemma blend_channel_mono (f b f' b' : Z) (alpha : float) :
  is_channel f -> is_channel b -> is_channel f' -> is_channel b' ->
  f <= f' -> b <= b' ->
  (0 <=? alpha)%float = true -> (alpha <=? 1)%float = true ->
  exists v v' : Z,
    blend_channel f b alpha = Ok v /\ blend_channel f' b' alpha = Ok v'
    /\ v <= v'.
Proof.
  intros Hf Hb Hf' Hb' Lf Lb A0 A1.
  assert (H0 : is_channel 0) by (unfold is_channel; lia).
  assert (H255 : is_channel 255) by (unfold is_channel; lia).
  unfold is_channel in Hf, Hb, Hf', Hb'.
  destruct (blend_float_between f' b' 0 255 alpha Hf' Hb' H0 H255
              ltac:(lia) ltac:(lia) A0 A1) as (Fa & S1 & Q1 & Q2 & Q3 & _).
  destruct (fval_channel f Hf) as (Ef & Ff & Vf).
  destruct (fval_channel b Hb) as (Eb & Fb & Vb).
  destruct (fval_channel f' Hf') as (Ef' & Ff' & Vf').
  destruct (fval_channel b' Hb') as (Eb' & Fb' & Vb').
  pose proof scale_pos as Ps.
  destruct (mix_mono _ alpha _ (1 - alpha)%float _ alpha _ (1 - alpha)%float
              Ff Fa Fb S1 Ff' Fa Fb' S1) as [P L]; try assumption;
    try apply Z.le_refl.
  { rewrite Vf, Vf'. apply Z.mul_le_mono_nonneg_r; lia. }
  { rewrite Vb, Vb'. apply Z.mul_le_mono_nonneg_r; lia. }
  unfold blend_channel. rewrite Ef, Eb, Ef', Eb'. cbn [bind].
  rewrite (int_of_float_fin _ P), (int_of_float_fin _ Q3).
  do 2 eexists. split; [reflexivity |]. split; [reflexivity |].
  change (2 ^ 2148) with scale. apply Z.div_le_mono; [exact Ps | exact L].
Qed.

End BlendFacts.

(** X6: for Colors and [alpha] in [0, 1], each channel of the blend lies
    between the two channels it blends, except that the truncation of the
    float result may leave it one below the smaller of the two. *)
Theorem blend_between_channels (fr fg fb br bg bb : Z) (alpha : float) :
  is_color (fr, fg, fb) -> is_color (br, bg, bb) ->
  (0 <=? alpha) = true -> (alpha <=? 1) = true ->
  exists r g b : Z,
    blend_rgba_on_rgb (fr, fg, fb) (br, bg, bb) alpha = Ok (r, g, b)
    /\ (Z.min fr br - 1 <= r <= Z.max fr br)%Z
    /\ (Z.min fg bg - 1 <= g <= Z.max fg bg)%Z
    /\ (Z.min fb bb - 1 <= b <= Z.max fb bb)%Z.
Proof.
  intros (Hfr & Hfg & Hfb) (Hbr & Hbg & Hbb) A0 A1.
  destruct (BlendFacts.blend_channel_between fr br alpha Hfr Hbr A0 A1)
    as (r & Er & Br).
  destruct (BlendFacts.blend_channel_between fg bg alpha Hfg Hbg A0 A1)
    as (g & Eg & Bg).
  destruct (BlendFacts.blend_channel_between fb bb alpha Hfb Hbb A0 A1)
    as (b & Eb & Bb).
  exists r, g, b. unfold blend_rgba_on_rgb. rewrite Er, Eg, Eb.
  cbn [bind]. auto.
Qed.

Lemma blend_between_channels_witness :
  exists r g b : Z,
    blend_rgba_on_rgb (255, 255, 255)%Z (39, 174, 96)%Z 0.75 = Ok (r, g, b)
    /\ (Z.min 255 39 - 1 <= r <= Z.max 255 39)%Z
    /\ (Z.min 255 174 - 1 <= g <= Z.max 255 174)%Z
    /\ (Z.min 255 96 - 1 <= b <= Z.max 255 96)%Z.
Proof.
  apply (blend_between_channels 255 255 255 39 174 96 0.75);
    first [reflexivity | unfold is_color, is_channel; lia].
Defined.

(** X7: for [alpha] in [0, 1] the blend is monotone in both Colors: no
    channel of the result decreases when no channel of the foreground and
    of the background does. *)
Theorem blend_monotone (fg bg fg' bg' : color) (alpha : float) :
  is_color fg -> is_color bg -> is_color fg' -> is_color bg' ->
  channels_le fg fg' -> channels_le bg bg' ->
  (0 <=? alpha) = true -> (alpha <=? 1) = true ->
  exists out out' : color,
    blend_rgba_on_rgb fg bg alpha = Ok out
    /\ blend_rgba_on_rgb fg' bg' alpha = Ok out'
    /\ channels_le out out'.
Proof.
  destruct fg as [[fr fg] fb], bg as [[br bg] bb].
  destruct fg' as [[fr' fg'] fb'], bg' as [[br' bg'] bb'].
  intros (Hfr & Hfg & Hfb) (Hbr & Hbg & Hbb).
  intros (Hfr' & Hfg' & Hfb') (Hbr' & Hbg' & Hbb').
  intros (Lfr & Lfg & Lfb) (Lbr & Lbg & Lbb) A0 A1.
  destruct (BlendFacts.blend_channel_mono fr br fr' br' alpha)
    as (r & r' & Er & Er' & Lr); try assumption.
  destruct (BlendFacts.blend_channel_mono fg bg fg' bg' alpha)
    as (g & g' & Eg & Eg' & Lg); try assumption.
  destruct (BlendFacts.blend_channel_mono fb bb fb' bb' alpha)
    as (b & b' & Eb & Eb' & Lb); try assumption.
  exists (r, g, b), (r', g', b'). unfold blend_rgba_on_rgb.
  rewrite Er, Eg, Eb, Er', Eg', Eb'. cbn [bind].
  split; [reflexivity |]. split; [reflexivity |].
  exact (conj Lr (conj Lg Lb)).
Qed.

Lemma blend_monotone_witness :
  exists out out' : color,
    blend_rgba_on_rgb (191, 191, 191)%Z (39, 174, 96)%Z 0.6 = Ok out
    /\ blend_rgba_on_rgb (255, 255, 255)%Z (69, 185, 121)%Z 0.6 = Ok out'
    /\ channels_le out out'.
Proof.
  apply (blend_monotone (191, 191, 191)%Z (39, 174, 96)%Z
           (255, 255, 255)%Z (69, 185, 121)%Z 0.6);
    first [reflexivity | unfold is_color, channels_le, is_channel; lia].
Defined.

(** * Further properties of the luminance and of the contrast ratio *)

Module LuminanceFacts.

Import F64 FloatBool Luminance Exact.
Local Open Scope Z_scope.
Local Open Scope float_scope.

(** The linear branch of [adjust] does not decrease from one channel to the
    next. *)
Definition linear (c : Z) : float := Py.nearest_float c / 255.0 / 12.92.

Definition linear_step_checked (c : Z) : bool :=
  fin (linear c) && fin (linear (c + 1)) && (linear c <=? linear (c + 1)).

Lemma linear_step (c : Z) :
  (0 <= c < 10)%Z -> (fval (linear c) <= fval (linear (c + 1)))%Z.
Proof.
  intros Hc.
  assert (H : linear_step_checked c = true).
  { revert c Hc. apply (forall_zrange 10). vm_compute. reflexivity. }
  unfold linear_step_checked in H.
  apply andb_true_iff in H as [H L]. apply andb_true_iff in H as [F1 F2].
  now apply fval_of_leb.
Qed.

Section WithPow.

Variable libm_pow : float -> float -> float.
Hypothesis pow_unit : pow_in_unit_range libm_pow.

(** The float that [adjust] returns on a channel. *)
Definition adjusted (c : Z) : float :=
  if (c <=? 10)%Z then linear c
  else if (c =? 255)%Z then 1 else libm_pow (pow_base c) 2.4.

Lemma adjust_value (c : Z) :
  is_channel c ->
  adjust libm_pow c = Ok (adjusted c)
  /\ fin (adjusted c) = true /\ (fval (adjusted c) <= fval 1)%Z.
Proof.
  intros Hc. pose proof (adjust_case_all c Hc) as H.
  unfold adjust_case in H. apply andb_true_iff in H as [Hinf H].
  unfold adjust, Py.float_of_int, adjusted.
  destruct (is_infinity (Py.nearest_float c)); [discriminate |].
  cbn [bind].
  destruct (Py.nearest_float c / 255.0 <=? 0.03928).
  - apply andb_true_iff in H as [H Hle]. apply andb_true_iff in H as [Hl Hf].
    rewrite Hl. split; [reflexivity |]. split; [exact Hf |].
    apply fval_of_leb; auto.
  - fold (pow_base c). cbv zeta in H.
    repeat (apply andb_true_iff in H as [H ?]).
    rewrite float_pow_positive by (apply negb_true_iff; assumption).
    apply Z.leb_le in H.
    destruct (Z.leb_spec c 10) as [L | L]; [lia |].
    destruct (pow_base c =? 1).
    + rewrite H0. split; [reflexivity |].
      split; [reflexivity | apply Z.le_refl].
    + apply Z.leb_le in H0.
      destruct (Z.eqb_spec c 255) as [E | E]; [lia |].
      destruct (pow_unit c) as [P0 P1]; [lia |].
      assert (Pf : fin (libm_pow (pow_base c) 2.4) = true)
        by (apply (fin_of_bounds _ 1 P0 P1); reflexivity).
      rewrite (fin_not_infinity _ Pf).
      split; [reflexivity |]. split; [exact Pf |].
      apply fval_of_leb; auto.
Qed.

(** The weighted sum of three adjusted channels is monotone, and at most 1
    when they are. *)
Lemma weighted_mono (x y z x' y' z' : float) :
  fin x = true -> fin y = true -> fin z = true ->
  fin x' = true -> fin y' = true -> fin z' = true ->
  (fval x <= fval x')%Z -> (fval y <= fval y')%Z -> (fval z <= fval z')%Z ->
  (fval x' <= fval 1)%Z -> (fval y' <= fval 1)%Z -> (fval z' <= fval 1)%Z ->
  fin (0.2126 * x + 0.7152 * y + 0.0722 * z) = true
  /\ fin (0.2126 * x' + 0.7152 * y' + 0.0722 * z') = true
  /\ (fval (0.2126 * x + 0.7152 * y + 0.0722 * z)
      <= fval (0.2126 * x' + 0.7152 * y' + 0.0722 * z'))%Z.
Proof.
  intros Fx Fy Fz Fx' Fy' Fz' Lx Ly Lz Ux Uy Uz.
  destruct (mul_mono 0.2126 x' 0.2126 1 ltac:(closed) Fx' ltac:(closed)
              ltac:(closed) (Z.le_refl _) Ux ltac:(closed)) as [F1 L1].
  destruct (mul_mono 0.7152 y' 0.7152 1 ltac:(closed) Fy' ltac:(closed)
              ltac:(closed) (Z.le_refl _) Uy ltac:(closed)) as [F2 L2].
  destruct (mul_mono 0.0722 z' 0.0722 1 ltac:(closed) Fz' ltac:(closed)
              ltac:(closed) (Z.le_refl _) Uz ltac:(closed)) as [F3 L3].
  destruct (add_mono (0.2126 * x') (0.7152 * y') (0.2126 * 1) (0.7152 * 1)
              F1 F2 ltac:(closed) ltac:(closed) L1 L2 ltac:(closed))
    as [F4 L4].
  destruct (add_mono (0.2126 * x' + 0.7152 * y') (0.0722 * z')
              (0.2126 * 1 + 0.7152 * 1) (0.0722 * 1)
              F4 F3 ltac:(closed) ltac:(closed) L4 L3 ltac:(closed))
    as [F5 L5].
  destruct (mul_mono 0.2126 x 0.2126 x' ltac:(closed) Fx ltac:(closed)
              Fx' (Z.le_refl _) Lx F1) as [G1 M1].
  destruct (mul_mono 0.7152 y 0.7152 y' ltac:(closed) Fy ltac:(closed)
              Fy' (Z.le_refl _) Ly F2) as [G2 M2].
  destruct (mul_mono 0.0722 z 0.0722 z' ltac:(closed) Fz ltac:(closed)
              Fz' (Z.le_refl _) Lz F3) as [G3 M3].
  destruct (add_mono (0.2126 * x) (0.7152 * y) (0.2126 * x') (0.7152 * y')
              G1 G2 F1 F2 M1 M2 F4) as [G4 M4].
  destruct (add_mono (0.2126 * x + 0.7152 * y) (0.0722 * z)
              (0.2126 * x' + 0.7152 * y') (0.0722 * z')
              G4 G3 F4 F3 M4 M3 F5) as [G5 M5].
  auto.
Qed.

(** The denominator and the numerator of the ratio, for a luminance in
    [0, 1]. *)
Lemma plus_offset (l : float) :
  fin l = true -> (fval l <= fval 1)%Z ->
  fin (l + 0.05) = true /\ (0 < fval (l + 0.05))%Z
  /\ (fval (0 + 0.05) <= fval (l + 0.05))%Z
  /\ (fval (l + 0.05) <= fval (1 + 0.05))%Z.
Proof.
  intros Fl Ll.
  assert (F05 : fin 0.05 = true) by closed.
  destruct (add_mono l 0.05 1 0.05 Fl F05 ltac:(closed) F05 Ll
              (Z.le_refl _) ltac:(closed)) as [Fd Lu].
  destruct (add_mono 0 0.05 l 0.05 ltac:(closed) F05 Fl F05
              (fval_nonneg l) (Z.le_refl _) Fd) as [_ Ld].
  split; [exact Fd |]. split; [| auto].
  eapply Z.lt_le_trans; [| exact Ld]. closed.
Qed.

(** The lighter and the darker of two luminances given in this order. *)
Lemma max_min_fval (a b : float) :
  fin a = true -> fin b = true -> (fval b <= fval a)%Z ->
  fin (Py.max a b) = true /\ fin (Py.min a b) = true
  /\ fval (Py.max a b) = fval a /\ fval (Py.min a b) = fval b.
Proof.
  intros Fa Fb L. unfold Py.max, Py.min.
  rewrite (ltb_fval a b Fa Fb), (ltb_fval b a Fb Fa).
  destruct (Z.ltb_spec (fval a) (fval b)); [lia |].
  destruct (Z.ltb_spec (fval b) (fval a)); repeat split; auto; lia.
Qed.

(** The ratio grows when the lighter luminance grows and the darker one
    shrinks. *)
Lemma ratio_mono (lo hi lo' hi' : float) :
  fin lo = true -> fin hi = true -> fin lo' = true -> fin hi' = true ->
  (fval lo' <= fval lo)%Z -> (fval lo <= fval hi)%Z ->
  (fval hi <= fval hi')%Z -> (fval hi' <= fval 1)%Z ->
  exists q q' : float,
    Py.truediv (Py.max hi lo + 0.05) (Py.min hi lo + 0.05) = Ok q
    /\ Py.truediv (Py.max hi' lo' + 0.05) (Py.min hi' lo' + 0.05) = Ok q'
    /\ fin q = true /\ fin q' = true /\ (fval q <= fval q')%Z.
Proof.
  intros Fl Fh Fl' Fh' L1 L2 L3 L4.
  destruct (max_min_fval hi lo Fh Fl L2) as (Fx & Fn & Vx & Vn).
  destruct (max_min_fval hi' lo' Fh' Fl' ltac:(lia)) as (Fx' & Fn' & Vx' & Vn').
  set (mx := Py.max hi lo) in *. set (mn := Py.min hi lo) in *.
  set (mx' := Py.max hi' lo') in *. set (mn' := Py.min hi' lo') in *.
  assert (F05 : fin 0.05 = true) by closed.
  destruct (plus_offset mx' Fx' ltac:(lia)) as (N1 & _ & _ & N2).
  destruct (plus_offset mn Fn ltac:(lia)) as (D1 & D2 & _ & _).
  destruct (plus_offset mn' Fn' ltac:(lia)) as (D1' & D2' & D3' & _).
  destruct (add_mono mx 0.05 mx' 0.05 Fx F05 Fx' F05 ltac:(lia)
              (Z.le_refl _) N1) as [N3 N4].
  destruct (add_mono mn' 0.05 mn 0.05 Fn' F05 Fn F05 ltac:(lia)
              (Z.le_refl _) D1) as [_ D4].
  destruct (div_mono (mx' + 0.05) (mn' + 0.05) (1 + 0.05) (0 + 0.05)
              N1 D1' ltac:(closed) ltac:(closed) N2 ltac:(closed) D3'
              ltac:(closed)) as [Q' _].
  destruct (div_mono (mx + 0.05) (mn + 0.05) (mx' + 0.05) (mn' + 0.05)
              N3 D1 N1 D1' N4 D2' D4 Q') as [Q L].
  unfold Py.truediv.
  rewrite (eqb_fval (mn + 0.05) 0 D1 ltac:(closed)).
  rewrite (eqb_fval (mn' + 0.05) 0 D1' ltac:(closed)).
  change (fval 0) with 0%Z.
  destruct (Z.eqb_spec (fval (mn + 0.05)) 0); [lia |].
  destruct (Z.eqb_spec (fval (mn' + 0.05)) 0); [lia |].
  do 2 eexists. repeat split; try reflexivity; assumption.
Qed.

Lemma max_same (l : float) : Py.max l l = l.
Proof. unfold Py.max. destruct (l <? l); reflexivity. Qed.

Lemma min_same (l : float) : Py.min l l = l.
Proof. unfold Py.min. destruct (l <? l); reflexivity. Qed.

Hypothesis pow_mono : pow_monotone_on_channels libm_pow.

Lemma adjusted_step (c : Z) :
  (0 <= c < 255)%Z -> (fval (adjusted c) <= fval (adjusted (c + 1)))%Z.
Proof.
  intros Hc. destruct pow_mono as [M0 M1].
  destruct (adjust_value c ltac:(unfold is_channel; lia)) as (_ & F1 & U1).
  destruct (adjust_value (c + 1) ltac:(unfold is_channel; lia))
    as (_ & F2 & U2).
  revert F1 F2 U1 U2. unfold adjusted.
  destruct (Z.leb_spec c 10) as [L1 | L1];
    destruct (Z.leb_spec (c + 1) 10) as [L2 | L2]; try lia.
  - intros _ _ _ _. apply linear_step. lia.
  - assert (c = 10%Z) by lia. subst c. cbn [Z.add Pos.add Z.eqb Pos.eqb].
    intros F1 F2 _ _. apply fval_of_leb; assumption.
  - destruct (Z.eqb_spec c 255) as [E1 | E1]; [lia |].
    destruct (Z.eqb_spec (c + 1) 255) as [E2 | E2].
    + intros _ _ U1 _. exact U1.
    + intros F1 F2 _ _. apply fval_of_leb; try assumption. apply M1. lia.
Qed.

Lemma adjusted_mono (c c' : Z) :
  (0 <= c)%Z -> (c <= c')%Z -> (c' <= 255)%Z ->
  (fval (adjusted c) <= fval (adjusted c'))%Z.
Proof.
  intros H0 H1 H2.
  replace c' with (c + Z.of_nat (Z.to_nat (c' - c)))%Z by lia.
  assert (Hn : (c + Z.of_nat (Z.to_nat (c' - c)) <= 255)%Z) by lia.
  revert Hn. generalize (Z.to_nat (c' - c)). intros n.
  induction n as [| n IH]; intros Hn.
  - rewrite Z.add_0_r. apply Z.le_refl.
  - eapply Z.le_trans; [apply IH; lia |].
    replace (c + Z.of_nat (S n))%Z with (c + Z.of_nat n + 1)%Z by lia.
    apply adjusted_step. lia.
Qed.

Lemma luminance_mono (r g b r' g' b' : Z) :
  is_channel r -> is_channel g -> is_channel b ->
  is_channel r' -> is_channel g' -> is_channel b' ->
  (r <= r')%Z -> (g <= g')%Z -> (b <= b')%Z ->
  exists l l' : float,
    rgb_to_luminance libm_pow r g b = Ok l
    /\ rgb_to_luminance libm_pow r' g' b' = Ok l'
    /\ fin l = true /\ fin l' = true /\ (fval l <= fval l')%Z.
Proof.
  intros Hr Hg Hb Hr' Hg' Hb' Lr Lg Lb.
  destruct (adjust_value r Hr) as (Er & Fr & _).
  destruct (adjust_value g Hg) as (Eg & Fg & _).
  destruct (adjust_value b Hb) as (Eb & Fb & _).
  destruct (adjust_value r' Hr') as (Er' & Fr' & Ur).
  destruct (adjust_value g' Hg') as (Eg' & Fg' & Ug).
  destruct (adjust_value b' Hb') as (Eb' & Fb' & Ub).
  unfold is_channel in *.
  unfold rgb_to_luminance. rewrite Er, Eg, Eb, Er', Eg', Eb'. cbn [bind].
  destruct (weighted_mono _ _ _ _ _ _ Fr Fg Fb Fr' Fg' Fb'
              (adjusted_mono r r' ltac:(lia) Lr ltac:(lia))
              (adjusted_mono g g' ltac:(lia) Lg ltac:(lia))
              (adjusted_mono b b' ltac:(lia) Lb ltac:(lia)) Ur Ug Ub)
    as (F1 & F2 & L).
  do 2 eexists. repeat split; try reflexivity; assumption.
Qed.

Lemma contrast_mono (lo hi lo' hi' : color) :
  is_color lo -> is_color hi -> is_color lo' -> is_color hi' ->
  channels_le lo' lo -> channels_le lo hi -> channels_le hi hi' ->
  exists q q' : float,
    contrast_ratio libm_pow (Triple hi) (Triple lo) = Ok q
    /\ contrast_ratio libm_pow (Triple hi') (Triple lo') = Ok q'
    /\ fin q = true /\ fin q' = true /\ (fval q <= fval q')%Z.
Proof.
  destruct lo as [[r1 g1] b1], hi as [[r2 g2] b2].
  destruct lo' as [[r0 g0] b0], hi' as [[r3 g3] b3].
  intros (Hr1 & Hg1 & Hb1) (Hr2 & Hg2 & Hb2).
  intros (Hr0 & Hg0 & Hb0) (Hr3 & Hg3 & Hb3).
  intros (A1 & A2 & A3) (B1 & B2 & B3) (C1 & C2 & C3).
  destruct (luminance_mono r0 g0 b0 r1 g1 b1) as (l0 & l1 & E0 & E1 & F0 & F1 & L01);
    try assumption.
  destruct (luminance_mono r1 g1 b1 r2 g2 b2) as (l1' & l2 & E1' & E2 & _ & F2 & L12);
    try assumption.
  destruct (luminance_mono r2 g2 b2 r3 g3 b3) as (l2' & l3 & E2' & E3 & _ & F3 & L23);
    try assumption.
  rewrite E1 in E1'. injection E1' as <-.
  rewrite E2 in E2'. injection E2' as <-.
  destruct (luminance_range libm_pow pow_unit r3 g3 b3 Hr3 Hg3 Hb3)
    as (l3' & E3' & _ & U3).
  rewrite E3 in E3'. injection E3' as <-.
  unfold contrast_ratio. cbn [resolve bind]. rewrite E0, E1, E2, E3.
  cbn [bind]. apply ratio_mono; assumption.
Qed.

End WithPow.

End LuminanceFacts.

Section FurtherContrast.

Import F64 FloatBool Luminance LuminanceFacts.

Variable libm_pow : float -> float -> float.

(** X11: a string that does not parse makes [contrast_ratio] raise
    [ValueError], in either argument position and whatever the other
    argument is: both strings are parsed before any luminance is
    computed. *)
Theorem contrast_ratio_parse_error (s : string) (c : color_arg) :
  raises (hex_to_rgb s) ->
  contrast_ratio libm_pow (HexStr s) c = Raise ValueError
  /\ contrast_ratio libm_pow c (HexStr s) = Raise ValueError.
Proof.
  intros [e H]. rewrite (StrFacts.hex_to_rgb_raises_ValueError s e H) in H.
  unfold contrast_ratio. cbn [resolve]. rewrite H. split; [reflexivity |].
  destruct c as [s' | t]; cbn [resolve bind]; [| reflexivity].
  destruct (hex_to_rgb s') as [t | e'] eqn:E'; [reflexivity |].
  now rewrite (StrFacts.hex_to_rgb_raises_ValueError s' e' E').
Qed.

Hypothesis pow_unit : pow_in_unit_range libm_pow.

(** X8: the relative luminance of a Color is a float between 0 and 1. *)
Theorem luminance_in_unit_interval (r g b : Z) :
  is_channel r -> is_channel g -> is_channel b ->
  exists l : float,
    rgb_to_luminance libm_pow r g b = Ok l
    /\ (0 <=? l) = true /\ (l <=? 1) = true.
Proof.
  intros Hr Hg Hb.
  destruct (luminance_range libm_pow pow_unit r g b Hr Hg Hb)
    as (l & E & F & L).
  exists l. split; [exact E |]. split.
  - apply leb_of_fval; [reflexivity | exact F | apply fval_nonneg].
  - apply leb_of_fval; [exact F | reflexivity | exact L].
Qed.

(** X10: the contrast ratio of a Color with itself is exactly 1.0. *)
Theorem contrast_ratio_same_color (a : color) :
  is_color a -> contrast_ratio libm_pow (Triple a) (Triple a) = Ok 1.
Proof.
  destruct a as [[r g] b]. intros (Hr & Hg & Hb).
  destruct (luminance_range libm_pow pow_unit r g b Hr Hg Hb)
    as (l & E & Fl & Ll).
  unfold contrast_ratio. cbn [resolve bind]. rewrite E. cbn [bind].
  rewrite max_same, min_same.
  destruct (plus_offset l Fl Ll) as (Fd & Pd & _).
  unfold Py.truediv.
  rewrite (eqb_fval (l + 0.05) 0 Fd ltac:(closed)).
  replace (fval (l + 0.05) =? fval 0)%Z with false
    by (symmetry; apply Z.eqb_neq; change (fval 0) with 0%Z; lia).
  f_equal. apply Exact.div_self; assumption.
Qed.

Hypothesis pow_mono : pow_monotone_on_channels libm_pow.

(** X9: the luminance does not decrease when no channel decreases. *)
Theorem luminance_monotone (r g b r' g' b' : Z) :
  is_color (r, g, b) -> is_color (r', g', b') ->
  channels_le (r, g, b) (r', g', b') ->
  exists l l' : float,
    rgb_to_luminance libm_pow r g b = Ok l
    /\ rgb_to_luminance libm_pow r' g' b' = Ok l'
    /\ (l <=? l') = true.
Proof.
  intros (Hr & Hg & Hb) (Hr' & Hg' & Hb') (Lr & Lg & Lb).
  destruct (luminance_mono libm_pow pow_unit pow_mono r g b r' g' b')
    as (l & l' & E & E' & F & F' & L); try assumption.
  exists l, l'. split; [exact E |]. split; [exact E' |].
  now apply leb_of_fval.
Qed.

(** X12: the contrast ratio of a lighter Color against a darker one does
    not decrease when the lighter one gets lighter and the darker one gets
    darker, channel by channel. *)
Theorem contrast_ratio_monotone (lo hi lo' hi' : color) :
  is_color lo -> is_color hi -> is_color lo' -> is_color hi' ->
  channels_le lo' lo -> channels_le lo hi -> channels_le hi hi' ->
  exists q q' : float,
    contrast_ratio libm_pow (Triple hi) (Triple lo) = Ok q
    /\ contrast_ratio libm_pow (Triple hi') (Triple lo') = Ok q'
    /\ (q <=? q') = true.
Proof.
  intros H1 H2 H3 H4 L1 L2 L3.
  destruct (contrast_mono libm_pow pow_unit pow_mono lo hi lo' hi')
    as (q & q' & E & E' & F & F' & L); try assumption.
  exists q, q'. split; [exact E |]. split; [exact E' |].
  now apply leb_of_fval.
Qed.

End FurtherContrast.

(** The monotonicity assumed of [pow], checked on the stand-in. *)
Definition pow_mono_checked (pow : float -> float -> float) (c : Z) : bool :=
  (c <? 11)%Z || (253 <? c)%Z
  || (pow (pow_base c) 2.4 <=? pow (pow_base (c + 1)) 2.4).

Lemma pow_monotone_checked (pow : float -> float -> float) :
  (Py.nearest_float 10 / 255.0 / 12.92 <=? pow (pow_base 11) 2.4) = true ->
  forallb (pow_mono_checked pow) channels = true ->
  pow_monotone_on_channels pow.
Proof.
  intros H0 H. split; [exact H0 |]. intros c Hc.
  pose proof (forall_channel _ H c ltac:(unfold is_channel; lia)) as Hp.
  unfold pow_mono_checked in Hp.
  destruct (Z.ltb_spec c 11); [lia |].
  destruct (Z.ltb_spec 253 c); [lia |]. exact Hp.
Qed.

Lemma ref_pow_monotone : pow_monotone_on_channels RefPow.pow.
Proof. apply pow_monotone_checked; vm_compute; reflexivity. Qed.

Lemma contrast_ratio_parse_error_witness :
  contrast_ratio RefPow.pow (HexStr "xyz") (HexStr "#ffffff")
    = Raise ValueError
  /\ contrast_ratio RefPow.pow (HexStr "#ffffff") (HexStr "xyz")
    = Raise ValueError.
Proof.
  apply (contrast_ratio_parse_error RefPow.pow "xyz" (HexStr "#ffffff")).
  exists ValueError. reflexivity.
Defined.

Lemma luminance_in_unit_interval_witness :
  exists l : float,
    rgb_to_luminance RefPow.pow 39 174 96 = Ok l
    /\ (0 <=? l) = true /\ (l <=? 1) = true.
Proof.
  apply (luminance_in_unit_interval RefPow.pow ref_pow_in_unit_range);
    unfold is_channel; lia.
Defined.

Lemma contrast_ratio_same_color_witness :
  contrast_ratio RefPow.pow (Triple (39, 174, 96)%Z) (Triple (39, 174, 96)%Z)
  = Ok 1.
Proof.
  apply (contrast_ratio_same_color RefPow.pow ref_pow_in_unit_range).
  unfold is_color, is_channel. lia.
Defined.

Lemma luminance_monotone_witness :
  exists l l' : float,
    rgb_to_luminance RefPow.pow 39 174 96 = Ok l
    /\ rgb_to_luminance RefPow.pow 69 185 121 = Ok l'
    /\ (l <=? l') = true.
Proof.
  apply (luminance_monotone RefPow.pow ref_pow_in_unit_range
           ref_pow_monotone);
    unfold is_color, channels_le, is_channel; lia.
Defined.

Lemma contrast_ratio_monotone_witness :
  exists q q' : float,
    contrast_ratio RefPow.pow (Triple (191, 191, 191)%Z)
      (Triple (39, 174, 96)%Z) = Ok q
    /\ contrast_ratio RefPow.pow (Triple (255, 255, 255)%Z)
         (Triple (0, 0, 0)%Z) = Ok q'
    /\ (q <=? q') = true.
Proof.
  apply (contrast_ratio_monotone RefPow.pow ref_pow_in_unit_range
           ref_pow_monotone);
    unfold is_color, channels_le, is_channel; lia.
Defined.

(** * Properties of the report *)

Module ReportFacts.

Import SFOrder F64 FloatBool Luminance Blend Report.
Local Open Scope float_scope.

(** *** Comparisons with a threshold, on any float *)

Lemma threshold_4_5 : Prim2SF 4.5 = S754_finite false 5066549580791808 (-50).
Proof. reflexivity. Qed.

Lemma threshold_3 : Prim2SF 3.0 = S754_finite false 6755399441055744 (-51).
Proof. reflexivity. Qed.

Lemma leb_4_5_cases (r : float) :
  (4.5 <=? r) = true -> fin r = true \/ Prim2SF r = S754_infinity false.
Proof.
  rewrite FloatAxioms.leb_spec, threshold_4_5. unfold fin.
  destruct (Prim2SF r) as [s | [] | | [] m e]; cbn [SFleb SFcompare nnf];
    intros H; try discriminate; auto.
Qed.

Lemma verdict_at_chain (r : float) :
  verdict_at 4.5 r = PASS -> verdict_at 3.0 r = PASS.
Proof.
  unfold verdict_at. destruct (4.5 <=? r) eqn:E; [intros _ | discriminate].
  destruct (leb_4_5_cases r E) as [F | I].
  - rewrite (leb_fval 4.5 r ltac:(closed) F) in E. apply Z.leb_le in E.
    rewrite (leb_fval 3.0 r ltac:(closed) F).
    replace (fval 3.0 <=? fval r)%Z with true; [reflexivity |].
    symmetry. apply Z.leb_le. eapply Z.le_trans; [| exact E]. closed.
  - rewrite FloatAxioms.leb_spec, I, threshold_3. reflexivity.
Qed.

Lemma is_nan_spec (r : float) :
  is_nan r = match Prim2SF r with S754_nan => true | _ => false end.
Proof.
  unfold is_nan. rewrite FloatAxioms.eqb_spec. unfold SFeqb.
  destruct (Prim2SF r) as [s | [] | | [] m e]; cbn [SFcompare negb];
    try reflexivity; try (destruct s; reflexivity);
    rewrite Z.compare_refl, Pos.compare_cont_refl; reflexivity.
Qed.

Lemma card_verdict_nan (r : float) :
  card_verdict_of r = PASS_3 <-> is_nan r = true.
Proof.
  rewrite is_nan_spec. unfold card_verdict_of.
  destruct (fin r) eqn:F.
  - rewrite (leb_fval 4.5 r ltac:(closed) F), (ltb_fval r 4.5 F ltac:(closed)).
    unfold fin in F.
    destruct (Z.leb_spec (fval 4.5) (fval r));
      [| destruct (Z.ltb_spec (fval r) (fval 4.5)); [| lia]];
      (split; [discriminate |]);
      destruct (Prim2SF r); discriminate.
  - rewrite FloatAxioms.leb_spec, FloatAxioms.ltb_spec, threshold_4_5.
    unfold fin in F.
    destruct (Prim2SF r) as [s | [] | | [] m e];
      cbn [SFleb SFltb SFcompare nnf] in *; try discriminate;
      split; try discriminate; reflexivity.
Qed.

(** *** Strings of 6 hex digits are Colors *)

Lemma hex_digit_not_minus (a : ascii) :
  Str.is_hex_digit a = true -> Ascii.eqb a "-" = false.
Proof.
  intros H. destruct (Ascii.eqb_spec a "-") as [-> |]; [| reflexivity].
  discriminate.
Qed.

Lemma hex_value_channel (a b : ascii) :
  Str.is_hex_digit a = true -> Str.is_hex_digit b = true ->
  is_channel (hex_value (StrFacts.str2 a b)).
Proof.
  intros Ha Hb.
  destruct (HexFacts.int16_bounds (StrFacts.str2 a b) _ ltac:(simpl; lia)
              (StrFacts.int16_hex2 a b Ha Hb)) as [B1 B2].
  specialize (B2 (hex_digit_not_minus a Ha)). unfold is_channel. lia.
Qed.

Lemma hex6_is_color (s : string) :
  is_hex6 (strip_optional_hash s) = true ->
  exists c : color, hex_to_rgb s = Ok c /\ is_color c.
Proof.
  intros H. pose proof (StrFacts.hex_to_rgb_hex6 s) as E.
  rewrite (StrFacts.lstrip_hash_optional s H) in E. specialize (E H).
  eexists. split; [exact E |].
  destruct (StrFacts.is_hex6_inv _ H)
    as (a & b & c & d & e & f & -> & Ha & Hb & Hc & Hd & He & Hf).
  change (Str.slice _ 0 2) with (StrFacts.str2 a b).
  change (Str.slice _ 2 4) with (StrFacts.str2 c d).
  change (Str.slice _ 4 6) with (StrFacts.str2 e f).
  repeat split; apply hex_value_channel; assumption.
Qed.

(** *** The rows *)

Lemma white_rgb_color : is_color white_rgb.
Proof. unfold white_rgb, is_color, is_channel. lia. Qed.

Lemma blend_color (fg bg : color) (alpha : float) :
  is_color fg -> is_color bg ->
  (0 <=? alpha) = true -> (alpha <=? 1) = true ->
  exists out : color, blend_rgba_on_rgb fg bg alpha = Ok out /\ is_color out.
Proof.
  destruct fg as [[fr fg] fb], bg as [[br bg] bb].
  intros (Hfr & Hfg & Hfb) (Hbr & Hbg & Hbb) A0 A1.
  destruct (blend_channel_range fr br alpha Hfr Hbr A0 A1) as (r & Er & Cr & _).
  destruct (blend_channel_range fg bg alpha Hfg Hbg A0 A1) as (g & Eg & Cg & _).
  destruct (blend_channel_range fb bb alpha Hfb Hbb A0 A1) as (b & Eb & Cb & _).
  exists (r, g, b). unfold blend_rgba_on_rgb. rewrite Er, Eg, Eb.
  split; [reflexivity | exact (conj Cr (conj Cg Cb))].
Qed.

Section WithPow.

Variable libm_pow : float -> float -> float.
Hypothesis pow_unit : pow_in_unit_range libm_pow.

Lemma ratio_defined (a b : color) :
  is_color a -> is_color b ->
  exists ratio : float,
    contrast_ratio libm_pow (Triple a) (Triple b) = Ok ratio
    /\ in_range ratio /\ is_nan ratio = false.
Proof.
  intros Ha Hb.
  destruct (contrast_ratio_triples libm_pow pow_unit a b Ha Hb)
    as (r & E & _ & F & L1 & L2).
  exists r. split; [exact E |]. split.
  - split; apply leb_of_fval; try assumption; reflexivity.
  - apply fin_not_nan, F.
Qed.

Lemma not_third (ratio : float) :
  is_nan ratio = false -> card_verdict_of ratio <> PASS_3.
Proof.
  intros N H. apply card_verdict_nan in H. congruence.
Qed.

Lemma white_text_row_defined (bg : string) :
  is_hex6 (strip_optional_hash bg) = true ->
  exists row : text_row,
    white_text_row libm_pow bg = Ok row /\ in_range (text_ratio row).
Proof.
  intros H. destruct (hex6_is_color bg H) as (c & E & Hc).
  destruct (ratio_defined white_rgb c white_rgb_color Hc) as (r & Er & R & _).
  unfold white_text_row, contrast_ratio in *. cbn [resolve bind] in *.
  change (hex_to_rgb white) with (Ok white_rgb). rewrite E.
  cbn [bind]. rewrite Er. cbn [bind].
  eexists. split; [reflexivity | exact R].
Qed.

(** A row that blends white over the background and compares the result
    with the background. *)
Lemma blended_ratio_defined (bg : color) (alpha : float) :
  is_color bg -> (0 <=? alpha) = true -> (alpha <=? 1) = true ->
  exists (out : color) (ratio : float),
    blend_rgba_on_rgb white_rgb bg alpha = Ok out
    /\ is_color out
    /\ contrast_ratio libm_pow (Triple out) (Triple bg) = Ok ratio
    /\ in_range ratio /\ is_nan ratio = false.
Proof.
  intros Hb A0 A1.
  destruct (blend_color white_rgb bg alpha white_rgb_color Hb A0 A1)
    as (out & Eo & Ho).
  destruct (ratio_defined out bg Ho Hb) as (r & Er & R & N).
  exists out, r. auto.
Qed.

Lemma muted_text_row_defined (bg : string) :
  is_hex6 (strip_optional_hash bg) = true ->
  exists row : text_row,
    muted_text_row libm_pow bg = Ok row /\ in_range (text_ratio row).
Proof.
  intros H. destruct (hex6_is_color bg H) as (c & E & Hc).
  destruct (blended_ratio_defined c 0.75 Hc eq_refl eq_refl)
    as (out & r & Eo & _ & Er & R & _).
  unfold muted_text_row. rewrite E. cbn [bind]. rewrite Eo. cbn [bind].
  rewrite Er. cbn [bind]. eexists. split; [reflexivity | exact R].
Qed.

Lemma focus_row_defined (bg : string) :
  is_hex6 (strip_optional_hash bg) = true ->
  exists row : focus_row,
    focus_row_of libm_pow bg = Ok row /\ in_range (focus_ratio row).
Proof.
  intros H. destruct (hex6_is_color bg H) as (c & E & Hc).
  destruct (blended_ratio_defined c 0.6 Hc eq_refl eq_refl)
    as (out & r & Eo & _ & Er & R & _).
  unfold focus_row_of. rewrite E. cbn [bind]. rewrite Eo. cbn [bind].
  rewrite Er. cbn [bind]. eexists. split; [reflexivity | exact R].
Qed.

Lemma card_row_defined (bg : string) :
  is_hex6 (strip_optional_hash bg) = true ->
  exists row : card_row,
    card_row_of libm_pow bg = Ok row
    /\ is_color (card_bg row)
    /\ in_range (white_ratio row) /\ in_range (muted_ratio row)
    /\ white_verdict row <> PASS_3 /\ muted_verdict row <> PASS_3.
Proof.
  intros H. destruct (hex6_is_color bg H) as (c & E & Hc).
  destruct (blend_color white_rgb c 0.15 white_rgb_color Hc eq_refl eq_refl)
    as (card & Ec & Hcard).
  destruct (ratio_defined white_rgb card white_rgb_color Hcard)
    as (wr & Ew & Rw & Nw).
  destruct (blended_ratio_defined card 0.75 Hcard eq_refl eq_refl)
    as (out & mr & Eo & _ & Em & Rm & Nm).
  unfold card_row_of. rewrite E. cbn [bind]. rewrite Ec. cbn [bind].
  rewrite Ew. cbn [bind]. rewrite Eo. cbn [bind]. rewrite Em. cbn [bind].
  eexists. split; [reflexivity |].
  cbn [card_bg white_ratio muted_ratio white_verdict muted_verdict].
  split; [exact Hcard |]. split; [exact Rw |]. split; [exact Rm |].
  split; apply not_third; assumption.
Qed.

(** *** White over a background

    With the three opacities of the report, blending white over a channel
    never gives less than the channel. *)

Definition white_over_checked (alpha : float) (b : Z) : bool :=
  match blend_channel 255 b alpha with
  | Ok v => (b <=? v)%Z
  | Raise _ => false
  end.

Lemma white_over_channel (alpha : float) (b : Z) :
  forallb (white_over_checked alpha) channels = true -> is_channel b ->
  exists v : Z, blend_channel 255 b alpha = Ok v /\ (b <= v)%Z.
Proof.
  intros H Hb. pose proof (forall_channel _ H b Hb) as C.
  unfold white_over_checked in C.
  destruct (blend_channel 255 b alpha) as [v |]; [| discriminate].
  exists v. split; [reflexivity | now apply Z.leb_le].
Qed.

Lemma white_over_lightens (alpha : float) (bg : color) :
  forallb (white_over_checked alpha) channels = true ->
  is_color bg -> (0 <=? alpha) = true -> (alpha <=? 1) = true ->
  exists out : color,
    blend_rgba_on_rgb white_rgb bg alpha = Ok out
    /\ is_color out /\ channels_le bg out /\ channels_le out white_rgb.
Proof.
  intros H Hc A0 A1.
  destruct (blend_color white_rgb bg alpha white_rgb_color Hc A0 A1)
    as (out & E & Ho).
  exists out. split; [exact E |]. split; [exact Ho |].
  destruct bg as [[r g] b], out as [[r' g'] b'].
  destruct Hc as (Hr & Hg & Hb).
  destruct (white_over_channel alpha r H Hr) as (vr & Er & Lr).
  destruct (white_over_channel alpha g H Hg) as (vg & Eg & Lg).
  destruct (white_over_channel alpha b H Hb) as (vb & Eb & Lb).
  unfold blend_rgba_on_rgb, white_rgb in E. rewrite Er, Eg, Eb in E.
  cbn [bind] in E. injection E as <- <- <-.
  split; [exact (conj Lr (conj Lg Lb)) |].
  unfold white_rgb, is_color, is_channel, channels_le in *. lia.
Qed.

Lemma white_over_75 : forallb (white_over_checked 0.75) channels = true.
Proof. vm_compute. reflexivity. Qed.

Lemma white_over_15 : forallb (white_over_checked 0.15) channels = true.
Proof. vm_compute. reflexivity. Qed.

Lemma white_over_60 : forallb (white_over_checked 0.6) channels = true.
Proof. vm_compute. reflexivity. Qed.

Lemma channels_le_refl (c : color) : channels_le c c.
Proof. destruct c as [[r g] b]. unfold channels_le. lia. Qed.

(** *** The loops *)

Lemma for_each_defined {A B : Type} (body : A -> result B) (l : list A) :
  Forall (fun a => exists b, body a = Ok b) l ->
  exists bs : list B, for_each body l = Ok bs /\ List.length bs = List.length l.
Proof.
  induction 1 as [| a l [b Hb] _ (bs & E & L)].
  - exists []. split; reflexivity.
  - exists (b :: bs). cbn [for_each]. rewrite Hb. cbn [bind]. rewrite E.
    split; [reflexivity | simpl; now rewrite L].
Qed.

Lemma for_each_raises {A B : Type} (body : A -> result B) (l : list A)
    (e : exn) :
  Forall (fun a => (exists b, body a = Ok b) \/ body a = Raise e) l ->
  Exists (fun a => body a = Raise e) l ->
  for_each body l = Raise e.
Proof.
  induction 1 as [| a l Ha _ IH]; intros X; [inversion X |].
  cbn [for_each]. destruct Ha as [[b Hb] | Hr].
  - rewrite Hb. cbn [bind]. inversion X as [? ? Hx | ? ? Hx]; subst.
    + congruence.
    + now rewrite (IH Hx).
  - now rewrite Hr.
Qed.

Lemma report_on_defined (table : list (string * string)) :
  Forall well_formed table ->
  exists white_rows muted_rows card_rows focus_rows,
    report_on libm_pow table
      = Ok (white_rows, muted_rows, card_rows, focus_rows)
    /\ List.length white_rows = List.length table
    /\ List.length muted_rows = List.length table
    /\ List.length card_rows = List.length table
    /\ List.length focus_rows = List.length table.
Proof.
  intros H. unfold report_on.
  destruct (for_each_defined (fun e => white_text_row libm_pow (snd e)) table)
    as (w & Ew & Lw).
  { eapply Forall_impl; [| exact H]. intros e He.
    destruct (white_text_row_defined _ He) as (row & E & _). now exists row. }
  destruct (for_each_defined (fun e => muted_text_row libm_pow (snd e)) table)
    as (m & Em & Lm).
  { eapply Forall_impl; [| exact H]. intros e He.
    destruct (muted_text_row_defined _ He) as (row & E & _). now exists row. }
  destruct (for_each_defined (fun e => card_row_of libm_pow (snd e)) table)
    as (c & Ec & Lc).
  { eapply Forall_impl; [| exact H]. intros e He.
    destruct (card_row_defined _ He) as (row & E & _). now exists row. }
  destruct (for_each_defined (fun e => focus_row_of libm_pow (snd e)) table)
    as (f & Ef & Lf).
  { eapply Forall_impl; [| exact H]. intros e He.
    destruct (focus_row_defined _ He) as (row & E & _). now exists row. }
  rewrite Ew, Em, Ec, Ef. cbn [bind]. exists w, m, c, f. auto.
Qed.

Lemma white_text_row_raises (bg : string) :
  raises (hex_to_rgb bg) -> white_text_row libm_pow bg = Raise ValueError.
Proof.
  intros [e H]. rewrite (StrFacts.hex_to_rgb_raises_ValueError bg e H) in H.
  unfold white_text_row, contrast_ratio. cbn [resolve].
  change (hex_to_rgb white) with (Ok white_rgb). cbn [bind].
  now rewrite H.
Qed.

End WithPow.

End ReportFacts.

Section FurtherReport.

Import Report ReportFacts.

Variable libm_pow : float -> float -> float.

(** X13: a row of white or muted text never passes the check for normal
    text (4.5:1) while failing the check for large text (3:1), whatever
    the background string and the ratio. *)
Theorem verdict_normal_implies_large (bg : string) (row : text_row) :
  white_text_row libm_pow bg = Ok row \/ muted_text_row libm_pow bg = Ok row ->
  aa_normal row = PASS -> aa_large row = PASS.
Proof.
  unfold white_text_row, muted_text_row. intros [H | H].
  - destruct (contrast_ratio libm_pow _ _) as [ratio |]; [| discriminate].
    injection H as <-. apply verdict_at_chain.
  - destruct (hex_to_rgb bg) as [c |]; [| discriminate]. cbn [bind] in H.
    destruct (blend_rgba_on_rgb _ _ _) as [t |]; [| discriminate].
    cbn [bind] in H.
    destruct (contrast_ratio libm_pow _ _) as [ratio |]; [| discriminate].
    injection H as <-. apply verdict_at_chain.
Qed.

(** X14: the third text of a card row, "PASS (3:1)", is chosen exactly when
    the ratio is a NaN: for every other float one of the first two tests
    holds. *)
Theorem card_verdict_third_only_nan (ratio : float) :
  card_verdict_of ratio = PASS_3 <-> is_nan ratio = true.
Proof. apply card_verdict_nan. Qed.

Hypothesis pow_unit : pow_in_unit_range libm_pow.

(** X15: on a background of 6 hex digits the rows of white text, of muted
    text and of the focus outline are computed without an exception, and
    their ratios lie in [1, 21]. *)
Theorem text_rows_defined (bg : string) :
  is_hex6 (strip_optional_hash bg) = true ->
  (exists row : text_row,
     white_text_row libm_pow bg = Ok row /\ in_range (text_ratio row))
  /\ (exists row : text_row,
        muted_text_row libm_pow bg = Ok row /\ in_range (text_ratio row))
  /\ (exists row : focus_row,
        focus_row_of libm_pow bg = Ok row /\ in_range (focus_ratio row)).
Proof.
  intros H. split; [| split].
  - apply white_text_row_defined; assumption.
  - apply muted_text_row_defined; assumption.
  - apply focus_row_defined; assumption.
Qed.

(** X16: on a background of 6 hex digits the card row is computed without
    an exception: the card background is a Color, both ratios lie in
    [1, 21], and neither verdict is the third text. *)
Theorem card_row_in_range (bg : string) :
  is_hex6 (strip_optional_hash bg) = true ->
  exists row : card_row,
    card_row_of libm_pow bg = Ok row
    /\ is_color (card_bg row)
    /\ in_range (white_ratio row) /\ in_range (muted_ratio row)
    /\ white_verdict row <> PASS_3 /\ muted_verdict row <> PASS_3.
Proof. apply card_row_defined, pow_unit. Qed.

(** X17: the four loops complete on every table of backgrounds of 6 hex
    digits, with one row per entry in each table; this is the case of the
    script's own table, with four rows in each. *)
Theorem report_completes :
  (forall table : list (string * string),
     Forall well_formed table ->
     exists white_rows muted_rows card_rows focus_rows,
       report_on libm_pow table
         = Ok (white_rows, muted_rows, card_rows, focus_rows)
       /\ List.length white_rows = List.length table
       /\ List.length muted_rows = List.length table
       /\ List.length card_rows = List.length table
       /\ List.length focus_rows = List.length table)
  /\ exists white_rows muted_rows card_rows focus_rows,
       report libm_pow = Ok (white_rows, muted_rows, card_rows, focus_rows)
       /\ List.length white_rows = 4%nat
       /\ List.length muted_rows = 4%nat
       /\ List.length card_rows = 4%nat
       /\ List.length focus_rows = 4%nat.
Proof.
  split.
  - intros table H. apply report_on_defined; assumption.
  - apply (report_on_defined libm_pow pow_unit status_backgrounds).
    repeat constructor.
Qed.

(** X18: when every background of the table is 6 hex digits or does not
    parse, and one does not parse, the report raises [ValueError]. *)
Theorem report_raises_on_bad_color (table : list (string * string)) :
  Forall (fun e => well_formed e \/ raises (hex_to_rgb (snd e))) table ->
  Exists (fun e => raises (hex_to_rgb (snd e))) table ->
  report_on libm_pow table = Raise ValueError.
Proof.
  intros H X. unfold report_on.
  rewrite (for_each_raises (fun e => white_text_row libm_pow (snd e)) table
             ValueError); [reflexivity | |].
  - eapply Forall_impl; [| exact H]. intros e [He | He].
    + left.
      destruct (white_text_row_defined libm_pow pow_unit _ He)
        as (row & E & _).
      now exists row.
    + right. now apply white_text_row_raises.
  - apply Exists_exists in X as (e & In & He). apply Exists_exists.
    exists e. split; [exact In |]. now apply white_text_row_raises.
Qed.

Hypothesis pow_mono : pow_monotone_on_channels libm_pow.

(** X19: on a background of 6 hex digits, the ratio of the muted text and
    the ratio of the focus outline are at most the ratio of white text on
    the same background: a white that is blended with the background never
    has more contrast than white itself. *)
Theorem blended_text_contrast_at_most_white (bg : string) :
  is_hex6 (strip_optional_hash bg) = true ->
  exists (w m : text_row) (f : focus_row),
    white_text_row libm_pow bg = Ok w
    /\ muted_text_row libm_pow bg = Ok m
    /\ focus_row_of libm_pow bg = Ok f
    /\ (text_ratio m <=? text_ratio w) = true
    /\ (focus_ratio f <=? text_ratio w) = true.
Proof.
  intros H. destruct (hex6_is_color bg H) as (c & E & Hc).
  destruct (white_over_lightens 0.75 c white_over_75 Hc eq_refl eq_refl)
    as (t & Et & Ht & L1 & L2).
  destruct (white_over_lightens 0.6 c white_over_60 Hc eq_refl eq_refl)
    as (o & Eo & Ho & L3 & L4).
  destruct (LuminanceFacts.contrast_mono libm_pow pow_unit pow_mono
              c t c white_rgb Hc Ht Hc white_rgb_color
              (channels_le_refl c) L1 L2)
    as (qm & qw & Em & Ew & Fm & Fw & Lm).
  destruct (LuminanceFacts.contrast_mono libm_pow pow_unit pow_mono
              c o c white_rgb Hc Ho Hc white_rgb_color
              (channels_le_refl c) L3 L4)
    as (qf & qw' & Ef & Ew' & Ff & _ & Lf).
  rewrite Ew in Ew'. injection Ew' as <-.
  unfold white_text_row, muted_text_row, focus_row_of, contrast_ratio.
  cbn [resolve]. change (hex_to_rgb white) with (Ok white_rgb).
  rewrite E. cbn [bind]. rewrite Et, Eo. cbn [bind].
  unfold contrast_ratio in Em, Ew, Ef. cbn [resolve bind] in Em, Ew, Ef.
  rewrite Em, Ew, Ef. cbn [bind].
  do 3 eexists. repeat split; cbn [text_ratio focus_ratio];
    apply FloatBool.leb_of_fval; assumption.
Qed.

(** X20: on a background of 6 hex digits, the card lowers the contrast of
    white text, and muted text on the card has no more contrast than white
    text on the card. *)
Theorem card_contrast_ordering (bg : string) :
  is_hex6 (strip_optional_hash bg) = true ->
  exists (w : text_row) (c : card_row),
    white_text_row libm_pow bg = Ok w
    /\ card_row_of libm_pow bg = Ok c
    /\ (muted_ratio c <=? white_ratio c) = true
    /\ (white_ratio c <=? text_ratio w) = true.
Proof.
  intros H. destruct (hex6_is_color bg H) as (c & E & Hc).
  destruct (white_over_lightens 0.15 c white_over_15 Hc eq_refl eq_refl)
    as (card & Ec & Hcard & L1 & L2).
  destruct (white_over_lightens 0.75 card white_over_75 Hcard eq_refl eq_refl)
    as (t & Et & Ht & L3 & L4).
  destruct (LuminanceFacts.contrast_mono libm_pow pow_unit pow_mono
              card white_rgb c white_rgb Hcard white_rgb_color Hc
              white_rgb_color L1 L2 (channels_le_refl _))
    as (qc & qw & Eqc & Eqw & Fc & Fw & Lc).
  destruct (LuminanceFacts.contrast_mono libm_pow pow_unit pow_mono
              card t card white_rgb Hcard Ht Hcard white_rgb_color
              (channels_le_refl _) L3 L4)
    as (qm & qc' & Eqm & Eqc' & Fm & _ & Lm).
  rewrite Eqc in Eqc'. injection Eqc' as <-.
  unfold white_text_row, card_row_of, contrast_ratio.
  cbn [resolve]. change (hex_to_rgb white) with (Ok white_rgb).
  rewrite E. cbn [bind]. rewrite Ec. cbn [bind].
  unfold contrast_ratio in Eqc, Eqw, Eqm. cbn [resolve bind] in Eqc, Eqw, Eqm.
  rewrite Eqw, Eqc. cbn [bind]. rewrite Et. cbn [bind].
  rewrite Eqm. cbn [bind].
  do 2 eexists. repeat split; cbn [text_ratio white_ratio muted_ratio];
    apply FloatBool.leb_of_fval; assumption.
Qed.

End FurtherReport.

Import Report ReportFacts.

Lemma verdict_normal_implies_large_witness :
  aa_large {| text_ratio := 21; aa_large := PASS; aa_normal := PASS |} = PASS.
Proof.
  apply (verdict_normal_implies_large RefPow.pow "#000000").
  - left. vm_compute. reflexivity.
  - reflexivity.
Defined.

Lemma text_rows_defined_witness :
  (exists row : text_row,
     white_text_row RefPow.pow "#27ae60" = Ok row
     /\ in_range (text_ratio row))
  /\ (exists row : text_row,
        muted_text_row RefPow.pow "#27ae60" = Ok row
        /\ in_range (text_ratio row))
  /\ (exists row : focus_row,
        focus_row_of RefPow.pow "#27ae60" = Ok row
        /\ in_range (focus_ratio row)).
Proof.
  apply (text_rows_defined RefPow.pow ref_pow_in_unit_range "#27ae60").
  reflexivity.
Defined.

Lemma card_row_in_range_witness :
  exists row : card_row,
    card_row_of RefPow.pow "#27ae60" = Ok row
    /\ is_color (card_bg row)
    /\ in_range (white_ratio row) /\ in_range (muted_ratio row)
    /\ white_verdict row <> PASS_3 /\ muted_verdict row <> PASS_3.
Proof.
  apply (card_row_in_range RefPow.pow ref_pow_in_unit_range "#27ae60").
  reflexivity.
Defined.

Lemma report_completes_witness :
  exists white_rows muted_rows card_rows focus_rows,
    report RefPow.pow = Ok (white_rows, muted_rows, card_rows, focus_rows)
    /\ List.length white_rows = 4%nat
    /\ List.length muted_rows = 4%nat
    /\ List.length card_rows = 4%nat
    /\ List.length focus_rows = 4%nat.
Proof. apply (report_completes RefPow.pow ref_pow_in_unit_range). Defined.

Lemma report_raises_on_bad_color_witness :
  report_on RefPow.pow [("Normal", "#27ae60"); ("Broken", "#27ae")]%string
  = Raise ValueError.
Proof.
  apply (report_raises_on_bad_color RefPow.pow ref_pow_in_unit_range).
  - constructor; [left; reflexivity |].
    constructor; [right; exists ValueError; reflexivity | constructor].
  - right. left. exists ValueError. reflexivity.
Defined.

Lemma blended_text_contrast_at_most_white_witness :
  exists (w m : text_row) (f : focus_row),
    white_text_row RefPow.pow "#27ae60" = Ok w
    /\ muted_text_row RefPow.pow "#27ae60" = Ok m
    /\ focus_row_of RefPow.pow "#27ae60" = Ok f
    /\ (text_ratio m <=? text_ratio w) = true
    /\ (focus_ratio f <=? text_ratio w) = true.
Proof.
  apply (blended_text_contrast_at_most_white RefPow.pow ref_pow_in_unit_range
           ref_pow_monotone "#27ae60").
  reflexivity.
Defined.

Lemma card_contrast_ordering_witness :
  exists (w : text_row) (c : card_row),
    white_text_row RefPow.pow "#27ae60" = Ok w
    /\ card_row_of RefPow.pow "#27ae60" = Ok c
    /\ (muted_ratio c <=? white_ratio c) = true
    /\ (white_ratio c <=? text_ratio w) = true.
Proof.
  apply (card_contrast_ordering RefPow.pow ref_pow_in_unit_range
           ref_pow_monotone "#27ae60").
  reflexivity.
Defined.
